(** * stock_alert_bot: the ingestion / dedup / classify / digest engine

    A shallow embedding of [stock_alert_bot.py].  Python [str] values are
    sequences of Unicode code points, so text is modelled as [list N]; the
    [datetime] objects keep their calendar fields, as CPython stores them;
    the persisted state is a record whose JSON image is what [json.dump]
    writes. *)

From Stdlib Require Import List NArith ZArith Lia Bool String Ascii QArith Uint63.
From Stdlib Require Import MSetPositive FinFun.
From Stdlib Require DecimalPos.
From Stdlib Require Import Permutation Sorted.
Import ListNotations.
Close Scope Q_scope.

Set Implicit Arguments.

(* ================================================================== *)
(** ** Text: Python [str] as a list of code points *)

Definition char := N.
Definition text := list char.

(** Decoder used for the literals of this file only (the source file is
    UTF-8; a Rocq string literal holds the same bytes). *)
Fixpoint utf8_decode (bs : list N) : text :=
  match bs with
  | [] => []
  | b0 :: r0 =>
    if (b0 <? 0x80)%N then b0 :: utf8_decode r0
    else match r0 with
    | [] => []
    | b1 :: r1 =>
      if (b0 <? 0xE0)%N then ((b0 - 0xC0) * 64 + (b1 - 0x80))%N :: utf8_decode r1
      else match r1 with
      | [] => []
      | b2 :: r2 =>
        if (b0 <? 0xF0)%N
        then ((b0 - 0xE0) * 4096 + (b1 - 0x80) * 64 + (b2 - 0x80))%N :: utf8_decode r2
        else match r2 with
        | [] => []
        | b3 :: r3 =>
          ((b0 - 0xF0) * 262144 + (b1 - 0x80) * 4096 + (b2 - 0x80) * 64 + (b3 - 0x80))%N
            :: utf8_decode r3
        end
      end
    end
  end.

Definition lit (s : string) : text :=
  utf8_decode (map N_of_ascii (list_ascii_of_string s)).

Fixpoint text_eqb (a b : text) : bool :=
  match a, b with
  | [], [] => true
  | x :: a', y :: b' => N.eqb x y && text_eqb a' b'
  | _, _ => false
  end.

Lemma text_eqb_eq (a b : text) : text_eqb a b = true <-> a = b.
Proof.
  revert b; induction a as [|x a IH]; intros [|y b]; simpl; split; try congruence.
  - intros H. apply andb_prop in H as [H1 H2].
    apply N.eqb_eq in H1. apply IH in H2. congruence.
  - intros [= -> ->]. rewrite N.eqb_refl. now apply IH.
Qed.

Lemma text_eqb_refl (a : text) : text_eqb a a = true.
Proof. now apply text_eqb_eq. Qed.

(** [str.encode("utf-8")]: fails (UnicodeEncodeError) on a lone surrogate. *)
Definition utf8_char (c : char) : option (list N) :=
  (if c <? 0x80 then Some [c]
   else if c <? 0x800 then Some [0xC0 + c / 64; 0x80 + c mod 64]
   else if (0xD800 <=? c) && (c <=? 0xDFFF) then None
   else if c <? 0x10000
        then Some [0xE0 + c / 4096; 0x80 + (c / 64) mod 64; 0x80 + c mod 64]
   else if c <? 0x110000
        then Some [0xF0 + c / 262144; 0x80 + (c / 4096) mod 64;
                   0x80 + (c / 64) mod 64; 0x80 + c mod 64]
   else None)%N.

Fixpoint utf8_encode (s : text) : option (list N) :=
  match s with
  | [] => Some []
  | c :: r =>
    match utf8_char c, utf8_encode r with
    | Some bs, Some rs => Some (bs ++ rs)
    | _, _ => None
    end
  end.

(* ================================================================== *)
(** ** [hashlib.sha256] (FIPS 180-4), on byte lists

    32-bit words are held in machine integers; every addition and left
    shift is masked back to 32 bits. *)

Module SHA256.
Local Open Scope uint63_scope.

Definition mask32 : int := 0xFFFFFFFF.
Definition add32 (a b : int) : int := (a + b) land mask32.
Definition rotr (n x : int) : int :=
  (x >> n) lor ((x << (32 - n)) land mask32).
Definition Ch (x y z : int) : int :=
  (x land y) lxor ((x lxor mask32) land z).
Definition Maj (x y z : int) : int :=
  (x land y) lxor ((x land z) lxor (y land z)).
Definition BSig0 x := (rotr 2 x) lxor ((rotr 13 x) lxor (rotr 22 x)).
Definition BSig1 x := (rotr 6 x) lxor ((rotr 11 x) lxor (rotr 25 x)).
Definition SSig0 x := (rotr 7 x) lxor ((rotr 18 x) lxor (x >> 3)).
Definition SSig1 x := (rotr 17 x) lxor ((rotr 19 x) lxor (x >> 10)).

(** FIPS 180-4, 4.2.2: the round constants are the first 32 bits of the
    fractional parts of the cube roots of the first 64 primes. *)
Fixpoint iroot (k : Z) (bits : nat) (n r : Z) : Z :=
  match bits with
  | O => r
  | S b =>
    let c := (r + 2 ^ Z.of_nat b)%Z in
    iroot k b n (if (c ^ k <=? n)%Z then c else r)
  end.

Definition frac_root32 (k p : Z) : Z :=
  (iroot k 40 (p * 2 ^ (32 * k)) 0 mod 2 ^ 32)%Z.

Fixpoint primes_from (fuel : nat) (n : Z) (count : nat) (found : list Z) : list Z :=
  match fuel, count with
  | _, O => rev found
  | O, _ => rev found
  | S f, S c =>
    if forallb (fun p => negb (n mod p =? 0)%Z) found
    then primes_from f (n + 1)%Z c (n :: found)
    else primes_from f (n + 1)%Z count found
  end.

Definition first_primes (count : nat) : list Z := primes_from 400 2%Z count [].

Definition K : list int :=
  Eval vm_compute in map (fun p => of_Z (frac_root32 3 p)) (first_primes 64).

Record st := mk
  { sa : int; sb : int; sc : int; sd : int; se : int; sf : int; sg : int; sh : int }.

Definition H0 : st :=
  mk 0x6a09e667 0xbb67ae85 0x3c6ef372 0xa54ff53a
     0x510e527f 0x9b05688c 0x1f83d9ab 0x5be0cd19.

Definition pad (msg : list int) : list int :=
  let l := N.of_nat (List.length msg) in
  let k := ((119 - l mod 64) mod 64)%N in
  let bits := of_Z (Z.of_N (8 * l)) in
  msg ++ [0x80] ++ repeat 0 (N.to_nat k)
      ++ map (fun i => (bits >> (8 * i)) land 0xFF) [7; 6; 5; 4; 3; 2; 1; 0].

Fixpoint words (bs : list int) : list int :=
  match bs with
  | b0 :: b1 :: b2 :: b3 :: r =>
      ((b0 << 24) lor (b1 << 16) lor (b2 << 8) lor b3) :: words r
  | _ => []
  end.

(** The message schedule, most recent word first. *)
Fixpoint expand (n : nat) (w : list int) : list int :=
  match n with
  | O => w
  | S n' =>
    let x := add32 (add32 (SSig1 (nth 1 w 0)) (nth 6 w 0))
                   (add32 (SSig0 (nth 14 w 0)) (nth 15 w 0)) in
    expand n' (x :: w)
  end.

Definition round (s : st) (kw : int * int) : st :=
  let '(k, w) := kw in
  let t1 := add32 (add32 (add32 (sh s) (BSig1 (se s)))
                         (add32 (Ch (se s) (sf s) (sg s)) k)) w in
  let t2 := add32 (BSig0 (sa s)) (Maj (sa s) (sb s) (sc s)) in
  mk (add32 t1 t2) (sa s) (sb s) (sc s) (add32 (sd s) t1) (se s) (sf s) (sg s).

Definition compress (h : st) (block : list int) : st :=
  let w := rev (expand 48 (rev (words block))) in
  let s := fold_left round (combine K w) h in
  mk (add32 (sa h) (sa s)) (add32 (sb h) (sb s)) (add32 (sc h) (sc s))
     (add32 (sd h) (sd s)) (add32 (se h) (se s)) (add32 (sf h) (sf s))
     (add32 (sg h) (sg s)) (add32 (sh h) (sh s)).

Fixpoint blocks (fuel : nat) (h : st) (bs : list int) : st :=
  match fuel, bs with
  | S f, _ :: _ => blocks f (compress h (firstn 64 bs)) (skipn 64 bs)
  | _, _ => h
  end.

Definition digest (msg : list N) : st :=
  let p := pad (map (fun b => of_Z (Z.of_N b)) msg) in
  blocks (List.length p) H0 p.

Definition hexchar (d : int) : char :=
  let n := Z.to_N (to_Z d) in if (n <? 10)%N then (48 + n)%N else (87 + n)%N.

Definition hex8 (x : int) : text :=
  map (fun i => hexchar ((x >> (4 * i)) land 0xF)) [7; 6; 5; 4; 3; 2; 1; 0].

Definition hexdigest (msg : list N) : text :=
  let s := digest msg in
  hex8 (sa s) ++ hex8 (sb s) ++ hex8 (sc s) ++ hex8 (sd s)
    ++ hex8 (se s) ++ hex8 (sf s) ++ hex8 (sg s) ++ hex8 (sh s).

End SHA256.

Example sha256_abc :
  SHA256.hexdigest [97; 98; 99]%N
  = lit "ba7816bf8f01cfea414140de5dae2223b00361a396177a9cb410ff61f20015ad".
Proof. vm_compute. reflexivity. Qed.

Example sha256_two_blocks :
  SHA256.hexdigest (lit "abcdbcdecdefdefgefghfghighijhijkijkljklmklmnlmnomnopnopq")
  = lit "248d6a61d20638b8e5c026930c3e6039a33ce45964ff2167f6ecedd419db06c1".
Proof. vm_compute. reflexivity. Qed.

(* ================================================================== *)
(** ** Text comparison and search: [==], [>=] and [in] on [str] *)

Fixpoint text_cmp (a b : text) : comparison :=
  match a, b with
  | [], [] => Eq
  | [], _ :: _ => Lt
  | _ :: _, [] => Gt
  | x :: a', y :: b' =>
    match N.compare x y with
    | Eq => text_cmp a' b'
    | c => c
    end
  end.

(** [a >= b] on strings: code point by code point, a proper prefix is smaller. *)
Definition text_geb (a b : text) : bool :=
  match text_cmp a b with Lt => false | _ => true end.

Fixpoint starts_with (k s : text) : bool :=
  match k, s with
  | [], _ => true
  | _ :: _, [] => false
  | x :: k', y :: s' => N.eqb x y && starts_with k' s'
  end.

(** [k in s] for two strings. *)
Fixpoint contains (s k : text) : bool :=
  starts_with k s ||
  match s with
  | [] => false
  | _ :: r => contains r k
  end.

(** [h in l] for a list of strings: a linear scan with [==]. *)
Definition mem (h : text) (l : list text) : bool := existsb (text_eqb h) l.

(* ================================================================== *)
(** ** [datetime]

    Every [datetime] of the program is aware and carries the one zone
    [TZ = timezone(timedelta(hours=9))]; a value is its calendar fields.
    A [timedelta] is a number of microseconds. *)

Record datetime := mkdt
  { year : Z; month : Z; day : Z;
    hour : Z; minute : Z; second : Z; microsecond : Z }.

Definition timedelta := Z.

Module Calendar.
Local Open Scope Z_scope.

Definition is_leap (y : Z) : bool :=
  (y mod 4 =? 0) && (negb (y mod 100 =? 0) || (y mod 400 =? 0)).

Definition days_before_year (y : Z) : Z :=
  let p := y - 1 in p * 365 + p / 4 - p / 100 + p / 400.

Definition DAYS_IN_MONTH : list Z :=
  [-1; 31; 28; 31; 30; 31; 30; 31; 31; 30; 31; 30; 31].

Definition DAYS_BEFORE_MONTH : list Z :=
  [-1; 0; 31; 59; 90; 120; 151; 181; 212; 243; 273; 304; 334].

Definition days_in_month (y m : Z) : Z :=
  if (m =? 2) && is_leap y then 29 else nth (Z.to_nat m) DAYS_IN_MONTH 0.

Definition days_before_month (y m : Z) : Z :=
  nth (Z.to_nat m) DAYS_BEFORE_MONTH 0 + (if (2 <? m) && is_leap y then 1 else 0).

Definition ymd2ord (y m d : Z) : Z :=
  days_before_year y + days_before_month y m + d.

Definition ord2ymd (n0 : Z) : Z * Z * Z :=
  let n := n0 - 1 in
  let n400 := n / 146097 in
  let n := n mod 146097 in
  let n100 := n / 36524 in
  let n := n mod 36524 in
  let n4 := n / 1461 in
  let n := n mod 1461 in
  let n1 := n / 365 in
  let n := n mod 365 in
  let y := n400 * 400 + 1 + n100 * 100 + n4 * 4 + n1 in
  if (n1 =? 4) || (n100 =? 4) then (y - 1, 12, 31)
  else
    let leapyear := (n1 =? 3) && (negb (n4 =? 24) || (n100 =? 3)) in
    let m := (n + 50) / 32 in
    let preceding :=
      nth (Z.to_nat m) DAYS_BEFORE_MONTH 0 + (if (2 <? m) && leapyear then 1 else 0) in
    if n <? preceding then
      let m' := m - 1 in
      let preceding' :=
        preceding - (nth (Z.to_nat m') DAYS_IN_MONTH 0
                     + (if (m' =? 2) && leapyear then 1 else 0)) in
      (y, m', n - preceding' + 1)
    else (y, m, n - preceding + 1).

End Calendar.

Section DatetimeOps.
Local Open Scope Z_scope.

(** The checks of the [datetime] constructor: every value satisfies them. *)
Definition valid_datetime (d : datetime) : bool :=
  (1 <=? year d) && (year d <=? 9999) && (1 <=? month d) && (month d <=? 12)
  && (1 <=? day d) && (day d <=? Calendar.days_in_month (year d) (month d))
  && (0 <=? hour d) && (hour d <=? 23) && (0 <=? minute d) && (minute d <=? 59)
  && (0 <=? second d) && (second d <=? 59)
  && (0 <=? microsecond d) && (microsecond d <=? 999999).

(** Microseconds since the start of day 0 of the proleptic calendar. *)
Definition dt_us (d : datetime) : Z :=
  let '(mkdt y m dd hh mi ss us) := d in
  ((Calendar.ymd2ord y m dd) * 86400 + hh * 3600 + mi * 60 + ss) * 1000000 + us.

(** [a - b] for two datetimes of the same zone. *)
Definition dt_sub (a b : datetime) : timedelta := dt_us a - dt_us b.

Definition dt_of_us (t : Z) : datetime :=
  let days := t / 86400000000 in
  let r := t mod 86400000000 in
  let secs := r / 1000000 in
  let '(y, m, d) := Calendar.ord2ymd days in
  mkdt y m d (secs / 3600) ((secs mod 3600) / 60) (secs mod 60) (r mod 1000000).

(** [d - delta] for a timedelta.  Python raises OverflowError when the
    result leaves the years 1..9999; a clock reading is far from both. *)
Definition dt_minus (d : datetime) (delta : timedelta) : datetime :=
  dt_of_us (dt_us d - delta).

Definition minutes (n : Z) : timedelta := n * 60 * 1000000.

Definition dt_fields (d : datetime) : list Z :=
  [year d; month d; day d; hour d; minute d; second d; microsecond d].

Fixpoint lex_cmp (a b : list Z) : comparison :=
  match a, b with
  | x :: a', y :: b' =>
    match x ?= y with
    | Eq => lex_cmp a' b'
    | c => c
    end
  | _, _ => Eq
  end.

(** Comparison of two datetimes of the same zone: the field tuples. *)
Definition dt_cmp (a b : datetime) : comparison :=
  lex_cmp (dt_fields a) (dt_fields b).

Definition dt_geb (a b : datetime) : bool :=
  match dt_cmp a b with Lt => false | _ => true end.

(** [%0wd] for a value below [10^w]. *)
Fixpoint pad_dec (w : nat) (n : Z) : text :=
  match w with
  | O => []
  | S w' => Z.to_N (48 + n / 10 ^ Z.of_nat w') :: pad_dec w' (n mod 10 ^ Z.of_nat w')
  end.

Definition TZ_SUFFIX : text := Eval vm_compute in lit "+09:00".

Definition isoformat (d : datetime) : text :=
  pad_dec 4 (year d) ++ [45%N] ++ pad_dec 2 (month d) ++ [45%N] ++ pad_dec 2 (day d)
    ++ [84%N] ++ pad_dec 2 (hour d) ++ [58%N] ++ pad_dec 2 (minute d)
    ++ [58%N] ++ pad_dec 2 (second d)
    ++ (if microsecond d =? 0 then [] else 46%N :: pad_dec 6 (microsecond d))
    ++ TZ_SUFFIX.

Fixpoint parse_dec (w : nat) (acc : Z) (s : text) : option (Z * text) :=
  match w with
  | O => Some (acc, s)
  | S w' =>
    match s with
    | c :: r =>
      if ((48 <=? c) && (c <=? 57))%N
      then parse_dec w' (acc * 10 + (Z.of_N c - 48)) r
      else None
    | [] => None
    end
  end.

Definition expect (c : char) (s : text) : option text :=
  match s with
  | x :: r => if N.eqb x c then Some r else None
  | [] => None
  end.

Definition obind {A B} (o : option A) (f : A -> option B) : option B :=
  match o with Some a => f a | None => None end.

Local Notation "' p <- e ;; k" := (obind e (fun p => k))
  (at level 61, p pattern, e at next level, right associativity).
Local Notation "x <- e ;; k" := (obind e (fun x => k))
  (at level 61, e at next level, right associativity).

(** [datetime.fromisoformat] on the two layouts [isoformat] writes in the
    zone TZ; [None] is ValueError.  (Python accepts further ISO layouts,
    which the program never writes.) *)
Definition fromisoformat (s : text) : option datetime :=
  '(y, s) <- parse_dec 4 0 s ;; s <- expect 45%N s ;;
  '(m, s) <- parse_dec 2 0 s ;; s <- expect 45%N s ;;
  '(d, s) <- parse_dec 2 0 s ;; s <- expect 84%N s ;;
  '(hh, s) <- parse_dec 2 0 s ;; s <- expect 58%N s ;;
  '(mi, s) <- parse_dec 2 0 s ;; s <- expect 58%N s ;;
  '(ss, s) <- parse_dec 2 0 s ;;
  '(us, s) <- match s with
              | 46%N :: r => parse_dec 6 0 r
              | _ => Some (0, s)
              end ;;
  if text_eqb s TZ_SUFFIX
  then let r := mkdt y m d hh mi ss us in
       if valid_datetime r then Some r else None
  else None.

End DatetimeOps.

(* ================================================================== *)
(** ** Configuration *)

Definition BULL_KEYS_STRONG : list text := Eval vm_compute in map lit
  ["무상증자"; "자사주 매입"; "배당 확대"; "고배당"; "특허 취득";
   "신제품"; "지수 편입"; "정부 정책"; "경영권 분쟁 승소"; "액면분할";
   "목표가 상향"; "매수 의견"; "어닝 서프라이즈"; "실적 개선"]%string.

Definition BEAR_KEYS_STRONG : list text := Eval vm_compute in map lit
  ["유상증자"; "무상감자"; "전환사채"; "주식관련사채"; "불성실공시";
   "관리종목 지정"; "감사의견"; "의견거절"; "부적정"; "한정";
   "실적 악화"; "가이던스 하향"; "규제 강화"; "환율 부담";
   "원자재 가격 상승"; "소송"; "횡령"; "배임"; "거래정지";
   "상장적격성"; "대량 매도"; "임원 매도"; "최대주주 매도"]%string.

(** [set(...)] in the source: only membership of some key matters, so the
    keys are kept as a list. *)
Definition BULL_KEYS : list text := Eval vm_compute in
  BULL_KEYS_STRONG
    ++ map lit ["수주"; "공급 계약"; "사업 제휴"; "인증 획득"; "수혜"; "테마"]%string.

Definition BEAR_KEYS : list text := Eval vm_compute in
  BEAR_KEYS_STRONG
    ++ map lit ["리콜"; "계약 해지"; "손상차손"; "파기"; "벌금"; "제재"; "압수수색"]%string.

Definition DIGEST_INTERVAL_MIN : Z := 60.
Definition MAX_ARTICLE_AGE_MIN : Z := 90.
Definition SEEN_CAP : nat := N.to_nat 8000.

(* ================================================================== *)
(** ** Sentiment classifier *)

Inductive Category := StrongBear | StrongBull | WeakBear | WeakBull | Neutral.

(** The strings [classify_sentiment] returns. *)
Definition label (c : Category) : text :=
  match c with
  | StrongBear => lit "악재(강)"
  | StrongBull => lit "호재(강)"
  | WeakBear => lit "악재(보통)"
  | WeakBull => lit "호재(보통)"
  | Neutral => lit "중립"
  end.

Definition contains_any (t : text) (keys : list text) : bool :=
  existsb (contains t) keys.

Definition classify_sentiment (title : text) : Category :=
  let t := title in
  if contains_any t BEAR_KEYS_STRONG then StrongBear
  else if contains_any t BULL_KEYS_STRONG then StrongBull
  else if contains_any t BEAR_KEYS then WeakBear
  else if contains_any t BULL_KEYS then WeakBull
  else Neutral.

(** [cat in ("악재(강)", "호재(강)")] *)
Definition is_strong (c : Category) : bool :=
  match c with StrongBear | StrongBull => true | _ => false end.

(* ================================================================== *)
(** ** Event identity: [normalize_title] and [make_hash] *)

(** [str.isspace], which is also [\s] of the [re] module on [str]. *)
Definition isspace (c : char) : bool :=
  ((9 <=? c) && (c <=? 13) || (28 <=? c) && (c <=? 32)
   || (c =? 0x85) || (c =? 0xA0) || (c =? 0x1680)
   || (0x2000 <=? c) && (c <=? 0x200A)
   || (c =? 0x2028) || (c =? 0x2029) || (c =? 0x202F) || (c =? 0x205F)
   || (c =? 0x3000))%N.

(** The two tables of the Unicode database the code reads through
    [str.lower] and [\w]. *)
Class UnicodeDB := {
  str_lower : text -> text;
  isalnum : char -> bool
}.

(** The tables restricted to ASCII letters and digits and the Hangul
    syllables: exact on text over these, whitespace and punctuation. *)
Definition basic_lower (s : text) : text :=
  map (fun c => if ((65 <=? c) && (c <=? 90))%N then (c + 32)%N else c) s.

Definition basic_isalnum (c : char) : bool :=
  ((48 <=? c) && (c <=? 57) || (65 <=? c) && (c <=? 90) || (97 <=? c) && (c <=? 122)
   || (0xAC00 <=? c) && (c <=? 0xD7A3))%N.

#[export] Instance basic_db : UnicodeDB :=
  {| str_lower := basic_lower; isalnum := basic_isalnum |}.

Section Identity.
Context {U : UnicodeDB}.

(** [re.sub(r"\s+", " ", s)]: every maximal run of whitespace becomes one
    space; [in_run] says the previous character was whitespace. *)
Fixpoint collapse_ws (in_run : bool) (s : text) : text :=
  match s with
  | [] => []
  | c :: r =>
    if isspace c
    then (if in_run then collapse_ws true r else 32%N :: collapse_ws true r)
    else c :: collapse_ws false r
  end.

(** The class [[\w가-힣%+–—\-·\s]]. *)
Definition allowed (c : char) : bool :=
  (isalnum c || (c =? 95) || (0xAC00 <=? c) && (c <=? 0xD7A3)
   || (c =? 37) || (c =? 43) || (c =? 0x2013) || (c =? 0x2014) || (c =? 45)
   || (c =? 0xB7) || isspace c)%N.

Fixpoint lstrip (s : text) : text :=
  match s with
  | c :: r => if isspace c then lstrip r else s
  | [] => []
  end.

Definition strip (s : text) : text := rev (lstrip (rev (lstrip s))).

Definition normalize_title (s : text) : text :=
  let s := str_lower s in
  let s := collapse_ws false s in
  let s := filter allowed s in
  strip s.

(** [url or ""] *)
Definition or_empty (url : option text) : text :=
  match url with Some u => u | None => [] end.

Definition hash_base (title : text) (url : option text) : text :=
  normalize_title title ++ [124%N] ++ or_empty url.

(** [None] is the UnicodeEncodeError of [base.encode("utf-8")]. *)
Definition make_hash (title : text) (url : option text) : option text :=
  match utf8_encode (hash_base title url) with
  | Some bs => Some (firstn 24 (SHA256.hexdigest bs))
  | None => None
  end.

End Identity.

(* ================================================================== *)
(** ** Items, persisted state and one cycle of [main] *)

(** The dataclass [Item] without [raw], which the loop never reads. *)
Record Item := mkItem
  { ts : datetime; source : text; stock : text; title : text; url : text }.

(** A digest-buffer entry: the dict with keys ts, src, stock, title, url. *)
Record Entry := mkEntry
  { e_ts : text; e_src : text; e_stock : text; e_title : text; e_url : text }.

Record State := mkState
  { seen_hashes : list text;
    digest_buffer : list Entry;
    last_digest_unix : Z }.

(** [minutes_ago] reads the clock on every call, so each fetched item
    comes with the reading [now()] returns at its age check. *)
Record Arrival := mkArrival { arr_item : Item; arr_now : datetime }.

(** What a fetch adapter hands to the loop: its items, or an exception. *)
Inductive Fetch := Fetched (l : list Arrival) | FetchError.

Definition total_seconds (td : timedelta) : Q := (inject_Z td / inject_Z 1000000)%Q.

(** [minutes_ago(ts)] at the clock reading [now].  The source computes in
    binary floating point; the division of an integer number of
    microseconds is monotone and exact at 90.0, so the comparison with
    [MAX_ARTICLE_AGE_MIN] is the one of the exact quotient. *)
Definition minutes_ago (now t : datetime) : Q :=
  (total_seconds (dt_sub now t) / inject_Z 60)%Q.

(** [minutes_ago(it.ts) > MAX_ARTICLE_AGE_MIN] *)
Definition too_old (now : datetime) (it : Item) : bool :=
  negb (Qle_bool (minutes_ago now (ts it)) (inject_Z MAX_ARTICLE_AGE_MIN)).

(** [l[-n:]] for [n > 0]. *)
Definition last_n {A} (n : nat) (l : list A) : list A :=
  skipn (List.length l - n) l.

(** Lines 257-258: append, then keep the last 8000. *)
Definition record_hash (h : text) (seen : list text) : list text :=
  last_n SEEN_CAP (seen ++ [h]).

Section Engine.
Context {U : UnicodeDB}.

(** The fingerprint the loop computes for an item (lines 254 and 269). *)
Definition fp (it : Item) : option text := make_hash (title it) (Some (url it)).

(** The body of one [for it in fetch_...(stock)] loop (lines 251-259 and
    266-274), on the dedup store and the list [newly].  An exception of
    [make_hash] leaves the loop: the [except] clause of the stock swallows
    it, and what was recorded so far stays. *)
Fixpoint ingest (arrs : list Arrival) (acc : list text * list Item)
  : list text * list Item :=
  match arrs with
  | [] => acc
  | a :: rest =>
    let it := arr_item a in
    if too_old (arr_now a) it then ingest rest acc
    else match fp it with
         | None => acc
         | Some h =>
           if mem h (fst acc) then ingest rest acc
           else ingest rest (record_hash h (fst acc), snd acc ++ [it])
         end
  end.

(** One [for stock in WATCH_LIST] loop: a failed fetch contributes nothing. *)
Definition poll (fetches : list Fetch) (acc : list text * list Item)
  : list text * list Item :=
  fold_left (fun acc f => match f with
                          | Fetched l => ingest l acc
                          | FetchError => acc
                          end) fetches acc.

(** Step 3: one [send_telegram] per strong item of [newly]; [send_ok] is
    whether the call returns (true) or raises (false), which the loop
    prints and forgets. *)
Definition immediate_alerts (send_ok : Item -> bool) (newly : list Item)
  : list (Item * bool) :=
  map (fun it => (it, send_ok it))
      (filter (fun it => is_strong (classify_sentiment (title it))) newly).

Definition truthy (s : text) : bool :=
  match s with [] => false | _ => true end.

(** Line 290: the comparison is between strings. *)
Definition prune_buffer (cutoff : datetime) (buf : list Entry) : list Entry :=
  filter (fun d => truthy (e_ts d) && text_geb (e_ts d) (isoformat cutoff)) buf.

Definition snapshot (it : Item) : Entry :=
  {| e_ts := isoformat (ts it); e_src := source it; e_stock := stock it;
     e_title := title it; e_url := url it |}.

(** Lines 291-293: the entries appended for [newly]. *)
Definition buffer_additions (cutoff : datetime) (newly : list Item) : list Entry :=
  map snapshot (filter (fun it => dt_geb (ts it) cutoff) newly).

(** Step 4 at the clock reading [now]. *)
Definition update_buffer (now : datetime) (buf : list Entry) (newly : list Item)
  : list Entry :=
  let cutoff := dt_minus now (minutes DIGEST_INTERVAL_MIN) in
  prune_buffer cutoff buf ++ buffer_additions cutoff newly.

Definition need_digest (now_unix last : Z) (buf : list Entry) : bool :=
  (DIGEST_INTERVAL_MIN * 60 <=? now_unix - last)%Z && (0 <? List.length buf)%nat.

(** Line 299 for one entry; [None] is the ValueError of [fromisoformat]. *)
Definition entry_item (d : Entry) : option Item :=
  match fromisoformat (e_ts d) with
  | Some t => Some (mkItem t (e_src d) (e_stock d) (e_title d) (e_url d))
  | None => None
  end.

Fixpoint entry_items (buf : list Entry) : option (list Item) :=
  match buf with
  | [] => Some []
  | d :: r =>
    match entry_item d, entry_items r with
    | Some it, Some its => Some (it :: its)
    | _, _ => None
    end
  end.

(** The key order of [items.sort(key=lambda x: (x.stock, x.ts))]. *)
Definition key_le (a b : Item) : bool :=
  match text_cmp (stock a) (stock b) with
  | Lt => true
  | Gt => false
  | Eq => match dt_cmp (ts a) (ts b) with Gt => false | _ => true end
  end.

Fixpoint insert_sorted (x : Item) (l : list Item) : list Item :=
  match l with
  | [] => [x]
  | y :: r => if key_le x y then x :: l else y :: insert_sorted x r
  end.

(** A stable sort by the key. *)
Definition sort_items (l : list Item) : list Item :=
  fold_right insert_sorted [] l.

(** What one cycle reads from outside the loop. *)
Record CycleInput := mkInput
  { news : list Fetch;              (* fetch_google_news, per stock *)
    dart : list Fetch;              (* fetch_dart_list_by_name, per stock *)
    send_ok : Item -> bool;         (* outcome of each immediate send *)
    now_buffer : datetime;          (* now() of line 289 *)
    now_unix : Z;                   (* int(time.time()) of line 296 *)
    now_digest : datetime;          (* now() of line 301 *)
    digest_ok : list Item -> bool } (* summarize and send return *).

(** What one cycle does to the outside, in order. *)
Record Output := mkOutput
  { out_newly : list Item;
    out_alerts : list (Item * bool);
    out_added : list Entry;
    out_fired : bool;
    out_digest : option (list Item * bool) }.

(** Step 5 (lines 296-312) on the state after step 4.  [None] is the
    unhandled ValueError of line 299, which ends the process.  The result
    is the new state, whether the digest branch was taken, and the call of
    the summarizer with its outcome, when there was one. *)
Definition digest_step (inp : CycleInput) (st : State)
  : option (State * bool * option (list Item * bool)) :=
  if need_digest (now_unix inp) (last_digest_unix st) (digest_buffer st) then
    match entry_items (digest_buffer st) with
    | None => None
    | Some items =>
      let cutoff2 := dt_minus (now_digest inp) (minutes DIGEST_INTERVAL_MIN) in
      let items := filter (fun x => dt_geb (ts x) cutoff2) items in
      let call :=
        match items with
        | [] => None
        | _ :: _ => let sorted := sort_items items in
                    Some (sorted, digest_ok inp sorted)
        end in
      Some (mkState (seen_hashes st) [] (now_unix inp), true, call)
    end
  else Some (st, false, None).

(** One iteration of [while True] up to [save_state]. *)
Definition cycle (st : State) (inp : CycleInput) : option (State * Output) :=
  let '(seen, newly) := poll (dart inp) (poll (news inp) (seen_hashes st, [])) in
  let alerts := immediate_alerts (send_ok inp) newly in
  let cutoff := dt_minus (now_buffer inp) (minutes DIGEST_INTERVAL_MIN) in
  let buf := update_buffer (now_buffer inp) (digest_buffer st) newly in
  match digest_step inp (mkState seen buf (last_digest_unix st)) with
  | None => None
  | Some (st', fired, call) =>
    Some (st', mkOutput newly alerts (buffer_additions cutoff newly) fired call)
  end.

(** Consecutive cycles of one process. *)
Fixpoint run (st : State) (inps : list CycleInput) : option (State * list Output) :=
  match inps with
  | [] => Some (st, [])
  | inp :: rest =>
    match cycle st inp with
    | None => None
    | Some (st', out) =>
      match run st' rest with
      | None => None
      | Some (st'', outs) => Some (st'', out :: outs)
      end
    end
  end.

End Engine.

(* ================================================================== *)
(** * Properties *)

(** ** Substring search *)

Definition occurs_in (k s : text) : Prop := exists pre post, s = pre ++ k ++ post.

Definition hit (t : text) (keys : list text) : Prop :=
  exists k, In k keys /\ occurs_in k t.

Lemma starts_with_spec (k s : text) :
  starts_with k s = true <-> exists post, s = k ++ post.
Proof.
  revert s; induction k as [|x k IH]; intros s; simpl.
  - split; [intros _; now exists s | reflexivity].
  - destruct s as [|y s].
    + split; [discriminate | intros [post H]; discriminate].
    + rewrite andb_true_iff, N.eqb_eq, IH. split.
      * intros [-> [post ->]]. now exists post.
      * intros [post [= -> ->]]. split; [reflexivity | now exists post].
Qed.

Lemma contains_spec (s k : text) : contains s k = true <-> occurs_in k s.
Proof.
  unfold occurs_in. induction s as [|c s IH].
  - simpl. rewrite orb_false_r, starts_with_spec. split.
    + intros [post H]. now exists [], post.
    + intros [pre [post H]]. destruct pre; simpl in H.
      * now exists post.
      * discriminate.
  - cbn [contains]. rewrite orb_true_iff, starts_with_spec, IH. split.
    + intros [[post H] | [pre [post H]]].
      * now exists [], post.
      * exists (c :: pre), post. simpl. now f_equal.
    + intros [[|d pre] [post H]].
      * left. now exists post.
      * right. injection H as _ H. now exists pre, post.
Qed.

Lemma contains_any_spec (t : text) (keys : list text) :
  contains_any t keys = true <-> hit t keys.
Proof.
  unfold contains_any, hit. rewrite existsb_exists.
  split; intros [k [Hin Hk]]; exists k; split; trivial; now apply contains_spec.
Qed.

Lemma contains_any_false (t : text) (keys : list text) :
  contains_any t keys = false <-> ~ hit t keys.
Proof.
  rewrite <- contains_any_spec. destruct (contains_any t keys); split; congruence.
Qed.

(** ** C5: the classifier's priority order *)

(** C5.  [classify_sentiment] tries strong-bear, strong-bull, weak-bear and
    weak-bull in this order on the title as given, a key counting when it
    occurs as a substring; the first set with a hit decides, no hit at all
    gives Neutral.  A title with a strong-bear and a strong-bull key is
    StrongBear, and the empty title is Neutral. *)
Theorem classify_priority_order : forall t : text,
  (classify_sentiment t = StrongBear <-> hit t BEAR_KEYS_STRONG)
  /\ (classify_sentiment t = StrongBull <->
        ~ hit t BEAR_KEYS_STRONG /\ hit t BULL_KEYS_STRONG)
  /\ (classify_sentiment t = WeakBear <->
        ~ hit t BEAR_KEYS_STRONG /\ ~ hit t BULL_KEYS_STRONG /\ hit t BEAR_KEYS)
  /\ (classify_sentiment t = WeakBull <->
        ~ hit t BEAR_KEYS_STRONG /\ ~ hit t BULL_KEYS_STRONG
        /\ ~ hit t BEAR_KEYS /\ hit t BULL_KEYS)
  /\ (classify_sentiment t = Neutral <->
        ~ hit t BEAR_KEYS_STRONG /\ ~ hit t BULL_KEYS_STRONG
        /\ ~ hit t BEAR_KEYS /\ ~ hit t BULL_KEYS)
  /\ (hit t BEAR_KEYS_STRONG -> hit t BULL_KEYS_STRONG ->
        classify_sentiment t = StrongBear)
  /\ classify_sentiment [] = Neutral.
Proof.
  intros t. unfold classify_sentiment.
  destruct (contains_any t BEAR_KEYS_STRONG) eqn:E1;
    [apply contains_any_spec in E1 | apply contains_any_false in E1].
  { repeat split; try discriminate; try tauto; try (intros; tauto).
    all: try (intros H; exfalso; tauto). }
  destruct (contains_any t BULL_KEYS_STRONG) eqn:E2;
    [apply contains_any_spec in E2 | apply contains_any_false in E2].
  { repeat split; try discriminate; try tauto; try (intros; tauto).
    all: try (intros H; exfalso; tauto). }
  destruct (contains_any t BEAR_KEYS) eqn:E3;
    [apply contains_any_spec in E3 | apply contains_any_false in E3].
  { repeat split; try discriminate; try tauto; try (intros; tauto).
    all: try (intros H; exfalso; tauto). }
  destruct (contains_any t BULL_KEYS) eqn:E4;
    [apply contains_any_spec in E4 | apply contains_any_false in E4].
  { repeat split; try discriminate; try tauto; try (intros; tauto).
    all: try (intros H; exfalso; tauto). }
  repeat split; try discriminate; try tauto; try (intros; tauto).
  all: try (intros H; exfalso; tauto).
Qed.

Example classify_both_strong :
  classify_sentiment (lit "삼성전자 무상증자 발표 후 유상증자 검토") = StrongBear.
Proof. vm_compute. reflexivity. Qed.

Example classify_case_and_spacing_matter :
  classify_sentiment (lit "자사주 매입") = StrongBull
  /\ classify_sentiment (lit "자사주  매입") = Neutral.
Proof. split; vm_compute; reflexivity. Qed.

(** ** C4: the bounded deduplication store *)

Section LastN.
Variable A : Type.
Implicit Types l r : list A.

Lemma last_n_length n l : List.length (last_n n l) = Nat.min n (List.length l).
Proof. unfold last_n. rewrite length_skipn. lia. Qed.

Lemma last_n_all n l : List.length l <= n -> last_n n l = l.
Proof.
  intros H. unfold last_n. replace (List.length l - n) with 0 by lia. reflexivity.
Qed.

Lemma last_n_app_long n l r : n <= List.length r -> last_n n (l ++ r) = last_n n r.
Proof.
  intros H. unfold last_n. rewrite length_app, skipn_app.
  rewrite skipn_all2 by lia. simpl. f_equal. lia.
Qed.

(** Truncating before an append changes nothing once truncated again. *)
Lemma last_n_app_trunc n l r : last_n n (last_n n l ++ r) = last_n n (l ++ r).
Proof.
  destruct (Nat.le_gt_cases (List.length l) n) as [Hle | Hgt].
  - now rewrite (last_n_all l Hle).
  - unfold last_n at 1 3. rewrite !length_app, last_n_length.
    replace (Nat.min n (List.length l) + List.length r - n) with (List.length r) by lia.
    rewrite !skipn_app, last_n_length. unfold last_n. rewrite skipn_skipn.
    f_equal; f_equal; lia.
Qed.

Lemma firstn_last_n n l : firstn (List.length l - n) l ++ last_n n l = l.
Proof. apply firstn_skipn. Qed.

End LastN.

Lemma SEEN_CAP_pos : 0 < SEEN_CAP.
Proof. unfold SEEN_CAP. lia. Qed.

(** Recording a sequence of fingerprints one by one keeps the last 8000 of
    everything the store held and was given. *)
Lemma record_all (fps seen : list text) :
  fps <> [] ->
  fold_left (fun s h => record_hash h s) fps seen = last_n SEEN_CAP (seen ++ fps).
Proof.
  revert seen. induction fps as [|h fps IH]; intros seen Hne; [congruence|].
  simpl. destruct fps as [|h' fps].
  - reflexivity.
  - rewrite IH by discriminate. unfold record_hash.
    rewrite last_n_app_trunc, <- app_assoc. reflexivity.
Qed.

Lemma mem_In (h : text) (l : list text) : mem h l = true <-> In h l.
Proof.
  unfold mem. rewrite existsb_exists. split.
  - intros [x [Hin Hx]]. apply text_eqb_eq in Hx. now subst.
  - intros Hin. exists h. split; [assumption | apply text_eqb_refl].
Qed.

Lemma mem_false (h : text) (l : list text) : mem h l = false <-> ~ In h l.
Proof. rewrite <- mem_In. destruct (mem h l); split; congruence. Qed.

Lemma NoDup_app_disjoint (A : Type) (a b : list A) (x : A) :
  NoDup (a ++ b) -> In x a -> In x b -> False.
Proof.
  induction a as [|y a IH]; simpl; intros Hnd Ha Hb; [contradiction|].
  inversion Hnd as [|? ? Hy Hnd']; subst. destruct Ha as [-> | Ha].
  - apply Hy. apply in_or_app. now right.
  - now apply IH.
Qed.

(** C4.  After more than 8000 distinct fingerprints have been recorded, the
    store holds exactly 8000 of them: the 8000 recorded last are all there
    and everything recorded before them is gone, whatever the store held
    at the start. *)
Theorem eviction_is_fifo (seen fps : list text) :
  NoDup fps -> SEEN_CAP < List.length fps ->
  let store := fold_left (fun s h => record_hash h s) fps seen in
  List.length store = SEEN_CAP
  /\ store = last_n SEEN_CAP fps
  /\ (forall h, In h (last_n SEEN_CAP fps) -> mem h store = true)
  /\ (forall h, In h (firstn (List.length fps - SEEN_CAP) fps) -> mem h store = false).
Proof.
  intros Hnd Hlen store.
  assert (E : store = last_n SEEN_CAP fps).
  { unfold store. rewrite record_all.
    - apply last_n_app_long. lia.
    - intros ->. simpl in Hlen. lia. }
  rewrite E. repeat split.
  - rewrite last_n_length. lia.
  - intros h Hin. now apply mem_In.
  - intros h Hin. apply mem_false. intros Hin'.
    rewrite <- (firstn_last_n SEEN_CAP fps) in Hnd.
    eapply NoDup_app_disjoint; eassumption.
Qed.

(** ** Decimal rendering, [isoformat] and [fromisoformat] *)

Section Decimal.
Local Open Scope Z_scope.

Lemma pow10_pos (w : nat) : 0 < 10 ^ Z.of_nat w.
Proof. apply Z.pow_pos_nonneg; lia. Qed.

Lemma pow10_succ (w : nat) : 10 ^ Z.of_nat (S w) = 10 * 10 ^ Z.of_nat w.
Proof. rewrite Nat2Z.inj_succ, Z.pow_succ_r by lia. reflexivity. Qed.

Lemma lead_digit_range (w : nat) (n : Z) :
  0 <= n < 10 ^ Z.of_nat (S w) -> 0 <= n / 10 ^ Z.of_nat w <= 9.
Proof.
  intros H. rewrite pow10_succ in H. pose proof (pow10_pos w) as P. split.
  - apply Z.div_pos; lia.
  - assert (n / 10 ^ Z.of_nat w < 10); [|lia].
    apply Z.div_lt_upper_bound; lia.
Qed.

Lemma pad_dec_length (w : nat) (n : Z) : List.length (pad_dec w n) = w.
Proof. revert n; induction w; intros n; simpl; [reflexivity | now rewrite IHw]. Qed.

Lemma parse_pad_dec (w : nat) (n acc : Z) (rest : text) :
  0 <= n < 10 ^ Z.of_nat w ->
  parse_dec w acc (pad_dec w n ++ rest) = Some (acc * 10 ^ Z.of_nat w + n, rest).
Proof.
  revert n acc. induction w as [|w IH]; intros n acc H.
  - simpl in *. do 2 f_equal. lia.
  - pose proof (lead_digit_range w H) as Hq. pose proof (pow10_pos w) as P.
    cbn [pad_dec parse_dec app].
    set (q := n / 10 ^ Z.of_nat w) in *.
    replace ((48 <=? Z.to_N (48 + q))%N && (Z.to_N (48 + q) <=? 57)%N) with true
      by (symmetry; apply andb_true_iff; split; apply N.leb_le; lia).
    rewrite IH by (apply Z.mod_pos_bound; lia).
    do 2 f_equal. rewrite pow10_succ.
    replace (Z.of_N (Z.to_N (48 + q)) - 48) with q by lia.
    pose proof (Z.div_mod n (10 ^ Z.of_nat w)). unfold q. lia.
Qed.

(** Fixed-width decimal numerals compare as the numbers they denote. *)
Lemma pad_dec_cmp (w : nat) (a b : Z) (ra rb : text) :
  0 <= a < 10 ^ Z.of_nat w -> 0 <= b < 10 ^ Z.of_nat w ->
  text_cmp (pad_dec w a ++ ra) (pad_dec w b ++ rb)
  = match a ?= b with Eq => text_cmp ra rb | c => c end.
Proof.
  revert a b. induction w as [|w IH]; intros a b Ha Hb.
  - simpl in *. replace a with 0 by lia. replace b with 0 by lia. reflexivity.
  - pose proof (lead_digit_range w Ha) as Hqa. pose proof (lead_digit_range w Hb) as Hqb.
    pose proof (pow10_pos w) as P.
    pose proof (Z.div_mod a (10 ^ Z.of_nat w) ltac:(lia)) as Da.
    pose proof (Z.div_mod b (10 ^ Z.of_nat w) ltac:(lia)) as Db.
    pose proof (Z.mod_pos_bound a (10 ^ Z.of_nat w) P) as Ma.
    pose proof (Z.mod_pos_bound b (10 ^ Z.of_nat w) P) as Mb.
    cbn [pad_dec app text_cmp].
    set (qa := a / 10 ^ Z.of_nat w) in *. set (qb := b / 10 ^ Z.of_nat w) in *.
    set (p := 10 ^ Z.of_nat w) in *. rewrite pow10_succ in Ha, Hb. fold p in Ha, Hb.
    clearbody qa qb p.
    rewrite Z2N.inj_compare by lia.
    rewrite Z.add_compare_mono_l. (* 48 + qa ?= 48 + qb *)
    destruct (qa ?= qb) eqn:E.
    + apply Z.compare_eq in E. rewrite IH by lia.
      assert (Hc : (a ?= b) = (a mod p ?= b mod p)).
      { rewrite Da at 1. rewrite Db at 1. rewrite E.
        apply Z.add_compare_mono_l. }
      now rewrite Hc.
    + change (qa < qb) in E.
      assert (p * (qa + 1) <= p * qb) by (apply Z.mul_le_mono_nonneg_l; lia).
      assert (a < b) by lia. now rewrite (proj2 (Z.compare_lt_iff a b)).
    + apply Z.compare_gt_iff in E.
      assert (p * (qb + 1) <= p * qa) by (apply Z.mul_le_mono_nonneg_l; lia).
      assert (b < a) by lia. now rewrite (proj2 (Z.compare_gt_iff a b)).
Qed.

End Decimal.

Section IsoFormat.
Local Open Scope Z_scope.

Lemma days_in_month_le (y m : Z) : 1 <= m <= 12 -> Calendar.days_in_month y m <= 31.
Proof.
  intros H. unfold Calendar.days_in_month.
  destruct ((m =? 2) && Calendar.is_leap y); [lia|].
  assert (C : m = 1 \/ m = 2 \/ m = 3 \/ m = 4 \/ m = 5 \/ m = 6 \/ m = 7
              \/ m = 8 \/ m = 9 \/ m = 10 \/ m = 11 \/ m = 12) by lia.
  repeat (destruct C as [-> | C]; [simpl; lia|]). subst. simpl. lia.
Qed.

Record in_range (d : datetime) : Prop := mk_in_range
  { r_year : 0 <= year d < 10 ^ Z.of_nat 4;
    r_month : 0 <= month d < 10 ^ Z.of_nat 2;
    r_day : 0 <= day d < 10 ^ Z.of_nat 2;
    r_hour : 0 <= hour d < 10 ^ Z.of_nat 2;
    r_minute : 0 <= minute d < 10 ^ Z.of_nat 2;
    r_second : 0 <= second d < 10 ^ Z.of_nat 2;
    r_micro : 0 <= microsecond d < 10 ^ Z.of_nat 6 }.

Lemma valid_in_range (d : datetime) : valid_datetime d = true -> in_range d.
Proof.
  unfold valid_datetime. rewrite !andb_true_iff, !Z.leb_le.
  intros [[[[[[[[[[[[[? ?] ?] ?] ?] Hd] ?] ?] ?] ?] ?] ?] ?] ?].
  assert (day d <= 31) by (pose proof (@days_in_month_le (year d) (month d)); lia).
  constructor; simpl; lia.
Qed.

Lemma text_cmp_refl (s : text) : text_cmp s s = Eq.
Proof. induction s as [|c s IH]; simpl; [reflexivity | now rewrite N.compare_refl]. Qed.

Lemma text_cmp_sep (c : char) (ra rb : text) :
  text_cmp ([c] ++ ra) ([c] ++ rb) = text_cmp ra rb.
Proof. simpl. now rewrite N.compare_refl. Qed.

Definition iso_tail (d : datetime) : text :=
  (if microsecond d =? 0 then [] else 46%N :: pad_dec 6 (microsecond d)) ++ TZ_SUFFIX.

Lemma TZ_SUFFIX_eq : TZ_SUFFIX = [43; 48; 57; 58; 48; 48]%N.
Proof. reflexivity. Qed.

Lemma iso_tail_cmp (a b : datetime) :
  0 <= microsecond a < 10 ^ Z.of_nat 6 -> 0 <= microsecond b < 10 ^ Z.of_nat 6 ->
  text_cmp (iso_tail a) (iso_tail b) = (microsecond a ?= microsecond b).
Proof.
  intros Ha Hb. unfold iso_tail.
  destruct (Z.eqb_spec (microsecond a) 0) as [Ea | Ea];
    destruct (Z.eqb_spec (microsecond b) 0) as [Eb | Eb].
  - rewrite Ea, Eb. apply text_cmp_refl.
  - rewrite Ea, TZ_SUFFIX_eq.
    transitivity Lt; [reflexivity | symmetry; apply Z.compare_lt_iff; lia].
  - rewrite Eb, TZ_SUFFIX_eq.
    transitivity Gt; [reflexivity | symmetry; apply Z.compare_gt_iff; lia].
  - change (text_cmp ([46%N] ++ pad_dec 6 (microsecond a) ++ TZ_SUFFIX)
                     ([46%N] ++ pad_dec 6 (microsecond b) ++ TZ_SUFFIX)
            = (microsecond a ?= microsecond b)).
    rewrite text_cmp_sep, pad_dec_cmp, text_cmp_refl by assumption.
    now destruct (microsecond a ?= microsecond b).
Qed.

Lemma isoformat_tail (d : datetime) :
  isoformat d =
  pad_dec 4 (year d) ++ [45%N] ++ pad_dec 2 (month d) ++ [45%N] ++ pad_dec 2 (day d)
    ++ [84%N] ++ pad_dec 2 (hour d) ++ [58%N] ++ pad_dec 2 (minute d)
    ++ [58%N] ++ pad_dec 2 (second d) ++ iso_tail d.
Proof. reflexivity. Qed.

(** The order of the rendered strings is the order of the field tuples. *)
Lemma isoformat_cmp (a b : datetime) :
  in_range a -> in_range b -> text_cmp (isoformat a) (isoformat b) = dt_cmp a b.
Proof.
  intros [] []. rewrite !isoformat_tail.
  repeat (rewrite pad_dec_cmp by assumption; rewrite ?text_cmp_sep).
  rewrite iso_tail_cmp by assumption.
  unfold dt_cmp, dt_fields. cbn [lex_cmp].
  repeat match goal with
         | |- context [?x ?= ?y] => destruct (x ?= y); try reflexivity
         end.
Qed.

Lemma isoformat_geb (a b : datetime) :
  valid_datetime a = true -> valid_datetime b = true ->
  text_geb (isoformat a) (isoformat b) = dt_geb a b.
Proof.
  intros Ha Hb. unfold text_geb, dt_geb.
  now rewrite isoformat_cmp by now apply valid_in_range.
Qed.

Lemma isoformat_truthy (d : datetime) : truthy (isoformat d) = true.
Proof. reflexivity. Qed.

Lemma fromisoformat_isoformat (d : datetime) :
  valid_datetime d = true -> fromisoformat (isoformat d) = Some d.
Proof.
  intros Hv. destruct (valid_in_range d Hv).
  rewrite isoformat_tail. unfold fromisoformat, obind.
  repeat (rewrite parse_pad_dec by assumption; cbn [expect app N.eqb Pos.eqb]).
  unfold iso_tail. destruct (Z.eqb_spec (microsecond d) 0) as [E | E].
  - cbn [app]. rewrite TZ_SUFFIX_eq. cbn [text_eqb N.eqb Pos.eqb andb].
    destruct d; simpl in *; subst. simpl Z.add. rewrite Hv. reflexivity.
  - cbn [app]. rewrite parse_pad_dec by assumption.
    rewrite text_eqb_refl. destruct d; simpl in *. rewrite Hv. reflexivity.
Qed.

End IsoFormat.

(** ** The age predicate *)

Lemma age_quotient (td : Z) :
  Qle_bool ((inject_Z td / inject_Z 1000000) / inject_Z 60)%Q (inject_Z MAX_ARTICLE_AGE_MIN)
  = (td <=? minutes MAX_ARTICLE_AGE_MIN)%Z.
Proof.
  apply eq_true_iff_eq. rewrite Qle_bool_iff, Z.leb_le.
  unfold Qle, Qdiv, Qmult, Qinv, inject_Z, minutes, MAX_ARTICLE_AGE_MIN. simpl. lia.
Qed.

Lemma too_old_spec (now : datetime) (it : Item) :
  too_old now it = true <-> (minutes MAX_ARTICLE_AGE_MIN < dt_sub now (ts it))%Z.
Proof.
  unfold too_old, minutes_ago, total_seconds. rewrite age_quotient.
  rewrite negb_true_iff, Z.leb_gt. reflexivity.
Qed.

(** ** C2: the age window *)

Definition sample_now : datetime := mkdt 2024 3 1 12 0 0 0.

(** A headline published exactly 90 minutes before [sample_now]. *)
Definition sample_boundary_item : Item := Eval vm_compute in
  mkItem (mkdt 2024 3 1 10 30 0 0) (lit "news") (lit "삼성전자")
         (lit "삼성전자 신제품 공개") (lit "https://news.example/a1").

(** C2, as stated, fails: an event exactly [MAX_ARTICLE_AGE_MIN] minutes old
    is not dropped; the loop hashes it, records it and lists it as new. *)
Lemma boundary_event_is_processed :
  ts sample_boundary_item = dt_minus sample_now (minutes MAX_ARTICLE_AGE_MIN)
  /\ too_old sample_now sample_boundary_item = false
  /\ snd (ingest [mkArrival sample_boundary_item sample_now] ([], []))
     = [sample_boundary_item].
Proof. repeat split; vm_compute; reflexivity. Qed.

(** C2, amended.  An event is dropped exactly when it is strictly older
    than 90 minutes at the clock reading of its check: at exactly 90
    minutes, and one second inside the window, it is processed; one
    microsecond beyond, it is skipped and the loop goes on. *)
Theorem age_window_is_inclusive :
  forall (U : UnicodeDB) (now : datetime) (it : Item)
         (rest : list Arrival) (acc : list text * list Item),
  (too_old now it = true <-> (minutes MAX_ARTICLE_AGE_MIN < dt_sub now (ts it))%Z)
  /\ (dt_sub now (ts it) = minutes MAX_ARTICLE_AGE_MIN -> too_old now it = false)
  /\ (dt_sub now (ts it) = (minutes MAX_ARTICLE_AGE_MIN - 1000000)%Z ->
      too_old now it = false)
  /\ (dt_sub now (ts it) = (minutes MAX_ARTICLE_AGE_MIN + 1)%Z -> too_old now it = true)
  /\ (too_old now it = true ->
      ingest (mkArrival it now :: rest) acc = ingest rest acc)
  /\ (too_old now it = false ->
      ingest (mkArrival it now :: rest) acc =
      match fp it with
      | None => acc
      | Some h =>
        if mem h (fst acc) then ingest rest acc
        else ingest rest (record_hash h (fst acc), snd acc ++ [it])
      end).
Proof.
  intros U now it rest acc.
  assert (F : forall d, (d <= minutes MAX_ARTICLE_AGE_MIN)%Z ->
                        dt_sub now (ts it) = d -> too_old now it = false).
  { intros d Hd E. destruct (too_old now it) eqn:T; [|reflexivity].
    apply too_old_spec in T. lia. }
  split; [apply too_old_spec|].
  split; [apply F; lia|].
  split; [apply F; lia|].
  split; [intros E; apply too_old_spec; lia|].
  split; intros T; cbn [ingest arr_item arr_now]; now rewrite T.
Qed.

(** ** Well-formed buffers: a cycle never dies on what it wrote itself *)

Definition entry_ok (d : Entry) : Prop := fromisoformat (e_ts d) <> None.

Definition item_ok (it : Item) : Prop := valid_datetime (ts it) = true.

Definition fetched (f : Fetch) : list Arrival :=
  match f with Fetched l => l | FetchError => [] end.

(** Every item the adapters hand over in one cycle, in the order the loop
    meets them. *)
Definition arrivals (inp : CycleInput) : list Arrival :=
  flat_map fetched (news inp ++ dart inp).

Definition with_send_ok (inp : CycleInput) (f : Item -> bool) : CycleInput :=
  mkInput (news inp) (dart inp) f (now_buffer inp) (now_unix inp)
          (now_digest inp) (digest_ok inp).


Lemma entry_items_total (buf : list Entry) :
  Forall entry_ok buf -> exists items, entry_items buf = Some items.
Proof.
  induction 1 as [|d buf Hd _ [items IH]]; simpl.
  - now exists [].
  - unfold entry_item. unfold entry_ok in Hd.
    destruct (fromisoformat (e_ts d)) as [t|]; [|congruence].
    rewrite IH. eauto.
Qed.

Lemma snapshot_ok (it : Item) : item_ok it -> entry_ok (snapshot it).
Proof.
  unfold item_ok, entry_ok, snapshot. simpl. intros H.
  now rewrite fromisoformat_isoformat.
Qed.

Lemma update_buffer_ok (now : datetime) (buf : list Entry) (newly : list Item) :
  Forall entry_ok buf -> Forall item_ok newly ->
  Forall entry_ok (update_buffer now buf newly).
Proof.
  intros Hb Hn. unfold update_buffer, prune_buffer, buffer_additions.
  apply Forall_app. split.
  - apply Forall_forall. intros d Hd. apply filter_In in Hd as [Hd _].
    revert d Hd. now apply Forall_forall.
  - apply Forall_forall. intros d Hd. apply in_map_iff in Hd as [it [<- Hit]].
    apply filter_In in Hit as [Hit _]. apply snapshot_ok.
    revert it Hit. now apply Forall_forall.
Qed.

Section EngineFacts.
Context {U : UnicodeDB}.

(** The loop body, one arrival at a time. *)
Lemma ingest_cons (a : Arrival) (rest : list Arrival) (acc : list text * list Item) :
  ingest (a :: rest) acc
  = if too_old (arr_now a) (arr_item a) then ingest rest acc
    else match fp (arr_item a) with
         | None => acc
         | Some h =>
           if mem h (fst acc) then ingest rest acc
           else ingest rest (record_hash h (fst acc), snd acc ++ [arr_item a])
         end.
Proof. reflexivity. Qed.




Lemma need_digest_spec (now_u last : Z) (buf : list Entry) :
  need_digest now_u last buf = true
  <-> (DIGEST_INTERVAL_MIN * 60 <= now_u - last)%Z /\ buf <> [].
Proof.
  unfold need_digest. rewrite andb_true_iff, Z.leb_le, Nat.ltb_lt.
  destruct buf; simpl; split; intros [H1 H2]; split; trivial; try lia; congruence.
Qed.

(** Step 5 in full: when it fires, what it leaves, and that it cannot die
    on a buffer whose timestamps parse. *)
Lemma digest_step_spec (inp : CycleInput) (st : State) :
  Forall entry_ok (digest_buffer st) ->
  exists st' fired call,
    digest_step inp st = Some (st', fired, call)
    /\ fired = need_digest (now_unix inp) (last_digest_unix st) (digest_buffer st)
    /\ seen_hashes st' = seen_hashes st
    /\ (fired = true -> digest_buffer st' = [] /\ last_digest_unix st' = now_unix inp)
    /\ (fired = false -> st' = st /\ call = None).
Proof.
  intros Hok. unfold digest_step.
  destruct (need_digest _ _ _) eqn:N.
  - destruct (entry_items_total Hok) as [items ->].
    eexists _, true, _. repeat split; try reflexivity; discriminate.
  - exists st, false, None. repeat split; try reflexivity; discriminate.
Qed.


End EngineFacts.

(** ** C3: the digest cadence *)


(** ** C3 on concrete cycles *)

Definition sample_old_entry : Entry := Eval vm_compute in
  mkEntry (lit "2024-03-01T11:50:00+09:00") (lit "news") (lit "삼성전자")
          (lit "삼성전자 수주 공시") (lit "https://news.example/b7").

(** A quiet cycle at [sample_now] in which the summarizer fails. *)
Definition quiet_cycle (unix : Z) : CycleInput :=
  mkInput [Fetched []] [FetchError] (fun _ => true)
          sample_now unix sample_now (fun _ => false).

Example digest_waits_59_minutes :
  option_map (fun r => (out_fired (snd r), digest_buffer (fst r)))
             (cycle (mkState [] [sample_old_entry] 1709260000)
                    (quiet_cycle (1709260000 + 59 * 60)))
  = Some (false, [sample_old_entry]).
Proof. vm_compute. reflexivity. Qed.

Example digest_fires_61_minutes :
  option_map (fun r => (out_fired (snd r), digest_buffer (fst r),
                        last_digest_unix (fst r),
                        option_map snd (out_digest (snd r))))
             (cycle (mkState [] [sample_old_entry] 1709260000)
                    (quiet_cycle (1709260000 + 61 * 60)))
  = Some (true, [], (1709260000 + 61 * 60)%Z, Some false).
Proof. vm_compute. reflexivity. Qed.


(** ** The dedup store along a run *)

Section LastNMore.
Variable A : Type.
Implicit Types l : list A.

Lemma last_n_In n l x : In x (last_n n l) -> In x l.
Proof.
  unfold last_n. intros H. rewrite <- (firstn_skipn (List.length l - n) l).
  apply in_or_app. now right.
Qed.

Lemma last_n_last_n m n l : m <= n -> last_n m (last_n n l) = last_n m l.
Proof.
  intros H. unfold last_n at 1. rewrite last_n_length. unfold last_n.
  rewrite skipn_skipn. f_equal. lia.
Qed.

Lemma last_n_S_snoc k l x : last_n (S k) (l ++ [x]) = last_n k l ++ [x].
Proof.
  unfold last_n. rewrite length_app, skipn_app. simpl.
  replace (List.length l + 1 - S k) with (List.length l - k) by lia.
  replace (List.length l - k - List.length l) with 0 by lia. reflexivity.
Qed.

End LastNMore.

Definition record_seq (hs seen : list text) : list text :=
  fold_left (fun s h => record_hash h s) hs seen.

(** Each fingerprint of [hs] is absent from the store when its turn comes. *)
Fixpoint novel_seq (seen hs : list text) : Prop :=
  match hs with
  | [] => True
  | h :: r => mem h seen = false /\ novel_seq (record_hash h seen) r
  end.

Lemma record_seq_app (a b seen : list text) :
  record_seq (a ++ b) seen = record_seq b (record_seq a seen).
Proof. apply fold_left_app. Qed.

Lemma novel_seq_app (a b seen : list text) :
  novel_seq seen (a ++ b) <-> novel_seq seen a /\ novel_seq (record_seq a seen) b.
Proof.
  revert seen. induction a as [|h a IH]; intros seen; simpl.
  - tauto.
  - rewrite IH. unfold record_seq. simpl. tauto.
Qed.


(** A fingerprint among the [k] newest stays in the store, and is met by
    no novel fingerprint, while [k] plus the number recorded since is at
    most the cap. *)
Lemma retained (hs : list text) :
  forall (seen : list text) (h : text) (k : nat),
  novel_seq seen hs -> In h (last_n k seen) -> k + List.length hs <= SEEN_CAP ->
  ~ In h hs /\ In h (last_n (k + List.length hs) (record_seq hs seen)).
Proof.
  induction hs as [|h1 hs IH]; intros seen h k Hn Hin Hk; simpl in *.
  - rewrite Nat.add_0_r. tauto.
  - destruct Hn as [Hm Hn]. apply mem_false in Hm.
    assert (Hin1 : In h (last_n (S k) (record_hash h1 seen))).
    { unfold record_hash. rewrite last_n_last_n by lia.
      rewrite last_n_S_snoc. apply in_or_app. now left. }
    destruct (IH _ h (S k) Hn Hin1 ltac:(lia)) as [H1 H2]. split.
    + intros [-> | H]; [|contradiction]. apply Hm. eapply last_n_In; eassumption.
    + replace (k + S (List.length hs)) with (S k + List.length hs) by lia. exact H2.
Qed.

Section Dedup.
Context {U : UnicodeDB}.

Definition fps_of (new : list Item) (hs : list text) : Prop :=
  Forall2 (fun it h => fp it = Some h) new hs.

Lemma fps_of_app (a b : list Item) (ha hb : list text) :
  fps_of a ha -> fps_of b hb -> fps_of (a ++ b) (ha ++ hb).
Proof. apply Forall2_app. Qed.

Lemma fps_of_length (a : list Item) (ha : list text) :
  fps_of a ha -> List.length ha = List.length a.
Proof. intros H. symmetry. eapply Forall2_length; eassumption. Qed.

Ltac shape_nil :=
  exists (@nil Item), (@nil text); simpl; rewrite ?app_nil_r;
  split; [reflexivity | split; [constructor | split; [exact I | apply incl_nil_l]]].

(** What one inner loop does: it appends some of the fetched items to
    [newly], and records their fingerprints, each novel at its turn. *)
Lemma ingest_shape (arrs : list Arrival) :
  forall (seen : list text) (newly : list Item),
  exists new hs,
    ingest arrs (seen, newly) = (record_seq hs seen, newly ++ new)
    /\ fps_of new hs /\ novel_seq seen hs /\ incl new (map arr_item arrs).
Proof.
  induction arrs as [|a arrs IH]; intros seen newly.
  - shape_nil.
  - rewrite ingest_cons. cbn [fst snd].
    assert (Skip : exists new hs,
               ingest arrs (seen, newly) = (record_seq hs seen, newly ++ new)
               /\ fps_of new hs /\ novel_seq seen hs
               /\ incl new (map arr_item (a :: arrs))).
    { destruct (IH seen newly) as (new & hs & E & F & N & I).
      exists new, hs. repeat split; trivial. now apply incl_tl. }
    destruct (too_old (arr_now a) (arr_item a)); [exact Skip|].
    destruct (fp (arr_item a)) as [h|] eqn:Eh.
    + destruct (mem h seen) eqn:Em; [exact Skip|].
      destruct (IH (record_hash h seen) (newly ++ [arr_item a]))
        as (new & hs & E & F & N & I).
      exists (arr_item a :: new), (h :: hs). rewrite E, <- app_assoc.
      repeat split; trivial.
      * now constructor.
      * simpl. intros x [<- | Hx]; [now left | right; now apply I].
    + shape_nil.
Qed.

Lemma poll_shape (fs : list Fetch) :
  forall (seen : list text) (newly : list Item),
  exists new hs,
    poll fs (seen, newly) = (record_seq hs seen, newly ++ new)
    /\ fps_of new hs /\ novel_seq seen hs
    /\ incl new (map arr_item (flat_map fetched fs)).
Proof.
  unfold poll. induction fs as [|f fs IH]; intros seen newly.
  - shape_nil.
  - cbn [fold_left flat_map].
    assert (S1 : exists new hs,
               match f with Fetched l => ingest l (seen, newly) | FetchError => (seen, newly) end
               = (record_seq hs seen, newly ++ new)
               /\ fps_of new hs /\ novel_seq seen hs /\ incl new (map arr_item (fetched f))).
    { destruct f as [l|]; [apply ingest_shape|].
      shape_nil. }
    destruct S1 as (n1 & h1 & E1 & F1 & N1 & I1). rewrite E1.
    destruct (IH (record_seq h1 seen) (newly ++ n1)) as (n2 & h2 & E2 & F2 & N2 & I2).
    exists (n1 ++ n2), (h1 ++ h2). rewrite E2, record_seq_app, <- app_assoc.
    repeat split; trivial.
    + now apply fps_of_app.
    + now apply novel_seq_app.
    + rewrite map_app. apply incl_app; [now apply incl_appl | now apply incl_appr].
Qed.

(** One cycle: its novel items, their fingerprints, and the store after. *)
Lemma cycle_shape (st st' : State) (inp : CycleInput) (out : Output) :
  cycle st inp = Some (st', out) ->
  out_alerts out = immediate_alerts (send_ok inp) (out_newly out)
  /\ out_added out
     = buffer_additions (dt_minus (now_buffer inp) (minutes DIGEST_INTERVAL_MIN))
                        (out_newly out)
  /\ incl (out_newly out) (map arr_item (arrivals inp))
  /\ exists hs,
       fps_of (out_newly out) hs /\ novel_seq (seen_hashes st) hs
       /\ seen_hashes st' = record_seq hs (seen_hashes st).
Proof.
  unfold cycle. intros H.
  destruct (poll_shape (news inp) (seen_hashes st) []) as (n1 & h1 & E1 & F1 & N1 & I1).
  rewrite E1 in H.
  destruct (poll_shape (dart inp) (record_seq h1 (seen_hashes st)) ([] ++ n1))
    as (n2 & h2 & E2 & F2 & N2 & I2).
  rewrite E2 in H. simpl app in H.
  destruct (digest_step _ _) as [[[s f] c]|] eqn:D; [|discriminate].
  injection H as <- <-. cbn [out_alerts out_added out_newly].
  split; [reflexivity|]. split; [reflexivity|]. split.
  - unfold arrivals. rewrite flat_map_app, map_app.
    apply incl_app; [now apply incl_appl | now apply incl_appr].
  - exists (h1 ++ h2). split; [now apply fps_of_app|].
    split; [now apply novel_seq_app|].
    rewrite record_seq_app.
    unfold digest_step in D. cbn [last_digest_unix digest_buffer seen_hashes] in D.
    destruct (need_digest _ _ _); [|now injection D as <- _ _].
    destruct (entry_items _); [|discriminate]. now injection D as <- _ _.
Qed.

Lemma run_shape (inps : list CycleInput) :
  forall (st st' : State) (outs : list Output),
  run st inps = Some (st', outs) ->
  List.length outs = List.length inps
  /\ exists hs,
       fps_of (flat_map out_newly outs) hs /\ novel_seq (seen_hashes st) hs
       /\ seen_hashes st' = record_seq hs (seen_hashes st).
Proof.
  induction inps as [|inp inps IH]; intros st st' outs H; simpl in H.
  - injection H as <- <-. split; [reflexivity|]. exists []. repeat split. constructor.
  - destruct (cycle st inp) as [[s1 o1]|] eqn:C; [|discriminate].
    destruct (run s1 inps) as [[s2 os]|] eqn:R; [|discriminate].
    injection H as <- <-.
    destruct (cycle_shape _ _ C) as (_ & _ & _ & h1 & F1 & N1 & E1).
    destruct (IH _ _ _ R) as (L & h2 & F2 & N2 & E2).
    split; [simpl; now rewrite L|].
    exists (h1 ++ h2). simpl. split; [now apply fps_of_app|].
    split; [apply novel_seq_app; now rewrite <- E1|].
    now rewrite record_seq_app, <- E1.
Qed.

End Dedup.

(** ** C9: recording comes first, and stands *)

Section AtMostOnce.
Context {U : UnicodeDB}.

Lemma last_n_app_short (A : Type) (n : nat) (l r : list A) :
  List.length r <= n -> last_n n (l ++ r) = last_n (n - List.length r) l ++ r.
Proof.
  intros H. unfold last_n. rewrite length_app, skipn_app.
  replace (List.length l + List.length r - n - List.length l) with 0 by lia.
  simpl. f_equal. f_equal. lia.
Qed.

(** As long as no more than the cap were recorded, all of them are there. *)
Lemma record_seq_keeps (hs seen : list text) (h : text) :
  List.length hs <= SEEN_CAP -> In h hs -> mem h (record_seq hs seen) = true.
Proof.
  intros Hlen Hin. apply mem_In. unfold record_seq. rewrite record_all.
  - rewrite last_n_app_short by assumption. apply in_or_app. now right.
  - intros ->. contradiction.
Qed.

Lemma cycle_ignores_send_outcome (st : State) (inp : CycleInput) (f : Item -> bool) :
  option_map fst (cycle st (with_send_ok inp f)) = option_map fst (cycle st inp).
Proof.
  unfold cycle. cbn [news dart now_buffer with_send_ok].
  destruct (poll (dart inp) (poll (news inp) (seen_hashes st, []))) as [seen newly].
  change (digest_step (with_send_ok inp f)) with (digest_step inp).
  destruct (digest_step inp _) as [[[s b] c]|]; reflexivity.
Qed.

Lemma fps_of_In (new : list Item) (hs : list text) (x : Item) :
  fps_of new hs -> In x new -> exists h, In h hs /\ fp x = Some h.
Proof.
  induction 1 as [|y h new hs Hy _ IH]; intros Hin; [contradiction|].
  destruct Hin as [<- | Hin].
  - exists h. split; [now left | assumption].
  - destruct (IH Hin) as [h' [H1 H2]]. exists h'. split; [now right | assumption].
Qed.

Lemma alerts_are_strong_novel (f : Item -> bool) (newly : list Item) (x : Item) (b : bool) :
  In (x, b) (immediate_alerts f newly) ->
  In x newly /\ is_strong (classify_sentiment (title x)) = true.
Proof.
  unfold immediate_alerts. intros H. apply in_map_iff in H as [y [E Hy]].
  injection E as -> _. now apply filter_In in Hy.
Qed.

Lemma run_outputs (inps : list CycleInput) :
  forall (st st' : State) (outs : list Output) (o : Output),
  run st inps = Some (st', outs) -> In o outs ->
  exists s s' inp, In inp inps /\ cycle s inp = Some (s', o).
Proof.
  induction inps as [|inp inps IH]; intros st st' outs o H Hin; simpl in H.
  - injection H as _ <-. contradiction.
  - destruct (cycle st inp) as [[s1 o1]|] eqn:C; [|discriminate].
    destruct (run s1 inps) as [[s2 os]|] eqn:R; [|discriminate].
    injection H as <- <-. destruct Hin as [<- | Hin].
    + exists st, s1, inp. split; [now left | assumption].
    + destruct (IH _ _ _ _ R Hin) as (s & s' & i & Hi & Hc).
      exists s, s', i. split; [now right | assumption].
Qed.

End AtMostOnce.

(** C9, amended.  (1) The state a cycle leaves does not depend on whether
    the immediate sends returned or raised.  (2) An immediate alert is
    attempted only for an item the poll phase of the same cycle listed as
    new, that is, after its fingerprint was recorded; with at most 8000 new
    items in the cycle every such fingerprint is in the store the cycle
    leaves.  (3) A fingerprint among the [k] newest of the store is met by
    no new item, hence by no alert, through every later cycle for which [k]
    plus the number of items recorded since stays within 8000: a failed
    alert is not repeated while its fingerprint is retained. *)
Theorem alert_once_while_retained (U : UnicodeDB) :
  (forall (st : State) (inp : CycleInput) (f : Item -> bool),
     option_map fst (cycle st (with_send_ok inp f)) = option_map fst (cycle st inp))
  /\ (forall (st st' : State) (inp : CycleInput) (out : Output),
        cycle st inp = Some (st', out) ->
        (forall x b, In (x, b) (out_alerts out) -> In x (out_newly out))
        /\ exists hs,
             fps_of (out_newly out) hs
             /\ seen_hashes st' = record_seq hs (seen_hashes st)
             /\ (List.length (out_newly out) <= SEEN_CAP ->
                 forall h, In h hs -> mem h (seen_hashes st') = true))
  /\ (forall (st st' : State) (inps : list CycleInput) (outs : list Output)
             (h : text) (k : nat),
        run st inps = Some (st', outs) ->
        In h (last_n k (seen_hashes st)) ->
        k + List.length (flat_map out_newly outs) <= SEEN_CAP ->
        (forall o x, In o outs -> In x (out_newly o) -> fp x <> Some h)
        /\ (forall o x b, In o outs -> In (x, b) (out_alerts o) -> fp x <> Some h)
        /\ mem h (seen_hashes st') = true).
Proof.
  split; [apply cycle_ignores_send_outcome|]. split.
  - intros st st' inp out C.
    destruct (cycle_shape _ _ C) as (Ea & _ & _ & hs & F & N & E). split.
    + intros x b H. rewrite Ea in H. now apply alerts_are_strong_novel in H.
    + exists hs. split; [assumption|]. split; [assumption|].
      intros L h Hin. rewrite E. apply record_seq_keeps; [|assumption].
      now rewrite (fps_of_length F).
  - intros st st' inps outs h k R Hin Hk.
    destruct (run_shape _ _ R) as (_ & hs & F & N & E).
    rewrite <- (fps_of_length F) in Hk.
    destruct (retained hs (seen_hashes st) h k N Hin Hk) as [Hno Hkeep].
    assert (New : forall o x, In o outs -> In x (out_newly o) -> fp x <> Some h).
    { intros o x Ho Hx Hfp.
      assert (Hx' : In x (flat_map out_newly outs))
        by (apply in_flat_map; now exists o).
      destruct (fps_of_In x F Hx') as [h' [H1 H2]]. congruence. }
    split; [exact New|]. split.
    + intros o x b Ho Hx.
      destruct (@run_outputs U inps st st' outs o R Ho) as (s & s' & inp & _ & C).
      destruct (cycle_shape _ _ C) as (Ea & _). rewrite Ea in Hx.
      apply alerts_are_strong_novel in Hx as [Hx _]. now apply (New o).
    + apply mem_In. rewrite E. eapply last_n_In; eassumption.
Qed.

(** ** A busy cycle: 8000 other headlines *)

Fixpoint bits_text (p : positive) : text :=
  match p with
  | xH => [49%N]
  | xO q => 48%N :: bits_text q
  | xI q => 49%N :: bits_text q
  end.

Definition filler_proto : Item := Eval vm_compute in
  mkItem (mkdt 2024 3 1 11 50 0 0) (lit "news") (lit "삼성전자")
         (lit "headline ") (lit "https://news.example/f").

(** The [p]-th of a series of distinct headlines, ten minutes old at
    [sample_now]: the title is "headline " followed by the bits of [p]. *)
Definition filler (p : positive) : Arrival :=
  mkArrival (mkItem (ts filler_proto) (source filler_proto) (stock filler_proto)
                    (title filler_proto ++ bits_text p) (url filler_proto))
            sample_now.

Fixpoint fillers_from (n : nat) (p : positive) : list Arrival :=
  match n with
  | O => []
  | S n' => filler p :: fillers_from n' (Pos.succ p)
  end.

Definition fillers : list Arrival := fillers_from SEEN_CAP 1.

(** A number that tells two fingerprints apart. *)
Definition fp_key (h : text) : positive :=
  fold_left (fun acc c => (N.succ_pos c + 256 * acc)%positive) h 1%positive.

Section BusyCycle.
Context {U : UnicodeDB}.

(** Every item has a fingerprint, and no fingerprint comes twice or has its
    key in [trie]. *)
Fixpoint distinct_fps (arrs : list Arrival) (trie : PositiveSet.t) : bool :=
  match arrs with
  | [] => true
  | a :: r =>
    match fp (arr_item a) with
    | None => false
    | Some h =>
      negb (PositiveSet.mem (fp_key h) trie)
      && distinct_fps r (PositiveSet.add (fp_key h) trie)
    end
  end.


Lemma distinct_fps_sound (arrs : list Arrival) :
  forall trie, distinct_fps arrs trie = true ->
  exists hs,
    Forall2 (fun a h => fp (arr_item a) = Some h) arrs hs
    /\ NoDup hs
    /\ forall h, In h hs -> ~ PositiveSet.In (fp_key h) trie.
Proof.
  induction arrs as [|a arrs IH]; intros trie H; simpl in H.
  - exists []. split; [constructor|]. split; [constructor|]. intros h [].
  - destruct (fp (arr_item a)) as [h|] eqn:E; [|discriminate].
    apply andb_prop in H as [H1 H2]. apply negb_true_iff in H1.
    destruct (IH _ H2) as (hs & F & ND & Dis).
    assert (Hh : ~ In h hs).
    { intros Hin. apply (Dis h Hin). apply PositiveSet.add_spec. now left. }
    exists (h :: hs). split; [constructor; [exact E | exact F]|].
    split; [now constructor|].
    intros h' [<- | Hin].
    + intros Hm. apply PositiveSet.mem_spec in Hm. congruence.
    + intros Hm. apply (Dis h' Hin). apply PositiveSet.add_spec. now right.
Qed.

(** Fresh items with pairwise distinct fingerprints, none in the store:
    the loop records every one and lists every one as new. *)
Lemma ingest_all_novel (arrs : list Arrival) (hs : list text) :
  Forall2 (fun a h => fp (arr_item a) = Some h) arrs hs ->
  Forall (fun a => too_old (arr_now a) (arr_item a) = false) arrs ->
  NoDup hs ->
  forall (seen : list text) (newly : list Item) (rest : list Arrival),
  (forall h, In h hs -> ~ In h seen) ->
  ingest (arrs ++ rest) (seen, newly)
  = ingest rest (record_seq hs seen, newly ++ map arr_item arrs).
Proof.
  induction 1 as [|a h arrs hs Ha _ IH]; intros Hf Hnd seen newly rest Hs.
  - simpl. now rewrite app_nil_r.
  - inversion Hf as [|? ? Ta Hf']; subst. inversion Hnd as [|? ? Hh Hnd']; subst.
    cbn [app]. rewrite ingest_cons. cbn [fst snd]. rewrite Ta, Ha.
    replace (mem h seen) with false
      by (symmetry; apply mem_false; apply Hs; now left).
    rewrite IH; trivial.
    + cbn [map record_seq fold_left]. now rewrite <- app_assoc.
    + intros h' Hin Hin'. unfold record_hash in Hin'. apply last_n_In in Hin'.
      apply in_app_or in Hin' as [Hin' | [<- | []]].
      * apply (Hs h'); [now right | assumption].
      * contradiction.
Qed.

End BusyCycle.

Lemma fillers_from_length (n : nat) (p : positive) :
  List.length (fillers_from n p) = n.
Proof. revert p; induction n; intros p; simpl; [reflexivity | now rewrite IHn]. Qed.

Lemma fillers_from_fresh (n : nat) (p : positive) :
  Forall (fun a => too_old (arr_now a) (arr_item a) = false) (fillers_from n p).
Proof.
  revert p; induction n; intros p; simpl; constructor; [|apply IHn].
  vm_compute. reflexivity.
Qed.

Lemma fillers_from_ok (n : nat) (p : positive) :
  Forall (fun a => item_ok (arr_item a)) (fillers_from n p).
Proof.
  revert p; induction n; intros p; simpl; constructor; [|apply IHn].
  vm_compute. reflexivity.
Qed.

(** ** C9 as stated fails: eviction brings a failed alert back *)

(** A strong-bear headline, five minutes old at [sample_now]. *)
Definition lost_item : Item := Eval vm_compute in
  mkItem (mkdt 2024 3 1 11 55 0 0) (lit "news") (lit "삼성전자")
         (lit "삼성전자 유상증자 결정") (lit "https://news.example/e1").

Definition lost_fp : text := Eval vm_compute in
  match fp lost_item with Some h => h | None => [] end.

(** First cycle: the headline alone, and its send raises. *)
Definition failing_cycle : CycleInput :=
  mkInput [Fetched [mkArrival lost_item sample_now]] [Fetched []] (fun _ => false)
          sample_now 1709262000 sample_now (fun _ => true).

(** Second cycle, same clock readings: 8000 other headlines, then the
    first one again. *)
Definition busy_cycle : CycleInput :=
  mkInput [Fetched (fillers ++ [mkArrival lost_item sample_now])] [Fetched []]
          (fun _ => true) sample_now 1709262000 sample_now (fun _ => true).

Lemma lost_fp_eq : fp lost_item = Some lost_fp.
Proof. vm_compute. reflexivity. Qed.

Lemma fillers_distinct :
  distinct_fps fillers (PositiveSet.add (fp_key lost_fp) PositiveSet.empty) = true.
Proof. vm_compute. reflexivity. Qed.

Lemma alerts_In (f : Item -> bool) (newly : list Item) (x : Item) :
  In x newly -> is_strong (classify_sentiment (title x)) = true ->
  In (x, f x) (immediate_alerts f newly).
Proof.
  intros Hin Hs. unfold immediate_alerts. apply in_map_iff.
  exists x. split; [reflexivity|]. apply filter_In. now split.
Qed.

Lemma run_two (U : UnicodeDB) (st s1 s2 : State) (i1 i2 : CycleInput) (o1 o2 : Output) :
  cycle st i1 = Some (s1, o1) -> cycle s1 i2 = Some (s2, o2) ->
  run st [i1; i2] = Some (s2, [o1; o2]).
Proof. intros C1 C2. cbn [run]. now rewrite C1, C2. Qed.

(** What the busy cycle's poll does to a store holding just [lost_fp]. *)
Lemma busy_poll :
  exists hs,
    List.length hs = SEEN_CAP /\ ~ In lost_fp hs
    /\ poll (dart busy_cycle) (poll (news busy_cycle) ([lost_fp], []))
       = (record_hash lost_fp hs, map arr_item fillers ++ [lost_item]).
Proof.
  destruct (distinct_fps_sound fillers _ fillers_distinct) as (hs & F & ND & Dis).
  assert (Hlen : List.length hs = SEEN_CAP).
  { rewrite <- (Forall2_length F). apply fillers_from_length. }
  assert (Hnot : ~ In lost_fp hs).
  { intros Hin. apply (Dis _ Hin). apply PositiveSet.add_spec. now left. }
  exists hs. split; [assumption|]. split; [assumption|].
  unfold busy_cycle, poll. cbn [news dart fold_left].
  rewrite (ingest_all_novel F (fillers_from_fresh _ _) ND).
  - assert (E : record_seq hs [lost_fp] = hs).
    { unfold record_seq. rewrite record_all.
      - rewrite last_n_app_long by lia. apply last_n_all. lia.
      - intros ->. simpl in Hlen. pose proof SEEN_CAP_pos. lia. }
    rewrite E, ingest_cons. cbn [arr_item arr_now fst snd app].
    replace (too_old sample_now lost_item) with false by (vm_compute; reflexivity).
    rewrite lost_fp_eq.
    replace (mem lost_fp hs) with false by (symmetry; now apply mem_false).
    reflexivity.
  - intros h Hin [<- | []]. contradiction.
Qed.

(** C9, as stated, fails.  The send of a strong headline raises in one
    cycle; the next cycle brings 8000 other headlines and then the same
    headline again: its fingerprint has been evicted by then, so it is new
    again and its alert is sent a second time. *)
Lemma failed_alert_repeats_after_eviction :
  exists st' o1 o2,
    run (mkState [] [] 1709262000) [failing_cycle; busy_cycle] = Some (st', [o1; o2])
    /\ out_alerts o1 = [(lost_item, false)]
    /\ In (lost_item, true) (out_alerts o2).
Proof.
  set (st1 := mkState [lost_fp] [snapshot lost_item] 1709262000).
  set (o1 := mkOutput [lost_item] [(lost_item, false)] [snapshot lost_item] false None).
  assert (C1 : cycle (mkState [] [] 1709262000) failing_cycle = Some (st1, o1))
    by (vm_compute; reflexivity).
  destruct busy_poll as (hs & Hlen & Hnot & P).
  set (newly := map arr_item fillers ++ [lost_item]) in *.
  set (mid := mkState (record_hash lost_fp hs)
                      (update_buffer sample_now [snapshot lost_item] newly)
                      1709262000).
  assert (Hmid : Forall entry_ok (digest_buffer mid)).
  { apply update_buffer_ok.
    - constructor; [|constructor]. apply snapshot_ok. vm_compute. reflexivity.
    - apply Forall_app. split.
      + apply Forall_map. apply fillers_from_ok.
      + constructor; [|constructor]. vm_compute. reflexivity. }
  destruct (digest_step_spec busy_cycle mid Hmid) as (st' & fired & call & D & _).
  assert (C2 : cycle st1 busy_cycle
               = Some (st', mkOutput newly (immediate_alerts (fun _ => true) newly)
                                     (buffer_additions
                                        (dt_minus sample_now (minutes DIGEST_INTERVAL_MIN))
                                        newly)
                                     fired call)).
  { unfold cycle. cbn [seen_hashes st1]. rewrite P.
    cbn [digest_buffer last_digest_unix st1 now_buffer busy_cycle send_ok].
    fold mid. now rewrite D. }
  exists st', o1,
    (mkOutput newly (immediate_alerts (fun _ => true) newly)
              (buffer_additions (dt_minus sample_now (minutes DIGEST_INTERVAL_MIN)) newly)
              fired call).
  split; [exact (@run_two basic_db _ _ _ _ _ _ _ C1 C2)|].
  split; [reflexivity|].
  apply (alerts_In (fun _ => true) newly lost_item).
  - unfold newly. apply in_or_app. right. now left.
  - vm_compute. reflexivity.
Qed.

(** ** C1: one event, fed again and again *)

Section Repeats.
Context {U : UnicodeDB}.




Lemma poll_app (fs gs : list Fetch) (acc : list text * list Item) :
  poll (fs ++ gs) acc = poll gs (poll fs acc).
Proof. apply fold_left_app. Qed.



End Repeats.

(** ** C1 on concrete cycles *)







(** The end-to-end scenario: one headline for entity X, once from the feed
    and once from the registry in the same cycle, and again from the feed
    in the next cycle. *)
Definition scenario_news : Item := Eval vm_compute in
  mkItem (mkdt 2024 3 1 11 50 0 0) (lit "news") (lit "X")
         (lit "X 무상증자 발표") (lit "https://news.example/x1").

Definition scenario_dart : Item := Eval vm_compute in
  mkItem (mkdt 2024 3 1 11 50 0 0) (lit "dart") (lit "X")
         (lit "X 무상증자 발표") (lit "https://news.example/x1").

Definition scenario_cycle1 : CycleInput :=
  mkInput [Fetched [mkArrival scenario_news sample_now]]
          [Fetched [mkArrival scenario_dart sample_now]]
          (fun _ => true) sample_now 1709262000 sample_now (fun _ => true).

Definition scenario_cycle2 : CycleInput :=
  mkInput [Fetched [mkArrival scenario_news (mkdt 2024 3 1 12 2 0 0)]] [FetchError]
          (fun _ => true) (mkdt 2024 3 1 12 2 0 0) 1709262120
          (mkdt 2024 3 1 12 2 0 0) (fun _ => true).



(** ** C4 on a concrete sequence *)

Lemma bits_text_inj (p q : positive) : bits_text p = bits_text q -> p = q.
Proof.
  assert (N : forall r, bits_text r <> []) by (intros []; discriminate).
  revert q. induction p as [p IH | p IH |]; intros [q | q |] H; cbn [bits_text] in H;
    try discriminate; try reflexivity;
    injection H as H; try (f_equal; now apply IH);
    exfalso; now apply (N _ H) || now apply (N _ (eq_sym H)).
Qed.

(** 8001 distinct strings, in the order they are recorded. *)
Definition sample_fps : list text :=
  map (fun i => bits_text (Pos.of_succ_nat i)) (seq 0 (S SEEN_CAP)).

Lemma sample_fps_NoDup : NoDup sample_fps.
Proof.
  unfold sample_fps. apply Injective_map_NoDup; [|apply seq_NoDup].
  intros i j H. apply bits_text_inj in H. now apply SuccNat2Pos.inj.
Qed.

Lemma sample_fps_length : List.length sample_fps = S SEEN_CAP.
Proof. unfold sample_fps. now rewrite length_map, length_seq. Qed.

Lemma eviction_is_fifo_witness :
  let store := fold_left (fun s h => record_hash h s) sample_fps [lit "cafe"] in
  List.length store = SEEN_CAP
  /\ mem (bits_text 1) store = false
  /\ mem (bits_text 2) store = true
  /\ mem (bits_text (Pos.of_succ_nat SEEN_CAP)) store = true.
Proof.
  intros store.
  destruct (@eviction_is_fifo [lit "cafe"] sample_fps sample_fps_NoDup)
    as (Hlen & Hstore & Hnew & Hold).
  - rewrite sample_fps_length. lia.
  - fold store in Hlen, Hnew, Hold. split; [exact Hlen|].
    assert (Hsplit : sample_fps
                     = bits_text 1
                       :: map (fun i => bits_text (Pos.of_succ_nat i)) (seq 1 SEEN_CAP))
      by reflexivity.
    assert (Hlast : last_n SEEN_CAP sample_fps
                    = map (fun i => bits_text (Pos.of_succ_nat i)) (seq 1 SEEN_CAP)).
    { rewrite Hsplit. unfold last_n. cbn [List.length].
      rewrite length_map, length_seq.
      replace (S SEEN_CAP - SEEN_CAP) with 1 by lia. reflexivity. }
    split; [|split].
    + apply Hold. rewrite sample_fps_length.
      replace (S SEEN_CAP - SEEN_CAP) with 1 by lia. rewrite Hsplit. now left.
    + apply Hnew. rewrite Hlast. apply in_map_iff. exists 1. split; [reflexivity|].
      apply in_seq. pose proof SEEN_CAP_pos. lia.
    + apply Hnew. rewrite Hlast. apply in_map_iff. exists SEEN_CAP.
      split; [reflexivity|]. apply in_seq. pose proof SEEN_CAP_pos. lia.
Defined.

(** ** C10: pruning by string comparison *)

(** The prune of the digest buffer on timestamps instead of strings: an
    entry stays when its time, read back from the entry, is not before the
    cutoff. *)
Definition prune_by_timestamp (cutoff : datetime) (buf : list Entry) : list Entry :=
  filter (fun d => match fromisoformat (e_ts d) with
                   | Some t => dt_geb t cutoff
                   | None => false
                   end) buf.

(** An entry as step 4 writes it: its [ts] is the [isoformat] of a datetime. *)
Definition engine_entry (d : Entry) : Prop :=
  exists t, valid_datetime t = true /\ e_ts d = isoformat t.

(** C10.  For datetimes of the one zone, rendered by [isoformat] with or
    without a microsecond part, the order of the strings is the order of
    the timestamps; so on a buffer of entries the engine wrote, the prune
    of line 290, which compares strings, keeps exactly the entries a prune
    on parsed timestamps keeps.  Every entry step 4 appends is of that
    kind. *)
Theorem string_prune_is_chronological :
  (forall a b : datetime,
     valid_datetime a = true -> valid_datetime b = true ->
     text_cmp (isoformat a) (isoformat b) = dt_cmp a b
     /\ text_geb (isoformat a) (isoformat b) = dt_geb a b)
  /\ (forall (cutoff : datetime) (buf : list Entry),
        valid_datetime cutoff = true -> Forall engine_entry buf ->
        prune_buffer cutoff buf = prune_by_timestamp cutoff buf)
  /\ (forall it : Item, item_ok it -> engine_entry (snapshot it)).
Proof.
  split; [|split].
  - intros a b Ha Hb. split.
    + apply isoformat_cmp; now apply valid_in_range.
    + now apply isoformat_geb.
  - intros cutoff buf Hc Hbuf. unfold prune_buffer, prune_by_timestamp.
    apply filter_ext_in. intros d Hd.
    rewrite Forall_forall in Hbuf. destruct (Hbuf d Hd) as (t & Ht & E).
    rewrite E, isoformat_truthy, fromisoformat_isoformat by assumption.
    cbn [andb]. now apply isoformat_geb.
  - intros it Hit. exists (ts it). split; [exact Hit | reflexivity].
Qed.

Example prune_mixed_layouts :
  let cutoff := mkdt 2024 3 1 11 0 0 250000 in
  let early := mkEntry (lit "2024-03-01T11:00:00+09:00") [] [] [] [] in
  let late := mkEntry (lit "2024-03-01T11:00:00.250000+09:00") [] [] [] [] in
  prune_buffer cutoff [early; late] = [late]
  /\ prune_by_timestamp cutoff [early; late] = [late].
Proof. split; vm_compute; reflexivity. Qed.

(** ** C6: the fingerprint *)






Section Normalize.
Context {U : UnicodeDB}.




Lemma lstrip_incl (s : text) (c : char) : In c (lstrip s) -> In c s.
Proof.
  induction s as [|d s IH]; [trivial|]. cbn [lstrip].
  destruct (isspace d); [intros H; right; now apply IH | trivial].
Qed.

Lemma strip_incl (s : text) (c : char) : In c (strip s) -> In c s.
Proof.
  unfold strip. intros H. apply in_rev in H. apply lstrip_incl in H.
  apply in_rev in H. now apply lstrip_incl.
Qed.

Lemma normalize_title_allowed (t : text) (c : char) :
  In c (normalize_title t) -> allowed c = true.
Proof.
  unfold normalize_title. intros H. apply strip_incl in H.
  now apply filter_In in H.
Qed.


End Normalize.

(** [str.lower] leaves a whitespace run alone and lowers the two sides
    independently. *)
Definition lower_splits (U : UnicodeDB) : Prop :=
  forall x w y : text,
    w <> [] -> forallb isspace w = true ->
    str_lower (x ++ w ++ y) = str_lower x ++ w ++ str_lower y.

Lemma basic_db_lower_splits : lower_splits basic_db.
Proof.
  intros x w y _ Hw. cbn [str_lower basic_db]. unfold basic_lower.
  rewrite !map_app. f_equal. f_equal.
  induction w as [|c w IH]; [reflexivity|]. cbn [forallb] in Hw.
  apply andb_prop in Hw as [Hc Hw]. cbn [map]. rewrite IH by assumption. f_equal.
  destruct ((65 <=? c) && (c <=? 90))%N eqn:E; [|reflexivity].
  apply andb_prop in E as [E1 E2]. apply N.leb_le in E1, E2.
  unfold isspace in Hc. exfalso.
  repeat (apply orb_prop in Hc as [Hc | Hc]);
    repeat match goal with
           | H : (_ && _)%bool = true |- _ => apply andb_prop in H as [? ?]
           | H : (_ <=? _)%N = true |- _ => apply N.leb_le in H
           | H : (_ =? _)%N = true |- _ => apply N.eqb_eq in H
           end; lia.
Qed.


Example fingerprint_ignores_case_and_spacing :
  make_hash (lit "Samsung  Electronics	신제품 ") (Some (lit "https://news.example/a"))
  = make_hash (lit "samsung electronics 신제품") (Some (lit "https://news.example/a"))
  /\ make_hash (lit "samsung electronics 신제품") None
     = Some (lit "fc46def47320023d9232c354").
Proof. split; vm_compute; reflexivity. Qed.

(* ================================================================== *)
(** ** The [json] module: values, [json.dump] and [json.load]

    The values [json.load] can return.  A number with a fraction or an
    exponent is kept as its lexeme: the program never reads or writes one. *)

#[warnings="-register-all"] Inductive json :=
| JNull
| JBool (b : bool)
| JInt (z : Z)
| JFloat (lexeme : text)
| JStr (s : text)
| JList (l : list json)
| JDict (kvs : list (text * json)).

Module Json.

(** *** Encoding: [json.dump(obj, f, ensure_ascii=False, indent=2)] *)

Definition hexdigit (d : N) : char := (if d <? 10 then 48 + d else 87 + d)%N.

(** [ESCAPE_DCT] of the encoder: only the quote, the backslash and the
    control characters are escaped. *)
Definition escape_char (c : char) : text :=
  (if c =? 34 then [92; 34]
   else if c =? 92 then [92; 92]
   else if c =? 8 then [92; 98]
   else if c =? 12 then [92; 102]
   else if c =? 10 then [92; 110]
   else if c =? 13 then [92; 114]
   else if c =? 9 then [92; 116]
   else if c <? 32 then [92; 117; 48; 48; hexdigit (c / 16); hexdigit (c mod 16)]
   else [c])%N.

Definition quote (s : text) : text := 34%N :: flat_map escape_char s ++ [34%N].

Fixpoint uint_text (d : Decimal.uint) : text :=
  match d with
  | Decimal.Nil => []
  | Decimal.D0 r => 48%N :: uint_text r
  | Decimal.D1 r => 49%N :: uint_text r
  | Decimal.D2 r => 50%N :: uint_text r
  | Decimal.D3 r => 51%N :: uint_text r
  | Decimal.D4 r => 52%N :: uint_text r
  | Decimal.D5 r => 53%N :: uint_text r
  | Decimal.D6 r => 54%N :: uint_text r
  | Decimal.D7 r => 55%N :: uint_text r
  | Decimal.D8 r => 56%N :: uint_text r
  | Decimal.D9 r => 57%N :: uint_text r
  end.

(** [int.__repr__] *)
Definition int_repr (z : Z) : text :=
  match z with
  | Z0 => [48%N]
  | Zpos p => uint_text (Pos.to_uint p)
  | Zneg p => 45%N :: uint_text (Pos.to_uint p)
  end.

(** ["\n" + " " * (2 * level)] *)
Definition newline_indent (level : nat) : text := 10%N :: repeat 32%N (2 * level).

Fixpoint join (sep : text) (parts : list text) : text :=
  match parts with
  | [] => []
  | [p] => p
  | p :: rest => p ++ sep ++ join sep rest
  end.

Definition NULL : text := Eval vm_compute in lit "null".
Definition TRUE : text := Eval vm_compute in lit "true".
Definition FALSE : text := Eval vm_compute in lit "false".
Definition NAN : text := Eval vm_compute in lit "NaN".
Definition INFINITY : text := Eval vm_compute in lit "Infinity".
Definition NEG_INFINITY : text := Eval vm_compute in lit "-Infinity".

Fixpoint dumps (level : nat) (v : json) : text :=
  match v with
  | JNull => NULL
  | JBool true => TRUE
  | JBool false => FALSE
  | JInt z => int_repr z
  | JFloat lx => lx
  | JStr s => quote s
  | JList [] => [91%N; 93%N]
  | JList l =>
    [91%N] ++ newline_indent (S level)
      ++ join (44%N :: newline_indent (S level)) (map (dumps (S level)) l)
      ++ newline_indent level ++ [93%N]
  | JDict [] => [123%N; 125%N]
  | JDict kvs =>
    [123%N] ++ newline_indent (S level)
      ++ join (44%N :: newline_indent (S level))
              (map (fun kv => quote (fst kv) ++ [58%N; 32%N] ++ dumps (S level) (snd kv)) kvs)
      ++ newline_indent level ++ [125%N]
  end.

(** *** Decoding: [json.load(f)] *)

(** [WHITESPACE = [ \t\n\r]*] *)
Definition is_ws (c : char) : bool := ((c =? 32) || (c =? 9) || (c =? 10) || (c =? 13))%N.

Fixpoint skip_ws (s : text) : text :=
  match s with
  | c :: r => if is_ws c then skip_ws r else s
  | [] => []
  end.

Definition hexval (c : char) : option N :=
  (if (48 <=? c) && (c <=? 57) then Some (c - 48)
   else if (97 <=? c) && (c <=? 102) then Some (c - 87)
   else if (65 <=? c) && (c <=? 70) then Some (c - 55)
   else None)%N.

(** [_decode_uXXXX]: four hex digits. *)
Definition hex4 (a b c d : char) : option N :=
  match hexval a, hexval b, hexval c, hexval d with
  | Some x, Some y, Some z, Some w => Some (((x * 16 + y) * 16 + z) * 16 + w)%N
  | _, _, _, _ => None
  end.

(** [BACKSLASH]: the one-letter escapes. *)
Definition unescape (e : char) : option char :=
  (if e =? 34 then Some 34 else if e =? 92 then Some 92 else if e =? 47 then Some 47
   else if e =? 98 then Some 8 else if e =? 102 then Some 12
   else if e =? 110 then Some 10 else if e =? 114 then Some 13
   else if e =? 116 then Some 9 else None)%N.

Definition cons_fst (c : char) (r : option (text * text)) : option (text * text) :=
  match r with Some (s, rest) => Some (c :: s, rest) | None => None end.

(** [scanstring] with [strict=True], from just after the opening quote:
    the string and what follows its closing quote. *)
Fixpoint scanstring (s : text) : option (text * text) :=
  match s with
  | [] => None
  | c :: r =>
    if (c =? 34)%N then Some ([], r)
    else if (c =? 92)%N then
      match r with
      | [] => None
      | e :: r1 =>
        if (e =? 117)%N then
          match r1 with
          | h1 :: h2 :: h3 :: h4 :: r5 =>
            match hex4 h1 h2 h3 h4 with
            | None => None
            | Some uni =>
              if ((0xD800 <=? uni) && (uni <=? 0xDBFF))%N then
                match r5 with
                | 92%N :: 117%N :: r7 =>
                  match r7 with
                  | g1 :: g2 :: g3 :: g4 :: r11 =>
                    match hex4 g1 g2 g3 g4 with
                    | None => None
                    | Some uni2 =>
                      if ((0xDC00 <=? uni2) && (uni2 <=? 0xDFFF))%N
                      then cons_fst (0x10000 + ((uni - 0xD800) * 1024 + (uni2 - 0xDC00)))%N
                                    (scanstring r11)
                      else cons_fst uni (scanstring r5)
                    end
                  | _ => None
                  end
                | _ => cons_fst uni (scanstring r5)
                end
              else cons_fst uni (scanstring r5)
            end
          | _ => None
          end
        else match unescape e with
             | Some ch => cons_fst ch (scanstring r1)
             | None => None
             end
      end
    else if (c <? 32)%N then None
    else cons_fst c (scanstring r)
  end.

Definition is_digit (c : char) : bool := ((48 <=? c) && (c <=? 57))%N.

(** The longest prefix of digits, and the rest. *)
Fixpoint span_digits (s : text) : text * text :=
  match s with
  | c :: r => if is_digit c then let '(d, rest) := span_digits r in (c :: d, rest)
              else ([], s)
  | [] => ([], [])
  end.

Definition digits_value (d : text) : N :=
  fold_left (fun acc c => (acc * 10 + (c - 48))%N) d 0%N.

(** [(\.\d+)?]: the fraction, when a digit follows the dot. *)
Definition scan_frac (s : text) : text * text :=
  match s with
  | 46%N :: r =>
    match span_digits r with
    | ([], _) => ([], s)
    | (d, rest) => (46%N :: d, rest)
    end
  | _ => ([], s)
  end.

(** [([eE][-+]?\d+)?] *)
Definition scan_exp (s : text) : text * text :=
  match s with
  | e :: r =>
    if ((e =? 101) || (e =? 69))%N then
      let '(sign, r1) := match r with
                         | c :: r' => if ((c =? 43) || (c =? 45))%N then ([c], r') else ([], r)
                         | [] => ([], r)
                         end in
      match span_digits r1 with
      | ([], _) => ([], s)
      | (d, rest) => (e :: sign ++ d, rest)
      end
    else ([], s)
  | [] => ([], s)
  end.

(** [NUMBER_RE] after the optional sign: an integer part without a
    leading zero, then the optional fraction and exponent.  An integer
    goes through [int], anything else through [float]. *)
Definition scan_unsigned (neg : bool) (s : text) : option (json * text) :=
  match s with
  | c :: r =>
    if is_digit c then
      let '(ipart, r1) := if (c =? 48)%N then ([c], r) else span_digits s in
      let '(frac, r2) := scan_frac r1 in
      let '(ex, r3) := scan_exp r2 in
      match frac, ex with
      | [], [] =>
        let n := Z.of_N (digits_value ipart) in
        Some (JInt (if neg then Z.opp n else n), r3)
      | _, _ => Some (JFloat ((if neg then [45%N] else []) ++ ipart ++ frac ++ ex), r3)
      end
    else None
  | [] => None
  end.

Definition scan_number (s : text) : option (json * text) :=
  match s with
  | c :: r => if (c =? 45)%N then scan_unsigned true r else scan_unsigned false s
  | [] => None
  end.

(** [dict(pairs)]: a repeated key keeps its place and takes the later value. *)
Fixpoint dict_set (d : list (text * json)) (k : text) (v : json) : list (text * json) :=
  match d with
  | [] => [(k, v)]
  | (k', v') :: r => if text_eqb k' k then (k', v) :: r else (k', v') :: dict_set r k v
  end.

Definition dict_of_pairs (pairs : list (text * json)) : list (text * json) :=
  fold_left (fun d kv => dict_set d (fst kv) (snd kv)) pairs [].

Definition starts (p s : text) : option text :=
  if starts_with p s then Some (skipn (List.length p) s) else None.

(** [s[end:end + 1] == c]: what follows the character, when it is there. *)
Definition next_is (c : char) (s : text) : option text :=
  match s with
  | x :: r => if (x =? c)%N then Some r else None
  | [] => None
  end.

(** [scan_once], [JSONArray] and [JSONObject].  [fuel] bounds the nesting
    and the number of items; [None] is JSONDecodeError. *)
Fixpoint scan_once (fuel : nat) (s : text) : option (json * text) :=
  match fuel with
  | O => None
  | S f =>
    match s with
    | [] => None
    | c :: r =>
      if (c =? 34)%N then
        match scanstring r with
        | Some (str, rest) => Some (JStr str, rest)
        | None => None
        end
      else if (c =? 123)%N then
        let r' := skip_ws r in
        match next_is 125%N r' with
        | Some rest => Some (JDict [], rest)
        | None =>
          match next_is 34%N r' with
          | Some rest =>
            match scan_members f rest with
            | Some (pairs, rest') => Some (JDict (dict_of_pairs pairs), rest')
            | None => None
            end
          | None => None
          end
        end
      else if (c =? 91)%N then
        let r' := skip_ws r in
        match next_is 93%N r' with
        | Some rest => Some (JList [], rest)
        | None =>
          match scan_items f r' with
          | Some (vs, rest') => Some (JList vs, rest')
          | None => None
          end
        end
      else if (c =? 110)%N then
        match starts NULL s with Some rest => Some (JNull, rest) | None => None end
      else if (c =? 116)%N then
        match starts TRUE s with Some rest => Some (JBool true, rest) | None => None end
      else if (c =? 102)%N then
        match starts FALSE s with Some rest => Some (JBool false, rest) | None => None end
      else
        match scan_number s with
        | Some r => Some r
        | None =>
          match starts NAN s, starts INFINITY s, starts NEG_INFINITY s with
          | Some rest, _, _ => Some (JFloat NAN, rest)
          | _, Some rest, _ => Some (JFloat INFINITY, rest)
          | _, _, Some rest => Some (JFloat NEG_INFINITY, rest)
          | _, _, _ => None
          end
        end
    end
  end

(** The items of an array, from the start of an item to after the [']']. *)
with scan_items (fuel : nat) (s : text) : option (list json * text) :=
  match fuel with
  | O => None
  | S f =>
    match scan_once f s with
    | None => None
    | Some (v, r) =>
      let r' := skip_ws r in
      match next_is 93%N r' with
      | Some rest => Some ([v], rest)
      | None =>
        match next_is 44%N r' with
        | Some r1 =>
          match scan_items f (skip_ws r1) with
          | Some (vs, rest) => Some (v :: vs, rest)
          | None => None
          end
        | None => None
        end
      end
    end
  end

(** The members of an object, from just after the opening quote of a key
    to after the ['}']. *)
with scan_members (fuel : nat) (s : text) : option (list (text * json) * text) :=
  match fuel with
  | O => None
  | S f =>
    match scanstring s with
    | None => None
    | Some (key, r) =>
      match next_is 58%N (skip_ws r) with
      | None => None
      | Some r1 =>
        match scan_once f (skip_ws r1) with
        | None => None
        | Some (v, r2) =>
          let r' := skip_ws r2 in
          match next_is 125%N r' with
          | Some rest => Some ([(key, v)], rest)
          | None =>
            match next_is 44%N r' with
            | Some r3 =>
              match next_is 34%N (skip_ws r3) with
              | Some r4 =>
                match scan_members f r4 with
                | Some (kvs, rest) => Some ((key, v) :: kvs, rest)
                | None => None
                end
              | None => None
              end
            | None => None
            end
          end
        end
      end
    end
  end.

(** [JSONDecoder.decode]: one value between optional whitespace, and
    nothing after it. *)
Definition loads (s : text) : option json :=
  match scan_once (2 * List.length s + 2) (skip_ws s) with
  | Some (v, rest) =>
    match skip_ws rest with
    | [] => Some v
    | _ :: _ => None
    end
  | None => None
  end.

(** The values the round trip is stated for: no float, and the keys of
    a dict distinct, as those of a Python dict are. *)
Fixpoint distinct (ks : list text) : bool :=
  match ks with
  | [] => true
  | k :: r => negb (mem k r) && distinct r
  end.

Fixpoint plain (v : json) : bool :=
  match v with
  | JFloat _ => false
  | JList l => forallb plain l
  | JDict kvs => distinct (map fst kvs) && forallb (fun kv => plain (snd kv)) kvs
  | _ => true
  end.

(** Fuel that decoding the encoding of a value takes. *)
Fixpoint weight (v : json) : nat :=
  match v with
  | JList l => S (list_sum (map (fun x => S (weight x)) l))
  | JDict kvs => S (list_sum (map (fun kv => S (weight (snd kv))) kvs))
  | _ => 1
  end.

End Json.


Section JsonInduction.
Variable P : json -> Prop.
Hypothesis Hnull : P JNull.
Hypothesis Hbool : forall b, P (JBool b).
Hypothesis Hint : forall z, P (JInt z).
Hypothesis Hfloat : forall lx, P (JFloat lx).
Hypothesis Hstr : forall s, P (JStr s).
Hypothesis Hlist : forall l, Forall P l -> P (JList l).
Hypothesis Hdict : forall kvs, Forall (fun kv => P (snd kv)) kvs -> P (JDict kvs).

Fixpoint json_nested_ind (v : json) : P v :=
  match v with
  | JNull => Hnull
  | JBool b => Hbool b
  | JInt z => Hint z
  | JFloat lx => Hfloat lx
  | JStr s => Hstr s
  | JList l =>
    Hlist ((fix go (l : list json) : Forall P l :=
              match l with
              | [] => Forall_nil _
              | x :: r => Forall_cons x (json_nested_ind x) (go r)
              end) l)
  | JDict kvs =>
    Hdict ((fix go (l : list (text * json)) : Forall (fun kv => P (snd kv)) l :=
              match l with
              | [] => Forall_nil _
              | kv :: r => Forall_cons kv (json_nested_ind (snd kv)) (go r)
              end) kvs)
  end.
End JsonInduction.

Module JsonFacts.
Import Json.

Lemma cons_app {A} (x : A) (l r : list A) : (x :: l) ++ r = x :: (l ++ r).
Proof. reflexivity. Qed.

Definition low_chars : list N := Eval vm_compute in map N.of_nat (seq 0 32).

Lemma low_chars_In c : (c < 32)%N -> In c low_chars.
Proof.
  intros H. unfold low_chars.
  assert (E : c = N.of_nat (N.to_nat c)) by (symmetry; apply Nnat.N2Nat.id).
  assert (L : (N.to_nat c < 32)%nat) by lia.
  rewrite E. clear E.
  change [0; 1; 2; 3; 4; 5; 6; 7; 8; 9; 10; 11; 12; 13; 14; 15; 16; 17; 18; 19; 20;
          21; 22; 23; 24; 25; 26; 27; 28; 29; 30; 31]%N with (map N.of_nat (seq 0 32)).
  apply in_map, in_seq. lia.
Qed.

Lemma escape_low c :
  (c < 32)%N -> hex4 48%N 48%N (hexdigit (c / 16)%N) (hexdigit (c mod 16)%N) = Some c.
Proof.
  intros H.
  assert (A : forallb (fun c => match hex4 48%N 48%N (hexdigit (c / 16)%N) (hexdigit (c mod 16)%N) with
                                | Some v => N.eqb v c | None => false end) low_chars = true)
    by (vm_compute; reflexivity).
  rewrite forallb_forall in A. specialize (A c (low_chars_In H)).
  destruct (hex4 _ _ _ _); [|discriminate]. apply N.eqb_eq in A. congruence.
Qed.

(** Decoding undoes the escaping of the encoder. *)
Lemma scanstring_escape c s rest r :
  scanstring (s ++ 34%N :: rest) = Some (r, rest) ->
  scanstring (escape_char c ++ s ++ 34%N :: rest) = Some (c :: r, rest).
Proof.
  intros IH. unfold escape_char.
  destruct (c =? 34)%N eqn:E1; [apply N.eqb_eq in E1; subst; cbn; rewrite IH; reflexivity|].
  destruct (c =? 92)%N eqn:E2; [apply N.eqb_eq in E2; subst; cbn; rewrite IH; reflexivity|].
  destruct (c =? 8)%N eqn:E3; [apply N.eqb_eq in E3; subst; cbn; rewrite IH; reflexivity|].
  destruct (c =? 12)%N eqn:E4; [apply N.eqb_eq in E4; subst; cbn; rewrite IH; reflexivity|].
  destruct (c =? 10)%N eqn:E5; [apply N.eqb_eq in E5; subst; cbn; rewrite IH; reflexivity|].
  destruct (c =? 13)%N eqn:E6; [apply N.eqb_eq in E6; subst; cbn; rewrite IH; reflexivity|].
  destruct (c =? 9)%N eqn:E7; [apply N.eqb_eq in E7; subst; cbn; rewrite IH; reflexivity|].
  destruct (c <? 32)%N eqn:E8.
  - apply N.ltb_lt in E8.
    rewrite !cons_app. cbn [app].
    cbn [scanstring]. change (92 =? 34)%N with false. change (92 =? 92)%N with true.
    change (117 =? 117)%N with true. cbv iota.
    rewrite (escape_low E8).
    replace ((55296 <=? c) && (c <=? 56319))%N with false
      by (symmetry; apply andb_false_iff; left; apply N.leb_gt; lia).
    rewrite IH. reflexivity.
  - apply N.ltb_ge in E8. rewrite cons_app. cbn [app scanstring].
    rewrite E1, E2. replace (c <? 32)%N with false by (symmetry; apply N.ltb_ge; exact E8).
    rewrite IH. reflexivity.
Qed.

Lemma scanstring_quote s rest :
  scanstring (flat_map escape_char s ++ 34%N :: rest) = Some (s, rest).
Proof.
  induction s as [|c s IH]; [reflexivity|].
  cbn [flat_map]. rewrite <- app_assoc. apply scanstring_escape, IH.
Qed.


(** What may follow a value in the encoder's output: a comma, a newline,
    or nothing. *)
Definition closed (rest : text) : Prop :=
  match rest with
  | [] => True
  | c :: _ => c = 44%N \/ c = 10%N
  end.

Lemma is_digit_uint d c t : uint_text d = c :: t -> is_digit c = true.
Proof. destruct d; cbn; intros E; inversion E; reflexivity. Qed.

Lemma span_digits_uint d rest :
  match rest with [] => True | c :: _ => is_digit c = false end ->
  span_digits (uint_text d ++ rest) = (uint_text d, rest).
Proof.
  intros H. induction d; cbn [uint_text app span_digits];
    try (change (is_digit _) with true; cbv iota; rewrite IHd; reflexivity).
  destruct rest as [|c r]; [reflexivity|]. cbn. rewrite H. reflexivity.
Qed.

Lemma digits_value_acc d acc :
  fold_left (fun a c => (a * 10 + (c - 48))%N) (uint_text d) acc
  = match acc with
    | N0 => Pos.of_uint d
    | Npos a => Npos (Pos.of_uint_acc d a)
    end.
Proof.
  revert acc. induction d; intros acc; cbn [uint_text fold_left];
    [destruct acc; reflexivity | ..];
    rewrite IHd; (destruct acc as [|a]; [reflexivity|]);
    cbn [Pos.of_uint_acc];
    match goal with
    | |- match ?v with _ => _ end = N.pos (Pos.of_uint_acc d ?acc') =>
      replace v with (N.pos acc') by lia
    end; reflexivity.
Qed.

Lemma digits_value_uint d : digits_value (uint_text d) = Pos.of_uint d.
Proof. apply (digits_value_acc d 0%N). Qed.

Lemma nzhead_no_zero d : match Decimal.nzhead d with Decimal.D0 _ => False | _ => True end.
Proof. induction d; cbn; auto. Qed.

Lemma to_uint_head p :
  exists c t, uint_text (Pos.to_uint p) = c :: t /\ is_digit c = true /\ (c =? 48)%N = false.
Proof.
  pose proof (DecimalPos.Unsigned.to_of (Pos.to_uint p)) as E.
  rewrite DecimalPos.Unsigned.of_to in E. cbn [N.to_uint] in E.
  pose proof (DecimalPos.Unsigned.to_uint_nonzero p) as NZ.
  pose proof (nzhead_no_zero (Pos.to_uint p)) as H.
  unfold Decimal.unorm in E.
  destruct (Pos.to_uint p) eqn:Ep; cbn [uint_text];
    try (eexists _, _; repeat split; reflexivity).
  - destruct (Decimal.nzhead Decimal.Nil); discriminate.
  - exfalso. destruct (Decimal.nzhead (Decimal.D0 u)) eqn:En;
      try contradiction; discriminate.
Qed.

Lemma scan_tail_closed rest :
  closed rest -> scan_frac rest = ([], rest) /\ scan_exp rest = ([], rest)
                 /\ match rest with [] => True | c :: _ => is_digit c = false end.
Proof.
  destruct rest as [|c r]; [cbn; auto|].
  intros [-> | ->]; cbn; auto.
Qed.

(** Decoding undoes [int.__repr__]. *)
Lemma scan_number_int z rest :
  closed rest -> scan_number (int_repr z ++ rest) = Some (JInt z, rest).
Proof.
  intros C. destruct (scan_tail_closed rest C) as (F & X & D).
  assert (P : forall p neg,
             scan_unsigned neg (uint_text (Pos.to_uint p) ++ rest)
             = Some (JInt (if neg then Zneg p else Zpos p), rest)).
  { intros p neg. unfold scan_unsigned.
    destruct (to_uint_head p) as (c & t & E & Dg & NZ).
    pose proof (span_digits_uint (Pos.to_uint p) rest D) as Sp.
    rewrite E in *. rewrite cons_app in *. rewrite Dg, NZ, Sp, F, X.
    rewrite <- E, digits_value_uint, DecimalPos.Unsigned.of_to.
    destruct neg; reflexivity. }
  destruct z as [|p|p].
  - cbn [int_repr app]. unfold scan_number, scan_unsigned.
    change (48 =? 45)%N with false.
    change (is_digit 48%N) with true. change (48 =? 48)%N with true. cbv iota.
    rewrite F, X. reflexivity.
  - cbn [int_repr]. unfold scan_number.
    destruct (to_uint_head p) as (c & t & E & Dg & NZ).
    specialize (P p false). rewrite E in *. rewrite cons_app in *.
    replace (c =? 45)%N with false; [exact P|].
    symmetry. apply N.eqb_neq. intros ->. discriminate.
  - cbn [int_repr app]. unfold scan_number. change (45 =? 45)%N with true.
    cbv iota. exact (P p true).
Qed.


Lemma skip_ws_spaces n c r :
  is_ws c = false -> skip_ws (repeat 32%N n ++ c :: r) = c :: r.
Proof. intros H. induction n; cbn; [rewrite H; reflexivity | exact IHn]. Qed.

Lemma skip_ws_newline n c r :
  is_ws c = false -> skip_ws (newline_indent n ++ c :: r) = c :: r.
Proof. intros H. unfold newline_indent. cbn. apply skip_ws_spaces, H. Qed.

(** The first character of an encoded value. *)
Definition opens_value (c : char) : bool :=
  existsb (N.eqb c) [34; 123; 91; 110; 116; 102; 45; 48; 49; 50; 51; 52; 53; 54; 55; 56; 57]%N.

Lemma int_repr_head z :
  exists c t, int_repr z = c :: t /\ (is_digit c = true \/ c = 45%N).
Proof.
  destruct z as [|p|p]; cbn [int_repr].
  - eexists _, _. split; [reflexivity | left; reflexivity].
  - destruct (to_uint_head p) as (c & t & E & D & _). eauto.
  - eexists _, _. split; [reflexivity | right; reflexivity].
Qed.

Lemma is_digit_opens c : is_digit c = true \/ c = 45%N -> opens_value c = true.
Proof.
  intros [H | ->]; [|reflexivity].
  unfold is_digit in H. apply andb_true_iff in H. destruct H as [A B].
  apply N.leb_le in A, B.
  assert (In c [48; 49; 50; 51; 52; 53; 54; 55; 56; 57]%N).
  { assert (E : c = N.of_nat (N.to_nat c)) by (symmetry; apply Nnat.N2Nat.id).
    rewrite E.
    change [48; 49; 50; 51; 52; 53; 54; 55; 56; 57]%N with (map N.of_nat (seq 48 10)).
    apply in_map, in_seq. lia. }
  unfold opens_value. apply existsb_exists. exists c. split; [|apply N.eqb_refl].
  cbn in *. tauto.
Qed.

Lemma dumps_head level v :
  plain v = true -> exists c t, dumps level v = c :: t /\ opens_value c = true.
Proof.
  destruct v as [|[]|z|lx|s|[|x l]|[|kv kvs]]; cbn [plain dumps]; intros H;
    try discriminate; try (eexists _, _; split; reflexivity).
  destruct (int_repr_head z) as (c & t & E & D).
  exists c, t. split; [exact E | apply is_digit_opens, D].
Qed.

Lemma opens_not_ws c : opens_value c = true -> is_ws c = false /\ (c =? 93)%N = false.
Proof.
  unfold opens_value. intros H. apply existsb_exists in H. destruct H as (x & I & E).
  apply N.eqb_eq in E. subst x. cbn in I.
  repeat (destruct I as [<- | I]; [split; reflexivity|]). contradiction.
Qed.

Lemma scan_once_number fuel c t :
  is_digit c = true \/ c = 45%N ->
  scan_once (S fuel) (c :: t)
  = match scan_number (c :: t) with
    | Some r => Some r
    | None =>
      match starts NAN (c :: t), starts INFINITY (c :: t), starts NEG_INFINITY (c :: t) with
      | Some rest, _, _ => Some (JFloat NAN, rest)
      | _, Some rest, _ => Some (JFloat INFINITY, rest)
      | _, _, Some rest => Some (JFloat NEG_INFINITY, rest)
      | _, _, _ => None
      end
    end.
Proof.
  intros H. cbn [scan_once].
  assert (N1 : (c =? 34)%N = false /\ (c =? 123)%N = false /\ (c =? 91)%N = false
               /\ (c =? 110)%N = false /\ (c =? 116)%N = false /\ (c =? 102)%N = false).
  { destruct H as [H | ->]; [|repeat split; reflexivity].
    unfold is_digit in H. apply andb_true_iff in H. destruct H as [A B].
    apply N.leb_le in A, B. repeat split; apply N.eqb_neq; lia. }
  destruct N1 as (-> & -> & -> & -> & -> & ->). reflexivity.
Qed.

(** A value round-trips when decoding its encoding, at any nesting level
    and before any closing tail, gives the value back. *)
Definition round_trips (v : json) : Prop :=
  forall level rest fuel,
    closed rest -> (weight v <= fuel)%nat ->
    scan_once fuel (dumps level v ++ rest) = Some (v, rest).

Lemma closed_newline n r : closed (newline_indent n ++ r).
Proof. right. reflexivity. Qed.

Lemma closed_comma r : closed (44%N :: r).
Proof. left. reflexivity. Qed.

Lemma skip_ws_dumps m v r :
  plain v = true -> skip_ws (dumps m v ++ r) = dumps m v ++ r.
Proof.
  intros Pv. destruct (@dumps_head m v Pv) as (c & t & E & O).
  destruct (opens_not_ws c O) as [Ws _].
  rewrite E. cbn [app skip_ws]. rewrite Ws. reflexivity.
Qed.

Lemma next_is_dumps m v r : plain v = true -> next_is 93%N (dumps m v ++ r) = None.
Proof.
  intros Pv. destruct (@dumps_head m v Pv) as (c & t & E & O).
  destruct (opens_not_ws c O) as [_ N93].
  rewrite E. cbn [app next_is]. rewrite N93. reflexivity.
Qed.

Lemma skip_ws_comma r : skip_ws (44%N :: r) = 44%N :: r.
Proof. reflexivity. Qed.

Lemma skip_ws_spaces_skip n r : skip_ws (repeat 32%N n ++ r) = skip_ws r.
Proof. induction n; cbn; [reflexivity | exact IHn]. Qed.

Lemma skip_ws_newline_skip n r : skip_ws (newline_indent n ++ r) = skip_ws r.
Proof. unfold newline_indent. rewrite cons_app. apply skip_ws_spaces_skip. Qed.

Lemma join_cons sep p q (parts : list text) :
  join sep (p :: q :: parts) = p ++ sep ++ join sep (q :: parts).
Proof. reflexivity. Qed.

Lemma scan_items_dumps (l : list json) :
  Forall round_trips l -> forallb plain l = true -> l <> [] ->
  forall m n rest fuel,
    (list_sum (map (fun x => S (weight x)) l) <= fuel)%nat ->
    scan_items fuel (join (44%N :: newline_indent m) (map (dumps m) l)
                     ++ newline_indent n ++ 93%N :: rest)
    = Some (l, rest).
Proof.
  induction 1 as [|x l Hx Hl IH]; [congruence|].
  intros Pl _ m n rest fuel W.
  cbn [forallb] in Pl. apply andb_true_iff in Pl. destruct Pl as [Px Pl].
  cbn [map] in W. unfold list_sum in W. cbn [fold_right] in W.
  fold (list_sum (map (fun x => S (weight x)) l)) in W.
  destruct fuel as [|f]; [lia|].
  destruct l as [|y l'].
  - cbn [map join scan_items].
    rewrite (Hx m _ f (closed_newline _ _)) by lia.
    rewrite skip_ws_newline by reflexivity. reflexivity.
  - cbn [map]. rewrite join_cons, <- !app_assoc, cons_app. cbn [scan_items].
    rewrite (Hx m _ f (closed_comma _)) by lia.
    rewrite skip_ws_comma. cbn [next_is]. change (44 =? 93)%N with false.
    change (44 =? 44)%N with true. cbv iota.
    rewrite skip_ws_newline_skip.
    specialize (IH Pl ltac:(discriminate) m n rest f ltac:(lia)).
    cbn [forallb] in Pl. apply andb_true_iff in Pl. destruct Pl as [Py _].
    assert (S : forall r, skip_ws (join (44%N :: newline_indent m) (map (dumps m) (y :: l')) ++ r)
                          = join (44%N :: newline_indent m) (map (dumps m) (y :: l')) ++ r).
    { intros r. destruct l'; cbn [map]; [cbn [join]|rewrite join_cons, <- !app_assoc];
        apply skip_ws_dumps, Py. }
    rewrite S.
    match goal with
    | |- match ?e with _ => _ end = _ =>
      replace e with (Some (y :: l', rest)) by (symmetry; exact IH)
    end.
    reflexivity.
Qed.

Definition member_text (m : nat) (kv : text * json) : text :=
  quote (fst kv) ++ [58%N; 32%N] ++ dumps m (snd kv).

Lemma member_text_eq m kvs :
  map (fun kv => quote (fst kv) ++ [58%N; 32%N] ++ dumps m (snd kv)) kvs
  = map (member_text m) kvs.
Proof. reflexivity. Qed.

Lemma join_members_head m kv kvs :
  exists t, join (44%N :: newline_indent m) (map (member_text m) (kv :: kvs)) = 34%N :: t.
Proof. destruct kvs; cbn [map join]; unfold member_text, quote; eexists; reflexivity. Qed.

Lemma scan_members_dumps (kvs : list (text * json)) :
  Forall (fun kv => round_trips (snd kv)) kvs ->
  forallb (fun kv => plain (snd kv)) kvs = true -> kvs <> [] ->
  forall m n rest fuel,
    (list_sum (map (fun kv => S (weight (snd kv))) kvs) <= fuel)%nat ->
    scan_members fuel (tl (join (44%N :: newline_indent m) (map (member_text m) kvs)
                           ++ newline_indent n ++ 125%N :: rest))
    = Some (kvs, rest).
Proof.
  induction 1 as [|[k v] l Hx Hl IH]; [congruence|].
  intros Pl _ m n rest fuel W.
  cbn [forallb snd] in Pl. apply andb_true_iff in Pl. destruct Pl as [Px Pl].
  cbn [map snd] in W. unfold list_sum in W. cbn [fold_right] in W.
  fold (list_sum (map (fun kv : text * json => S (weight (snd kv))) l)) in W.
  destruct fuel as [|f]; [lia|].
  cbn [snd] in Hx.
  assert (K : forall r,
             tl (member_text m (k, v) ++ r)
             = flat_map escape_char k ++ 34%N :: 58%N :: 32%N :: dumps m v ++ r).
  { intros r. unfold member_text, quote. cbn [fst snd].
    rewrite <- !app_assoc. rewrite cons_app. cbn [tl]. rewrite <- !app_assoc. reflexivity. }
  destruct l as [|kv2 l'].
  - cbn [map join]. rewrite K. cbn [scan_members]. rewrite scanstring_quote.
    cbn [skip_ws]. change (is_ws 58%N) with false. cbv iota.
    cbn [next_is]. change (58 =? 58)%N with true. cbv iota.
    cbn [skip_ws]. change (is_ws 32%N) with true. cbv iota.
    rewrite skip_ws_dumps by exact Px.
    rewrite (Hx m _ f (closed_newline _ _)) by lia.
    rewrite skip_ws_newline by reflexivity. reflexivity.
  - cbn [map]. rewrite join_cons, <- !app_assoc, K. cbn [scan_members].
    rewrite scanstring_quote.
    cbn [skip_ws]. change (is_ws 58%N) with false. cbv iota.
    cbn [next_is]. change (58 =? 58)%N with true. cbv iota.
    cbn [skip_ws]. change (is_ws 32%N) with true. cbv iota.
    rewrite skip_ws_dumps by exact Px. rewrite cons_app.
    rewrite (Hx m _ f (closed_comma _)) by lia.
    rewrite skip_ws_comma. cbn [next_is]. change (44 =? 125)%N with false.
    change (44 =? 44)%N with true. cbv iota.
    rewrite skip_ws_newline_skip.
    specialize (IH Pl ltac:(discriminate) m n rest f ltac:(lia)).
    destruct (join_members_head m kv2 l') as (t' & J).
    cbn [map] in IH, J. rewrite J in *. rewrite cons_app in *.
    cbn [skip_ws]. change (is_ws 34%N) with false. cbv iota.
    cbn [next_is]. change (34 =? 34)%N with true. cbv iota.
    cbn [tl] in IH. rewrite IH. reflexivity.
Qed.

Lemma distinct_NoDup ks : distinct ks = true -> NoDup ks.
Proof.
  induction ks as [|k r IH]; cbn [distinct]; intros H; [constructor|].
  apply andb_true_iff in H. destruct H as [A B]. constructor; [|apply IH, B].
  intros I. apply mem_In in I. rewrite I in A. discriminate.
Qed.

Lemma dict_set_fresh d k v :
  ~ In k (map fst d) -> dict_set d k v = d ++ [(k, v)].
Proof.
  induction d as [|[k' v'] r IH]; intros H; cbn [dict_set app]; [reflexivity|].
  destruct (text_eqb k' k) eqn:E.
  - apply text_eqb_eq in E. subst. exfalso. apply H. left. reflexivity.
  - rewrite IH; [reflexivity|]. intros I. apply H. right. exact I.
Qed.

Lemma dict_of_pairs_acc kvs acc :
  NoDup (map fst (acc ++ kvs)) ->
  fold_left (fun d kv => dict_set d (fst kv) (snd kv)) kvs acc = acc ++ kvs.
Proof.
  revert acc. induction kvs as [|[k v] r IH]; intros acc H; cbn [fold_left fst snd].
  - rewrite app_nil_r. reflexivity.
  - rewrite dict_set_fresh.
    + rewrite IH; rewrite <- app_assoc; [reflexivity | exact H].
    + rewrite map_app in H. cbn [map fst] in H.
      apply NoDup_remove_2 in H. intros I. apply H, in_or_app. left. exact I.
Qed.

(** A dict with distinct keys is the dict of its own pairs. *)
Lemma dict_of_pairs_distinct kvs :
  distinct (map fst kvs) = true -> dict_of_pairs kvs = kvs.
Proof. intros H. apply (dict_of_pairs_acc kvs []), distinct_NoDup, H. Qed.

(** Decoding the encoding of a plain value gives the value back. *)
Lemma scan_once_dumps v : plain v = true -> round_trips v.
Proof.
  induction v as [|b|z|lx|s|l IH|kvs IH] using json_nested_ind;
    intros Pv level rest fuel C W; cbn [weight] in W;
    (destruct fuel as [|f]; [lia|]).
  - reflexivity.
  - destruct b; reflexivity.
  - cbn [dumps]. destruct (int_repr_head z) as (c & t & E & D).
    pose proof (scan_number_int z rest C) as R.
    rewrite E in *. rewrite cons_app in *.
    rewrite (scan_once_number f (t ++ rest) D), R. reflexivity.
  - discriminate.
  - cbn [dumps]. unfold quote. rewrite cons_app, <- app_assoc. cbn [app scan_once].
    change (34 =? 34)%N with true. cbv iota. rewrite scanstring_quote. reflexivity.
  - cbn [plain] in Pv.
    assert (IH' : Forall round_trips l).
    { rewrite Forall_forall in *. intros x I. apply IH; [exact I|].
      rewrite forallb_forall in Pv. apply Pv, I. }
    destruct l as [|x l']; [reflexivity|].
    cbn [dumps]. rewrite cons_app. cbn [app]. rewrite <- !app_assoc.
    pose proof (@scan_items_dumps (x :: l') IH' Pv ltac:(discriminate) (S level) level rest f
                  ltac:(lia)) as R.
    assert (Px : plain x = true) by (cbn in Pv; apply andb_true_iff in Pv; tauto).
    assert (J : forall r,
               join (44%N :: newline_indent (S level)) (map (dumps (S level)) (x :: l')) ++ r
               = dumps (S level) x ++
                 match l' with
                 | [] => r
                 | _ :: _ => (44%N :: newline_indent (S level))
                             ++ join (44%N :: newline_indent (S level))
                                     (map (dumps (S level)) l') ++ r
                 end).
    { intros r. destruct l'; cbn [map]; [reflexivity|].
      rewrite join_cons, <- !app_assoc. reflexivity. }
    cbn [scan_once]. change (91 =? 34)%N with false. change (91 =? 123)%N with false.
    change (91 =? 91)%N with true. cbv iota zeta.
    rewrite skip_ws_newline_skip, J, skip_ws_dumps, next_is_dumps, <- J by exact Px.
    match goal with
    | |- match ?e with _ => _ end = _ =>
      replace e with (Some (x :: l', rest)) by (symmetry; exact R)
    end.
    reflexivity.
  - cbn [plain] in Pv. apply andb_true_iff in Pv. destruct Pv as [Dk Pv].
    assert (IH' : Forall (fun kv => round_trips (snd kv)) kvs).
    { rewrite Forall_forall in *. intros x I. apply IH; [exact I|].
      rewrite forallb_forall in Pv. apply Pv, I. }
    destruct kvs as [|kv l']; [reflexivity|].
    cbn [dumps]. rewrite member_text_eq. rewrite cons_app. cbn [app]. rewrite <- !app_assoc.
    pose proof (@scan_members_dumps (kv :: l') IH' Pv ltac:(discriminate) (S level) level rest f
                  ltac:(lia)) as R.
    destruct (join_members_head (S level) kv l') as (t' & J). rewrite J in *.
    rewrite cons_app in *. cbn [tl] in R.
    cbn [scan_once]. change (123 =? 34)%N with false. change (123 =? 123)%N with true.
    cbv iota zeta. rewrite skip_ws_newline by reflexivity.
    cbn [next_is]. change (34 =? 125)%N with false. change (34 =? 34)%N with true. cbv iota.
    match goal with
    | |- match ?e with _ => _ end = _ =>
      replace e with (Some (kv :: l', rest)) by (symmetry; exact R)
    end.
    rewrite dict_of_pairs_distinct by exact Dk. reflexivity.
Qed.


Lemma join_weight m (l : list json) :
  Forall (fun x => (weight x <= List.length (dumps m x))%nat) l ->
  (list_sum (map (fun x => S (weight x)) l)
   <= S (List.length (join (44%N :: newline_indent m) (map (dumps m) l))))%nat.
Proof.
  induction 1 as [|x l Hx Hl IH]; [cbn; lia|].
  destruct l as [|y l'].
  - cbn. lia.
  - cbn [map] in *. rewrite join_cons, !length_app.
    unfold list_sum in *. cbn [fold_right] in *. cbn [List.length]. lia.
Qed.

Lemma join_members_weight m (l : list (text * json)) :
  Forall (fun kv => (weight (snd kv) <= List.length (dumps m (snd kv)))%nat) l ->
  (list_sum (map (fun kv => S (weight (snd kv))) l)
   <= S (List.length (join (44%N :: newline_indent m) (map (member_text m) l))))%nat.
Proof.
  assert (M : forall kv, (List.length (dumps m (snd kv)) <= List.length (member_text m kv))%nat).
  { intros kv. unfold member_text. rewrite !length_app. unfold text, char in *. lia. }
  induction 1 as [|x l Hx Hl IH]; [cbn; lia|].
  pose proof (M x).
  destruct l as [|y l'].
  - cbn [map join]. unfold list_sum. cbn [fold_right]. lia.
  - cbn [map] in *. rewrite join_cons, !length_app.
    unfold list_sum in *. cbn [fold_right] in *. cbn [List.length]. lia.
Qed.

(** The encoding is at least as long as the fuel its decoding takes. *)
Lemma weight_le_length v :
  plain v = true -> forall m, (weight v <= List.length (dumps m v))%nat.
Proof.
  induction v as [|b|z|lx|s|l IH|kvs IH] using json_nested_ind; intros Pv m.
  - cbn. lia.
  - destruct b; cbn; lia.
  - cbn [dumps weight]. destruct (int_repr_head z) as (c & t & E & _). rewrite E. cbn. lia.
  - discriminate.
  - cbn [dumps weight]. unfold quote. cbn. lia.
  - cbn [plain] in Pv.
    assert (IH' : Forall (fun x => (weight x <= List.length (dumps (S m) x))%nat) l).
    { rewrite Forall_forall in *. intros x I. apply IH; [exact I|].
      rewrite forallb_forall in Pv. apply Pv, I. }
    pose proof (@join_weight _ _ IH') as J.
    destruct l as [|x l']; [cbn; lia|].
    cbn [dumps weight]. rewrite cons_app. cbn [List.length]. rewrite !length_app.
    unfold newline_indent, text, char in *. cbn [List.length]. lia.
  - cbn [plain] in Pv. apply andb_true_iff in Pv. destruct Pv as [_ Pv].
    assert (IH' : Forall (fun kv => (weight (snd kv) <= List.length (dumps (S m) (snd kv)))%nat) kvs).
    { rewrite Forall_forall in *. intros x I. apply IH; [exact I|].
      rewrite forallb_forall in Pv. apply Pv, I. }
    pose proof (@join_members_weight _ _ IH') as J.
    destruct kvs as [|x l']; [cbn; lia|].
    cbn [dumps weight]. rewrite member_text_eq, cons_app. cbn [List.length].
    rewrite !length_app. unfold newline_indent, text, char in *. cbn [List.length]. lia.
Qed.

(** [json.loads(json.dumps(v, ensure_ascii=False, indent=2)) == v] *)
Lemma loads_dumps v : plain v = true -> loads (dumps 0 v) = Some v.
Proof.
  intros Pv. unfold loads.
  pose proof (skip_ws_dumps 0 v [] Pv) as S. rewrite List.app_nil_r in S. rewrite S.
  pose proof (@scan_once_dumps v Pv 0%nat [] (2 * List.length (dumps 0 v) + 2)%nat I) as R.
  rewrite List.app_nil_r in R. rewrite R; [reflexivity|].
  pose proof (weight_le_length v Pv 0). lia.
Qed.


(** Every character the encoder writes besides the raw characters of
    strings. *)
Definition structural : text :=
  Eval vm_compute in lit "0123456789-nulltruefalse[]{},: \bfnrtu" ++ [10; 34; 97; 99; 100]%N.

(** The characters of a string that the encoder writes as they are. *)
Definition raw (c : char) : bool := negb ((c <? 32) || (c =? 34) || (c =? 92))%N.

Fixpoint all_text (q : char -> bool) (v : json) : bool :=
  match v with
  | JStr s => forallb q s
  | JList l => forallb (all_text q) l
  | JDict kvs => forallb (fun kv => forallb q (fst kv) && all_text q (snd kv)) kvs
  | _ => true
  end.

Section Characters.
Variable q : char -> bool.
Hypothesis q_structural : forallb q structural = true.

Lemma q_In c : In c structural -> q c = true.
Proof. rewrite forallb_forall in q_structural. apply q_structural. Qed.

Ltac structural_chars :=
  cbn [forallb]; rewrite ?andb_true_iff; repeat split;
  try (apply q_In; cbv; tauto).

Lemma hexdigit_structural d : (d < 16)%N -> q (hexdigit d) = true.
Proof.
  intros H. apply q_In.
  assert (A : forallb (fun d => existsb (N.eqb (hexdigit d)) structural)
                      (map N.of_nat (seq 0 16)) = true) by (vm_compute; reflexivity).
  rewrite forallb_forall in A.
  assert (I : In d (map N.of_nat (seq 0 16))).
  { rewrite <- (Nnat.N2Nat.id d). apply in_map, in_seq. lia. }
  specialize (A d I). apply existsb_exists in A. destruct A as (x & Ix & E).
  apply N.eqb_eq in E. subst. exact Ix.
Qed.

Lemma escape_char_chars c : (raw c = true -> q c = true) -> forallb q (escape_char c) = true.
Proof.
  intros H. unfold escape_char, raw in *.
  destruct (c =? 34)%N; [structural_chars|].
  destruct (c =? 92)%N; [structural_chars|].
  destruct (c =? 8)%N; [structural_chars|].
  destruct (c =? 12)%N; [structural_chars|].
  destruct (c =? 10)%N; [structural_chars|].
  destruct (c =? 13)%N; [structural_chars|].
  destruct (c =? 9)%N; [structural_chars|].
  destruct (c <? 32)%N eqn:L.
  - apply N.ltb_lt in L. structural_chars; apply hexdigit_structural.
    + apply N.Div0.div_lt_upper_bound. lia.
    + apply N.mod_lt. discriminate.
  - cbn. rewrite H; reflexivity.
Qed.

Lemma quote_chars s : forallb (fun c => negb (raw c) || q c) s = true -> forallb q (quote s) = true.
Proof.
  intros H. unfold quote. cbn [forallb]. rewrite forallb_app.
  rewrite !andb_true_iff. repeat split; try (structural_chars; fail).
  induction s as [|c s IH]; [reflexivity|].
  cbn [forallb flat_map] in *. apply andb_true_iff in H. destruct H as [Hc Hs].
  rewrite forallb_app, IH, escape_char_chars; [reflexivity | | exact Hs].
  intros R. rewrite R in Hc. exact Hc.
Qed.

Lemma uint_text_chars d : forallb q (uint_text d) = true.
Proof.
  induction d; cbn [uint_text forallb]; [reflexivity | ..];
    rewrite IHd, andb_true_r; apply q_In; cbv; tauto.
Qed.

Lemma int_repr_chars z : forallb q (int_repr z) = true.
Proof.
  destruct z; cbn [int_repr forallb]; rewrite ?uint_text_chars, ?andb_true_r;
    try reflexivity; apply q_In; cbv; tauto.
Qed.

Lemma newline_indent_chars n : forallb q (newline_indent n) = true.
Proof.
  unfold newline_indent. cbn [forallb]. apply andb_true_iff. split; [apply q_In; cbv; tauto|].
  induction (2 * n)%nat; cbn [repeat forallb]; [reflexivity|].
  rewrite IHn0, andb_true_r. apply q_In; cbv; tauto.
Qed.

Lemma join_chars sep parts :
  forallb q sep = true -> Forall (fun p => forallb q p = true) parts ->
  forallb q (join sep parts) = true.
Proof.
  intros Hs. induction 1 as [|p l Hp Hl IH]; [reflexivity|].
  destruct l as [|p' l']; [exact Hp|].
  rewrite join_cons, (forallb_app q p), (forallb_app q sep), Hp, Hs. exact IH.
Qed.

(** The encoder's output holds structural characters and raw string
    characters, nothing else. *)
Lemma dumps_chars v :
  plain v = true -> all_text (fun c => negb (raw c) || q c) v = true ->
  forall m, forallb q (dumps m v) = true.
Proof.
  induction v as [|b|z|lx|s|l IH|kvs IH] using json_nested_ind; intros Pv A m.
  - cbn [dumps]. unfold NULL. structural_chars.
  - destruct b; cbn [dumps]; unfold TRUE, FALSE; structural_chars.
  - apply int_repr_chars.
  - discriminate.
  - apply quote_chars, A.
  - cbn [all_text] in A. destruct l as [|x l']; [cbn [dumps]; structural_chars|].
    cbn [dumps]. rewrite !forallb_app, !newline_indent_chars.
    rewrite join_chars; [structural_chars | |].
    + cbn [forallb]. rewrite newline_indent_chars, andb_true_r. apply q_In; cbv; tauto.
    + rewrite Forall_forall in *. intros p Ip. apply in_map_iff in Ip.
      destruct Ip as (y & <- & Iy). cbn [plain] in Pv. rewrite forallb_forall in Pv, A.
      apply IH; [exact Iy | apply Pv, Iy | apply A, Iy].
  - cbn [all_text] in A. destruct kvs as [|x l']; [cbn [dumps]; structural_chars|].
    cbn [dumps]. rewrite !forallb_app, !newline_indent_chars.
    rewrite join_chars; [structural_chars | |].
    + cbn [forallb]. rewrite newline_indent_chars, andb_true_r. apply q_In; cbv; tauto.
    + rewrite Forall_forall in *. intros p Ip. apply in_map_iff in Ip.
      destruct Ip as (y & <- & Iy).
      cbn [plain] in Pv. apply andb_true_iff in Pv. destruct Pv as [_ Pv].
      rewrite forallb_forall in A, Pv. specialize (A y Iy). specialize (Pv y Iy).
      apply andb_true_iff in A. destruct A as [Ak Av].
      rewrite !forallb_app, quote_chars, (IH y Iy Pv Av) by exact Ak. structural_chars.
Qed.
End Characters.

End JsonFacts.

(* ================================================================== *)
(** ** The state file: [load_state] and [save_state] *)

Definition KEY_SEEN_HASHES : text := Eval vm_compute in lit "seen_hashes".
Definition KEY_DIGEST_BUFFER : text := Eval vm_compute in lit "digest_buffer".
Definition KEY_LAST_DIGEST_UNIX : text := Eval vm_compute in lit "last_digest_unix".
Definition KEY_TS : text := Eval vm_compute in lit "ts".
Definition KEY_SRC : text := Eval vm_compute in lit "src".
Definition KEY_STOCK : text := Eval vm_compute in lit "stock".
Definition KEY_TITLE : text := Eval vm_compute in lit "title".
Definition KEY_URL : text := Eval vm_compute in lit "url".

(** The dict appended to the digest buffer at line 293. *)
Definition entry_json (d : Entry) : json :=
  JDict [(KEY_TS, JStr (e_ts d)); (KEY_SRC, JStr (e_src d)); (KEY_STOCK, JStr (e_stock d));
         (KEY_TITLE, JStr (e_title d)); (KEY_URL, JStr (e_url d))].

(** The dict [state] of [main] that a [State] stands for. *)
Definition state_json (st : State) : json :=
  JDict [(KEY_SEEN_HASHES, JList (map JStr (seen_hashes st)));
         (KEY_DIGEST_BUFFER, JList (map entry_json (digest_buffer st)));
         (KEY_LAST_DIGEST_UNIX, JInt (last_digest_unix st))].

(** Line 104. *)
Definition DEFAULT_STATE : json :=
  JDict [(KEY_SEEN_HASHES, JList []); (KEY_DIGEST_BUFFER, JList []);
         (KEY_LAST_DIGEST_UNIX, JInt 0)].

(** Reading in text mode: [\r\n] and [\r] come out as [\n]. *)
Fixpoint universal_newlines (s : text) : text :=
  match s with
  | [] => []
  | c :: r =>
    if (c =? 13)%N then
      10%N :: match r with
              | [] => []
              | c' :: r' => if (c' =? 10)%N then universal_newlines r'
                            else universal_newlines r
              end
    else c :: universal_newlines r
  end.

(** [load_state] on the characters of the state file, [None] when there is
    no file.  The result [None] is the exception of [json.load], which
    nothing catches. *)
Definition load_state (file : option text) : option json :=
  match file with
  | Some content => Json.loads (universal_newlines content)
  | None => Some DEFAULT_STATE
  end.

(** [save_state]: the characters written, or [None] when the utf-8 file
    refuses one of them (UnicodeEncodeError). *)
Definition save_state (state : json) : option text :=
  let out := Json.dumps 0 state in
  match utf8_encode out with
  | Some _ => Some out
  | None => None
  end.

Section StateFile.
Import Json JsonFacts.

Lemma plain_state st : plain (state_json st) = true.
Proof.
  unfold state_json. cbn [plain map fst snd forallb].
  apply andb_true_iff. split; [reflexivity|].
  rewrite !andb_true_iff. repeat split.
  - apply forallb_forall. intros x I. apply in_map_iff in I. destruct I as (h & <- & _).
    reflexivity.
  - apply forallb_forall. intros x I. apply in_map_iff in I. destruct I as (d & <- & _).
    reflexivity.
Qed.

Definition not_cr (c : char) : bool := negb (c =? 13)%N.

Lemma universal_newlines_id s : forallb not_cr s = true -> universal_newlines s = s.
Proof.
  induction s as [|c r IH]; [reflexivity|].
  cbn [forallb universal_newlines]. intros H. apply andb_true_iff in H. destruct H as [C R].
  unfold not_cr in C. apply negb_true_iff in C. rewrite C, IH by exact R. reflexivity.
Qed.

Lemma all_text_total (q : char -> bool) v :
  (forall c, q c = true) -> all_text q v = true.
Proof.
  intros Q.
  assert (F : forall s, forallb q s = true) by (intros s; apply forallb_forall; auto).
  induction v as [|b|z|lx|s|l IH|kvs IH] using json_nested_ind; cbn [all_text]; auto.
  - apply forallb_forall. rewrite Forall_forall in IH. exact IH.
  - apply forallb_forall. rewrite Forall_forall in IH. intros kv I.
    apply andb_true_iff. split; [apply F | exact (IH kv I)].
Qed.

(** The encoder never writes a carriage return. *)
Lemma dumps_no_cr v m : plain v = true -> forallb not_cr (dumps m v) = true.
Proof.
  intros Pv. apply dumps_chars; [vm_compute; reflexivity | exact Pv |].
  apply all_text_total. intros c. unfold raw, not_cr.
  destruct (c =? 13)%N eqn:E; [|apply orb_true_r].
  apply N.eqb_eq in E. subst. reflexivity.
Qed.



End StateFile.


Lemma scan_once_nil fuel : Json.scan_once fuel [] = None.
Proof. destruct fuel; reflexivity. Qed.

Lemma universal_newlines_blank s :
  forallb Json.is_ws s = true -> forallb Json.is_ws (universal_newlines s) = true.
Proof.
  assert (G : forall n s, (List.length s <= n)%nat -> forallb Json.is_ws s = true ->
                          forallb Json.is_ws (universal_newlines s) = true).
  { induction n as [|n IH]; intros [|c r] L H; try reflexivity; [cbn in L; lia|].
    cbn [List.length] in L. cbn [forallb] in H. apply andb_true_iff in H. destruct H as [C R].
    cbn [universal_newlines]. destruct (c =? 13)%N.
    - cbn [forallb]. change (Json.is_ws 10%N) with true. cbn [andb].
      destruct r as [|c' r']; [reflexivity|].
      cbn [forallb] in R. apply andb_true_iff in R. destruct R as [C' R'].
      destruct (c' =? 10)%N.
      + apply IH; [cbn in L; lia | exact R'].
      + apply IH; [lia|]. cbn [forallb]. rewrite C', R'. reflexivity.
    - cbn [forallb]. rewrite C. apply IH; [lia | exact R]. }
  apply (G (List.length s)). lia.
Qed.

Lemma skip_ws_blank s : forallb Json.is_ws s = true -> Json.skip_ws s = [].
Proof.
  induction s as [|c r IH]; [reflexivity|].
  cbn [forallb Json.skip_ws]. intros H. apply andb_true_iff in H. destruct H as [C R].
  rewrite C. apply IH, R.
Qed.

(** The first 40 characters of the file [save_state] writes for the
    empty defaults: a state file cut short. *)
Definition truncated_file : text :=
  Eval vm_compute in firstn 40 (Json.dumps 0 DEFAULT_STATE).

(** C8, as stated, fails: the state file exists and is malformed, and
    [load_state] raises instead of returning the empty defaults. *)
Lemma malformed_state_aborts :
  load_state (Some truncated_file) = None
  /\ load_state (Some truncated_file) <> Some DEFAULT_STATE.
Proof.
  assert (E : load_state (Some truncated_file) = None) by (vm_compute; reflexivity).
  split; [exact E | rewrite E; discriminate].
Qed.

(** C8, amended.  [load_state] has no fallback.  The empty defaults are
    what it returns when there is no state file; when the file exists,
    the result is what decoding it gives: the defaults only if the file
    holds them, and an exception, which ends the process, whenever the
    contents do not decode, as for an empty or blank file. *)
Theorem load_state_has_no_fallback :
  load_state None = Some DEFAULT_STATE
  /\ (forall content,
        load_state (Some content) = Some DEFAULT_STATE ->
        Json.loads (universal_newlines content) = Some DEFAULT_STATE)
  /\ (forall content,
        Json.loads (universal_newlines content) = None ->
        load_state (Some content) = None)
  /\ (forall content,
        forallb Json.is_ws content = true -> load_state (Some content) = None).
Proof.
  split; [reflexivity|]. split; [intros content H; exact H|].
  split; [intros content H; exact H|].
  intros content B. unfold load_state, Json.loads.
  rewrite (skip_ws_blank _ (universal_newlines_blank _ B)), scan_once_nil. reflexivity.
Qed.

Definition sample_state : State :=
  mkState [lit "0f3a"; lit "77b1"]
          [mkEntry (lit "2024-03-01T11:30:00+09:00") (lit "news") (lit "ACME")
                   (lit "ACME wins order") (lit "http://a/1")]
          1709260200.

Example sample_state_saves :
  exists file, save_state (state_json sample_state) = Some file.
Proof. eexists. vm_compute. reflexivity. Qed.

(* ================================================================== *)
(** * Further properties of the loop *)

(** ** The dedup store across cycles *)

Lemma NoDup_skipn (A : Type) (n : nat) (l : list A) : NoDup l -> NoDup (skipn n l).
Proof.
  intros H. rewrite <- (firstn_skipn n l) in H. exact (NoDup_app_remove_l _ _ H).
Qed.

Lemma record_hash_NoDup (h : text) (seen : list text) :
  NoDup seen -> mem h seen = false -> NoDup (record_hash h seen).
Proof.
  intros N M. unfold record_hash, last_n. apply NoDup_skipn.
  apply NoDup_app; [exact N | repeat constructor; intros [] |].
  intros x I [<- | []]. apply mem_false in M. exact (M I).
Qed.

Lemma record_hash_bound (h : text) (seen : list text) :
  List.length (record_hash h seen) <= SEEN_CAP.
Proof. unfold record_hash. rewrite last_n_length. lia. Qed.

Lemma record_seq_invariant (hs : list text) :
  forall seen, novel_seq seen hs ->
  (NoDup seen -> NoDup (record_seq hs seen))
  /\ (hs <> [] -> List.length (record_seq hs seen) <= SEEN_CAP)
  /\ List.length (record_seq hs seen) <= Nat.max (List.length seen) SEEN_CAP.
Proof.
  induction hs as [|h hs IH]; intros seen N.
  - cbn. repeat split; [auto | congruence | lia].
  - destruct N as [M N]. specialize (IH _ N). destruct IH as (I1 & I2 & I3).
    change (record_seq (h :: hs) seen) with (record_seq hs (record_hash h seen)).
    pose proof (record_hash_bound h seen) as B.
    repeat split.
    + intros D. apply I1, record_hash_NoDup; assumption.
    + intros _. lia.
    + lia.
Qed.

Definition scenario_end : State * list Output := Eval vm_compute in
  match run (mkState [] [] 1709262000) [scenario_cycle1; scenario_cycle2] with
  | Some r => r
  | None => (mkState [] [] 0, [])
  end.

(** X1.  Lines 255-258 and 270-273 keep the store a set of bounded size:
    through any number of cycles a store without duplicates stays without
    duplicates, and its length never exceeds the larger of its initial
    length and 8000; once anything was recorded it is at most 8000. *)
Theorem store_bounded_and_duplicate_free
    (U : UnicodeDB) (st st' : State) (inps : list CycleInput) (outs : list Output) :
  run st inps = Some (st', outs) ->
  (NoDup (seen_hashes st) -> NoDup (seen_hashes st'))
  /\ (flat_map out_newly outs <> [] -> List.length (seen_hashes st') <= SEEN_CAP)
  /\ List.length (seen_hashes st') <= Nat.max (List.length (seen_hashes st)) SEEN_CAP.
Proof.
  intros R. destruct (run_shape _ _ R) as (_ & hs & F & N & E).
  destruct (record_seq_invariant hs _ N) as (I1 & I2 & I3). rewrite E.
  repeat split; [exact I1 | | exact I3].
  intros Hne. apply I2. intros ->. inversion F as [Hn|]. congruence.
Qed.

Lemma store_bounded_and_duplicate_free_witness :
  NoDup (seen_hashes (fst scenario_end))
  /\ List.length (seen_hashes (fst scenario_end)) <= SEEN_CAP.
Proof.
  destruct (@store_bounded_and_duplicate_free basic_db (mkState [] [] 1709262000)
              (fst scenario_end) [scenario_cycle1; scenario_cycle2] (snd scenario_end))
    as (A & B & _).
  - vm_compute. reflexivity.
  - split; [apply A; constructor | apply B; vm_compute; discriminate].
Defined.

Definition scenario_step : State * Output := Eval vm_compute in
  match cycle (mkState [] [] 1709262000) scenario_cycle1 with
  | Some r => r
  | None => (mkState [] [] 0, mkOutput [] [] [] false None)
  end.

(** ** What a cycle lists as new *)

Section Newly.
Context {U : UnicodeDB}.

(** The item came in a fetch and passed the age check of the loop. *)
Definition passed (arrs : list Arrival) (it : Item) : Prop :=
  exists a, In a arrs /\ arr_item a = it /\ too_old (arr_now a) it = false.

Lemma passed_cons a arrs it : passed arrs it -> passed (a :: arrs) it.
Proof. intros (b & I & E & T). exists b. split; [right; exact I | tauto]. Qed.

Lemma passed_app_l a b it : passed a it -> passed (a ++ b) it.
Proof. intros (x & I & E). exists x. split; [apply in_or_app; left; exact I | exact E]. Qed.

Lemma passed_app_r a b it : passed b it -> passed (a ++ b) it.
Proof. intros (x & I & E). exists x. split; [apply in_or_app; right; exact I | exact E]. Qed.

Lemma ingest_passed (arrs : list Arrival) :
  forall acc it, In it (snd (ingest arrs acc)) -> In it (snd acc) \/ passed arrs it.
Proof.
  induction arrs as [|a rest IH]; intros acc it H; [left; exact H|].
  rewrite ingest_cons in H.
  destruct (too_old (arr_now a) (arr_item a)) eqn:T.
  - destruct (IH _ _ H) as [I | P]; [left; exact I | right; apply passed_cons, P].
  - destruct (fp (arr_item a)) as [h|]; [|left; exact H].
    destruct (mem h (fst acc)).
    + destruct (IH _ _ H) as [I | P]; [left; exact I | right; apply passed_cons, P].
    + destruct (IH _ _ H) as [I | P]; [|right; apply passed_cons, P].
      cbn [snd] in I. apply in_app_or in I. destruct I as [I | [<- | []]]; [left; exact I|].
      right. exists a. split; [left; reflexivity | split; [reflexivity | exact T]].
Qed.

Lemma poll_passed (fs : list Fetch) :
  forall acc it, In it (snd (poll fs acc)) ->
                 In it (snd acc) \/ passed (flat_map fetched fs) it.
Proof.
  induction fs as [|f fs IH]; intros acc it H; [left; exact H|].
  change (poll (f :: fs) acc)
    with (poll fs (match f with Fetched l => ingest l acc | FetchError => acc end)) in H.
  cbn [flat_map]. destruct (IH _ _ H) as [I | P]; [|right; apply passed_app_r, P].
  destruct f as [l|]; [|left; exact I]. cbn [fetched].
  destruct (ingest_passed _ _ _ I) as [I' | P]; [left; exact I' | right; apply passed_app_l, P].
Qed.

Lemma novel_seq_NoDup (hs : list text) :
  forall seen, novel_seq seen hs -> List.length hs <= SEEN_CAP -> NoDup hs.
Proof.
  induction hs as [|h hs IH]; intros seen N L; [constructor|].
  destruct N as [M N]. cbn [List.length] in L. constructor; [|apply (IH _ N); lia].
  assert (I : In h (last_n 1 (record_hash h seen))).
  { unfold record_hash. rewrite last_n_last_n by (pose proof SEEN_CAP_pos; lia).
    rewrite last_n_app_long by (cbn; lia). left. reflexivity. }
  destruct (@retained hs _ h 1 N I ltac:(lia)) as [NI _]. exact NI.
Qed.

Lemma cycle_newly (st st' : State) (inp : CycleInput) (out : Output) :
  cycle st inp = Some (st', out) ->
  out_newly out = snd (poll (dart inp) (poll (news inp) (seen_hashes st, []))).
Proof.
  unfold cycle. destruct (poll (dart inp) _) as [seen newly].
  destruct (digest_step _ _) as [[[s f] c]|]; [|discriminate].
  intros E. injection E as _ <-. reflexivity.
Qed.

End Newly.

(** X2.  The items a cycle lists as new (lines 249-276) all came in a
    fetch of that cycle and passed the 90-minute check at the clock reading
    of their arrival.  When at most 8000 are new, no two of them have the
    same fingerprint, and the fingerprint of the first was not in the
    store the cycle started from. *)
Theorem new_items_are_fresh_and_distinct
    (U : UnicodeDB) (st st' : State) (inp : CycleInput) (out : Output) :
  cycle st inp = Some (st', out) ->
  (forall it, In it (out_newly out) -> passed (arrivals inp) it)
  /\ exists hs,
       fps_of (out_newly out) hs
       /\ (List.length (out_newly out) <= SEEN_CAP -> NoDup hs)
       /\ (forall h, hd_error hs = Some h -> mem h (seen_hashes st) = false).
Proof.
  intros C. split.
  - intros it I. rewrite (cycle_newly _ _ C), <- poll_app in I.
    destruct (poll_passed _ _ _ I) as [[] | P]. exact P.
  - destruct (cycle_shape _ _ C) as (_ & _ & _ & hs & F & N & _).
    exists hs. split; [exact F|]. split.
    + intros L. apply (novel_seq_NoDup _ _ N). rewrite (fps_of_length F). exact L.
    + intros h E. destruct hs as [|h' hs']; [discriminate|].
      injection E as ->. exact (proj1 N).
Qed.

Lemma new_items_are_fresh_and_distinct_witness :
  passed (arrivals scenario_cycle1) scenario_news.
Proof.
  refine (proj1 (@new_items_are_fresh_and_distinct basic_db (mkState [] [] 1709262000)
                   (fst scenario_step) scenario_cycle1 (snd scenario_step) _)
                scenario_news _).
  - vm_compute. reflexivity.
  - left. reflexivity.
Defined.

(** ** The digest buffer *)

(** X3.  Line 299 reads back what line 293 wrote: for an item with a
    valid timestamp, the buffer entry made of it parses to the item it was
    made of, so a whole buffer of such entries parses to the items, in
    order. *)
Theorem buffer_entry_round_trip (its : list Item) :
  Forall item_ok its ->
  Forall (fun it => entry_item (snapshot it) = Some it) its
  /\ entry_items (map snapshot its) = Some its.
Proof.
  intros H.
  assert (A : Forall (fun it => entry_item (snapshot it) = Some it) its).
  { eapply Forall_impl; [|exact H]. intros [t s k ti u] V. unfold item_ok in V.
    unfold entry_item, snapshot. cbn [e_ts e_src e_stock e_title e_url ts source stock title url] in *.
    rewrite fromisoformat_isoformat by exact V. reflexivity. }
  split; [exact A|].
  induction A as [|it its E _ IH]; [reflexivity|].
  cbn [map entry_items]. inversion H; subst. rewrite E, IH by assumption. reflexivity.
Qed.

Lemma buffer_entry_round_trip_witness :
  entry_items (map snapshot [scenario_news]) = Some [scenario_news].
Proof.
  apply (@buffer_entry_round_trip [scenario_news]). repeat constructor.
Defined.

(** X4.  After step 4 (lines 289-293), on a buffer of entries the engine
    wrote and new items with valid timestamps, every entry of the buffer
    carries a timestamp not before the cutoff [now - 60 min]; an old entry
    is dropped only when its timestamp is before the cutoff; the entries
    kept stay in their order and the new ones follow them. *)
Theorem buffer_holds_the_last_hour
    (now : datetime) (buf : list Entry) (newly : list Item) :
  let cutoff := dt_minus now (minutes DIGEST_INTERVAL_MIN) in
  valid_datetime cutoff = true -> Forall engine_entry buf -> Forall item_ok newly ->
  Forall (fun d => exists t, valid_datetime t = true /\ e_ts d = isoformat t
                             /\ dt_geb t cutoff = true)
         (update_buffer now buf newly)
  /\ (forall d t, In d buf -> e_ts d = isoformat t -> valid_datetime t = true ->
                  dt_geb t cutoff = true -> In d (update_buffer now buf newly))
  /\ update_buffer now buf newly
     = filter (fun d => text_geb (e_ts d) (isoformat cutoff)) buf
       ++ map snapshot (filter (fun it => dt_geb (ts it) cutoff) newly).
Proof.
  intros cutoff Vc Hb Hn. unfold update_buffer. fold cutoff.
  assert (P : prune_buffer cutoff buf
              = filter (fun d => text_geb (e_ts d) (isoformat cutoff)) buf).
  { unfold prune_buffer. apply filter_ext_in. intros d I.
    rewrite Forall_forall in Hb. destruct (Hb d I) as (t & _ & E).
    rewrite E, isoformat_truthy. reflexivity. }
  split; [|split].
  - apply Forall_app. split.
    + rewrite P. apply Forall_forall. intros d I. apply filter_In in I. destruct I as [I G].
      rewrite Forall_forall in Hb. destruct (Hb d I) as (t & V & E).
      exists t. split; [exact V|]. split; [exact E|].
      rewrite E, isoformat_geb in G by assumption. exact G.
    + unfold buffer_additions. apply Forall_forall. intros d I.
      apply in_map_iff in I. destruct I as (it & <- & I). apply filter_In in I.
      destruct I as [I G]. rewrite Forall_forall in Hn.
      exists (ts it). split; [apply Hn, I|]. split; [reflexivity | exact G].
  - intros d t I E V G. apply in_or_app. left. rewrite P. apply filter_In.
    split; [exact I|]. rewrite E, isoformat_geb by assumption. exact G.
  - rewrite P. reflexivity.
Qed.

Lemma buffer_holds_the_last_hour_witness :
  update_buffer sample_now [sample_old_entry] [scenario_news]
  = filter (fun d => text_geb (e_ts d)
                              (isoformat (dt_minus sample_now (minutes DIGEST_INTERVAL_MIN))))
           [sample_old_entry]
    ++ map snapshot (filter (fun it => dt_geb (ts it)
                                              (dt_minus sample_now (minutes DIGEST_INTERVAL_MIN)))
                            [scenario_news]).
Proof.
  refine (proj2 (proj2 (@buffer_holds_the_last_hour sample_now [sample_old_entry]
                          [scenario_news] _ _ _))).
  - vm_compute. reflexivity.
  - repeat constructor. exists (mkdt 2024 3 1 11 50 0 0). split; vm_compute; reflexivity.
  - repeat constructor.
Defined.



(** A state file edited by hand: the entry's [ts] is not a timestamp, yet
    as a string it is not below the cutoff, so pruning keeps it and the
    next due digest ends the process. *)
Example unreadable_entry_ends_the_process :
  cycle (mkState [] [mkEntry (lit "tomorrow") [] [] [] []] 1709260000)
        (quiet_cycle (1709260000 + 61 * 60)) = None.
Proof. vm_compute. reflexivity. Qed.

(** ** The order of the digest's items *)

Lemma text_cmp_opp (a : text) : forall b, text_cmp b a = CompOpp (text_cmp a b).
Proof.
  induction a as [|x a IH]; intros [|y b]; cbn [text_cmp]; try reflexivity.
  rewrite (N.compare_antisym x y). destruct (x ?= y)%N; cbn; auto.
Qed.

Lemma text_cmp_eq (a : text) : forall b, text_cmp a b = Eq -> a = b.
Proof.
  induction a as [|x a IH]; intros [|y b]; cbn [text_cmp]; try discriminate; [reflexivity|].
  destruct (x ?= y)%N eqn:E; try discriminate.
  apply N.compare_eq in E. intros H. f_equal; [exact E | apply IH, H].
Qed.

Lemma lex_cmp_opp (a : list Z) : forall b, lex_cmp b a = CompOpp (lex_cmp a b).
Proof.
  induction a as [|x a IH]; intros [|y b]; cbn [lex_cmp]; try reflexivity.
  rewrite (Z.compare_antisym x y). destruct (x ?= y)%Z; cbn; auto.
Qed.

Lemma dt_cmp_opp (a b : datetime) : dt_cmp b a = CompOpp (dt_cmp a b).
Proof. apply lex_cmp_opp. Qed.

Lemma dt_cmp_eq (a b : datetime) : dt_cmp a b = Eq -> a = b.
Proof.
  destruct a, b. unfold dt_cmp, dt_fields.
  cbn.
  repeat match goal with
         | |- context [(?x ?= ?y)%Z] =>
           let E := fresh in destruct (x ?= y)%Z eqn:E;
           [apply Z.compare_eq in E; subst | discriminate | discriminate]
         end.
  reflexivity.
Qed.

(** [a] and [b] have the same sort key [(stock, ts)]. *)
Definition key_eqb (a b : Item) : bool :=
  match text_cmp (stock a) (stock b), dt_cmp (ts a) (ts b) with
  | Eq, Eq => true
  | _, _ => false
  end.

Lemma key_eqb_eq (a b : Item) :
  key_eqb a b = true -> stock a = stock b /\ ts a = ts b.
Proof.
  unfold key_eqb. destruct (text_cmp (stock a) (stock b)) eqn:S; try discriminate.
  destruct (dt_cmp (ts a) (ts b)) eqn:T; try discriminate.
  intros _. split; [exact (text_cmp_eq _ _ S) | exact (dt_cmp_eq _ _ T)].
Qed.

Lemma key_le_total (a b : Item) : key_le a b = false -> key_le b a = true.
Proof.
  unfold key_le. rewrite (text_cmp_opp (stock a) (stock b)), (dt_cmp_opp (ts a) (ts b)).
  destruct (text_cmp (stock a) (stock b)); cbn [CompOpp]; try discriminate; try reflexivity.
  destruct (dt_cmp (ts a) (ts b)); cbn [CompOpp]; try discriminate; reflexivity.
Qed.

Lemma key_le_same (k a b : Item) :
  key_eqb k a = true -> key_eqb k b = true -> key_le a b = true.
Proof.
  intros A B. apply key_eqb_eq in A, B. destruct A as [A1 A2], B as [B1 B2].
  unfold key_le. rewrite <- A1, <- B1, <- A2, <- B2, text_cmp_refl.
  assert (E : dt_cmp (ts k) (ts k) = Eq).
  { pose proof (dt_cmp_opp (ts k) (ts k)) as O. destruct (dt_cmp (ts k) (ts k)); auto; discriminate. }
  rewrite E. reflexivity.
Qed.

Definition key_ordered (a b : Item) : Prop := key_le a b = true.

Lemma insert_sorted_perm (x : Item) (l : list Item) :
  Permutation (insert_sorted x l) (x :: l).
Proof.
  induction l as [|y r IH]; cbn [insert_sorted]; [reflexivity|].
  destruct (key_le x y); [reflexivity|].
  rewrite IH. apply perm_swap.
Qed.

Lemma insert_sorted_sorted (x : Item) (l : list Item) :
  Sorted key_ordered l -> Sorted key_ordered (insert_sorted x l).
Proof.
  induction 1 as [|y r S IH H]; cbn [insert_sorted]; [repeat constructor|].
  destruct (key_le x y) eqn:E.
  - constructor; [constructor; assumption | constructor; exact E].
  - constructor; [exact IH|].
    destruct r as [|z r']; cbn [insert_sorted].
    + constructor. apply key_le_total, E.
    + destruct (key_le x z); constructor; [apply key_le_total, E|].
      inversion H; assumption.
Qed.

Lemma insert_sorted_stable (k x : Item) (l : list Item) :
  filter (key_eqb k) (insert_sorted x l) = filter (key_eqb k) (x :: l).
Proof.
  induction l as [|y r IH]; cbn [insert_sorted]; [reflexivity|].
  destruct (key_le x y) eqn:E; [reflexivity|].
  cbn [filter] in *. rewrite IH.
  destruct (key_eqb k x) eqn:Kx, (key_eqb k y) eqn:Ky; try reflexivity.
  rewrite (key_le_same k x y Kx Ky) in E. discriminate.
Qed.

Lemma sort_items_perm (l : list Item) : Permutation (sort_items l) l.
Proof.
  unfold sort_items. induction l as [|x l IH]; cbn [fold_right]; [constructor|].
  rewrite insert_sorted_perm. constructor. exact IH.
Qed.

Lemma sort_items_sorted (l : list Item) : Sorted key_ordered (sort_items l).
Proof.
  unfold sort_items. induction l as [|x l IH]; cbn [fold_right]; [constructor|].
  apply insert_sorted_sorted, IH.
Qed.

Lemma sort_items_stable (k : Item) (l : list Item) :
  filter (key_eqb k) (sort_items l) = filter (key_eqb k) l.
Proof.
  unfold sort_items. induction l as [|x l IH]; cbn [fold_right]; [reflexivity|].
  rewrite insert_sorted_stable. cbn [filter]. rewrite IH. reflexivity.
Qed.

(** X6.  [sort_items] is the stable sort by [(stock, ts)] that line 303
    asks for: the result is a rearrangement of the items, each is followed
    by one whose key is not smaller, and items with the same key keep the
    order they had. *)
Theorem sort_items_is_a_stable_sort (l : list Item) :
  Permutation (sort_items l) l
  /\ Sorted key_ordered (sort_items l)
  /\ forall k, filter (key_eqb k) (sort_items l) = filter (key_eqb k) l.
Proof.
  split; [apply sort_items_perm|]. split; [apply sort_items_sorted|].
  intros k. apply sort_items_stable.
Qed.

Lemma entry_items_In (buf : list Entry) :
  forall its x, entry_items buf = Some its -> In x its ->
                exists d, In d buf /\ entry_item d = Some x.
Proof.
  induction buf as [|d r IH]; intros its x E I; cbn [entry_items] in E.
  - injection E as <-. destruct I.
  - destruct (entry_item d) as [it|] eqn:Ed; [|discriminate].
    destruct (entry_items r) as [its'|]; [|discriminate].
    injection E as <-. destruct I as [<- | I].
    + exists d. split; [left; reflexivity | exact Ed].
    + destruct (IH _ _ eq_refl I) as (d' & I' & E'). exists d'. split; [right; exact I' | exact E'].
Qed.

(** X7.  When a cycle calls the summarizer (lines 298-308), the digest
    branch was taken, the list handed over is not empty, is in
    [(stock, ts)] order, holds only items not before [now - 60 min] at the
    second clock reading, each read back from an entry of the buffer that
    step 4 left, and the recorded outcome is the one of that call. *)
Theorem digest_call_content
    (U : UnicodeDB) (st st' : State) (inp : CycleInput) (out : Output)
    (items : list Item) (ok : bool) :
  cycle st inp = Some (st', out) ->
  out_digest out = Some (items, ok) ->
  out_fired out = true
  /\ ok = digest_ok inp items
  /\ items <> []
  /\ Sorted key_ordered items
  /\ Forall (fun x => dt_geb (ts x) (dt_minus (now_digest inp) (minutes DIGEST_INTERVAL_MIN))
                      = true) items
  /\ forall x, In x items ->
       exists d, In d (update_buffer (now_buffer inp) (digest_buffer st) (out_newly out))
                 /\ entry_item d = Some x.
Proof.
  intros C D. pose proof (cycle_newly _ _ C) as N. unfold cycle in C.
  destruct (poll (dart inp) (poll (news inp) (seen_hashes st, []))) as [seen newly].
  cbn [snd] in N. unfold digest_step in C.
  cbn [digest_buffer last_digest_unix seen_hashes] in C.
  destruct (need_digest _ _ _); [|injection C as _ <-; discriminate].
  destruct (entry_items _) as [its|] eqn:E; [|discriminate].
  set (win := filter _ its) in C.
  assert (W : forall x, In x win -> In x its
                        /\ dt_geb (ts x) (dt_minus (now_digest inp) (minutes DIGEST_INTERVAL_MIN))
                           = true).
  { intros x I. apply filter_In in I. exact I. }
  destruct win as [|w win'] eqn:Ew; injection C as _ <-; cbn [out_digest out_fired out_newly] in *;
    [discriminate|].
  cbv zeta in D. injection D as Ei Eo. symmetry in Ei, Eo.
  change (insert_sorted w (sort_items win')) with (sort_items (w :: win')) in Ei, Eo.
  rewrite <- Ei in Eo.
  pose proof (sort_items_perm (w :: win')) as P.
  pose proof (sort_items_sorted (w :: win')) as S.
  rewrite <- Ei in P, S.
  repeat split; try assumption.
  - intros Z. rewrite Z in P. apply Permutation_nil in P. discriminate.
  - apply Forall_forall. intros x I. apply (Permutation_in _ P) in I. apply W, I.
  - intros x I. apply (Permutation_in _ P) in I. destruct (W x I) as [I' _].
    exact (@entry_items_In _ _ x E I').
Qed.

Definition digest_scenario_end : State * Output := Eval vm_compute in
  match cycle (mkState [] [sample_old_entry] 1709260000)
              (quiet_cycle (1709260000 + 61 * 60)) with
  | Some r => r
  | None => (mkState [] [] 0, mkOutput [] [] [] false None)
  end.

Lemma digest_call_content_witness :
  out_fired (snd digest_scenario_end) = true.
Proof.
  refine (proj1 (@digest_call_content basic_db (mkState [] [sample_old_entry] 1709260000)
                   (fst digest_scenario_end) (quiet_cycle (1709260000 + 61 * 60))
                   (snd digest_scenario_end)
                   (match out_digest (snd digest_scenario_end) with
                    | Some (i, _) => i
                    | None => []
                    end)
                   false _ _)).
  - vm_compute. reflexivity.
  - vm_compute. reflexivity.
Defined.

(* ================================================================== *)
(** ** The calendar: ordinals, comparison and subtraction *)

Module CalendarFacts.
Import Calendar.
Local Open Scope Z_scope.

Definition year_length (y : Z) : Z := if is_leap y then 366 else 365.

Lemma days_before_year_succ y :
  days_before_year (y + 1) = days_before_year y + year_length y.
Proof.
  unfold days_before_year, year_length, is_leap. cbv zeta.
  replace (y + 1 - 1) with y by lia.
  destruct (y mod 4 =? 0) eqn:E4; destruct (y mod 100 =? 0) eqn:E100;
    destruct (y mod 400 =? 0) eqn:E400; cbn [andb orb negb];
    rewrite ?Z.eqb_eq, ?Z.eqb_neq in *; Z.div_mod_to_equations; lia.
Qed.

Lemma days_before_year_mono y y' : y <= y' -> days_before_year y <= days_before_year y'.
Proof. unfold days_before_year. cbv zeta. intros H. Z.div_mod_to_equations. lia. Qed.

(** The months as a list, to settle facts about them by computation. *)
Definition months : list Z := [1; 2; 3; 4; 5; 6; 7; 8; 9; 10; 11; 12].

Lemma months_In m : 1 <= m <= 12 -> In m months.
Proof. intros H. unfold months. cbn. lia. Qed.

Definition dim (leap : bool) (m : Z) : Z :=
  if (m =? 2) && leap then 29 else nth (Z.to_nat m) DAYS_IN_MONTH 0.

Definition dbm (leap : bool) (m : Z) : Z :=
  nth (Z.to_nat m) DAYS_BEFORE_MONTH 0 + (if (2 <? m) && leap then 1 else 0).

Lemma month_table (leap : bool) (m m' : Z) :
  1 <= m <= 12 -> 1 <= m' <= 12 ->
  0 <= dbm leap m
  /\ 28 <= dim leap m <= 31
  /\ dbm leap m + dim leap m <= (if leap then 366 else 365)
  /\ (m < m' -> dbm leap m + dim leap m <= dbm leap m').
Proof.
  intros Hm Hm'.
  assert (A : forallb (fun l =>
                forallb (fun a =>
                  forallb (fun b =>
                    (0 <=? dbm l a) && (28 <=? dim l a) && (dim l a <=? 31)
                    && (dbm l a + dim l a <=? (if l then 366 else 365))
                    && (negb (a <? b) || (dbm l a + dim l a <=? dbm l b)))
                  months) months) [true; false] = true) by (vm_compute; reflexivity).
  rewrite forallb_forall in A.
  assert (Il : In leap [true; false]) by (destruct leap; cbn; tauto).
  specialize (A leap Il). rewrite forallb_forall in A.
  specialize (A m (months_In Hm)). rewrite forallb_forall in A.
  specialize (A m' (months_In Hm')).
  rewrite !andb_true_iff, orb_true_iff, negb_true_iff, !Z.leb_le, Z.ltb_ge in A.
  destruct A as ((((A1 & A2) & A3) & A4) & A5).
  repeat split; try assumption. intros L. destruct A5 as [A5 | A5]; [lia | exact A5].
Qed.

Definition valid_date (y m d : Z) : Prop :=
  1 <= y /\ 1 <= m <= 12 /\ 1 <= d <= days_in_month y m.

Lemma ymd2ord_bounds y m d :
  valid_date y m d ->
  days_before_year y < ymd2ord y m d <= days_before_year y + year_length y.
Proof.
  intros (Hy & Hm & Hd). unfold ymd2ord.
  change (days_before_month y m) with (dbm (is_leap y) m).
  change (days_in_month y m) with (dim (is_leap y) m) in Hd.
  destruct (month_table (is_leap y) Hm Hm) as (A1 & A2 & A3 & _).
  unfold year_length. lia.
Qed.

(** Dates in calendar order have ordinals in the same order. *)
Lemma ymd2ord_lt y m d y' m' d' :
  valid_date y m d -> valid_date y' m' d' ->
  (y < y' \/ (y = y' /\ (m < m' \/ (m = m' /\ d < d')))) ->
  ymd2ord y m d < ymd2ord y' m' d'.
Proof.
  intros V V' H.
  destruct H as [H | (-> & [H | (-> & H)])].
  - pose proof (ymd2ord_bounds V) as B. pose proof (ymd2ord_bounds V') as B'.
    pose proof (days_before_year_succ y) as S.
    pose proof (@days_before_year_mono (y + 1) y' ltac:(lia)). lia.
  - destruct V as (Hy & Hm & Hd), V' as (_ & Hm' & Hd'). unfold ymd2ord.
    change (days_before_month y' m) with (dbm (is_leap y') m).
    change (days_before_month y' m') with (dbm (is_leap y') m').
    change (days_in_month y' m) with (dim (is_leap y') m) in Hd.
    destruct (month_table (is_leap y') Hm Hm') as (_ & _ & _ & A). specialize (A H). lia.
  - unfold ymd2ord. lia.
Qed.


Lemma valid_datetime_bounds (d : datetime) :
  valid_datetime d = true ->
  valid_date (year d) (month d) (day d) /\ year d <= 9999
  /\ 0 <= hour d <= 23 /\ 0 <= minute d <= 59 /\ 0 <= second d <= 59
  /\ 0 <= microsecond d <= 999999.
Proof.
  unfold valid_datetime, valid_date. rewrite !andb_true_iff, !Z.leb_le. tauto.
Qed.

(** Comparing two datetimes field by field is comparing their instants. *)
Lemma dt_cmp_us (a b : datetime) :
  valid_datetime a = true -> valid_datetime b = true ->
  dt_cmp a b = (dt_us a ?= dt_us b).
Proof.
  intros Va Vb.
  destruct (valid_datetime_bounds a Va) as (Da & _ & Ha & Ma & Sa & Ua).
  destruct (valid_datetime_bounds b Vb) as (Db & _ & Hb & Mb & Sb & Ub).
  destruct a as [ya ma da ha mia sa ua], b as [yb mb db hb mib sb ub].
  cbn [year month day hour minute second microsecond] in *.
  unfold dt_cmp, dt_fields, dt_us.
  cbn [lex_cmp year month day hour minute second microsecond].
  assert (Lt_ : forall x y : Z, x < y -> Lt = (x ?= y)) by (intros; symmetry; apply Z.compare_lt_iff; lia).
  assert (Gt_ : forall x y : Z, y < x -> Gt = (x ?= y)) by (intros; symmetry; apply Z.compare_gt_iff; lia).
  destruct (Z.compare_spec ya yb) as [-> | L | L].
  2: { apply Lt_. pose proof (@ymd2ord_lt ya ma da yb mb db Da Db ltac:(lia)). lia. }
  2: { apply Gt_. pose proof (@ymd2ord_lt yb mb db ya ma da Db Da ltac:(lia)). lia. }
  destruct (Z.compare_spec ma mb) as [-> | L | L].
  2: { apply Lt_. pose proof (@ymd2ord_lt yb ma da yb mb db Da Db ltac:(lia)). lia. }
  2: { apply Gt_. pose proof (@ymd2ord_lt yb mb db yb ma da Db Da ltac:(lia)). lia. }
  destruct (Z.compare_spec da db) as [-> | L | L].
  2: { apply Lt_. unfold ymd2ord. lia. }
  2: { apply Gt_. unfold ymd2ord. lia. }
  generalize (ymd2ord yb mb db). intros o.
  destruct (Z.compare_spec ha hb) as [-> | L | L]; [|apply Lt_; lia | apply Gt_; lia].
  destruct (Z.compare_spec mia mib) as [-> | L | L]; [|apply Lt_; lia | apply Gt_; lia].
  destruct (Z.compare_spec sa sb) as [-> | L | L]; [|apply Lt_; lia | apply Gt_; lia].
  destruct (Z.compare_spec ua ub) as [-> | L | L]; [|apply Lt_; lia | apply Gt_; lia].
  symmetry. apply Z.compare_refl.
Qed.


(** The month and day of the day [n] (from 0) of a year, as the last
    lines of [_ord2ymd] find them. *)
Definition month_day (leapyear : bool) (n : Z) : Z * Z :=
  let m := (n + 50) / 32 in
  let preceding :=
    nth (Z.to_nat m) DAYS_BEFORE_MONTH 0 + (if (2 <? m) && leapyear then 1 else 0) in
  if n <? preceding then
    let m' := m - 1 in
    let preceding' :=
      preceding - (nth (Z.to_nat m') DAYS_IN_MONTH 0
                   + (if (m' =? 2) && leapyear then 1 else 0)) in
    (m', n - preceding' + 1)
  else (m, n - preceding + 1).

Lemma month_day_spec (leap : bool) (n : Z) :
  0 <= n < 365 ->
  let '(m, d) := month_day leap n in
  1 <= m <= 12 /\ 1 <= d <= dim leap m /\ dbm leap m + d = n + 1.
Proof.
  intros H.
  assert (A : forallb (fun l =>
                forallb (fun k =>
                  let '(m, d) := month_day l (Z.of_nat k) in
                  (1 <=? m) && (m <=? 12) && (1 <=? d) && (d <=? dim l m)
                  && (dbm l m + d =? Z.of_nat k + 1))
                (seq 0 365)) [true; false] = true) by (vm_compute; reflexivity).
  rewrite forallb_forall in A.
  assert (Il : In leap [true; false]) by (destruct leap; cbn; tauto).
  specialize (A leap Il). rewrite forallb_forall in A.
  specialize (A (Z.to_nat n)). rewrite Z2Nat.id in A by lia.
  assert (I : In (Z.to_nat n) (seq 0 365)) by (apply in_seq; lia).
  specialize (A I). destruct (month_day leap n) as [m d].
  rewrite !andb_true_iff, !Z.leb_le, Z.eqb_eq in A. lia.
Qed.

Lemma ord2ymd_eq (n0 : Z) :
  ord2ymd n0
  = let n := n0 - 1 in
    let n400 := n / 146097 in
    let r400 := n mod 146097 in
    let n100 := r400 / 36524 in
    let r100 := r400 mod 36524 in
    let n4 := r100 / 1461 in
    let r4 := r100 mod 1461 in
    let n1 := r4 / 365 in
    let r := r4 mod 365 in
    let y := n400 * 400 + 1 + n100 * 100 + n4 * 4 + n1 in
    if (n1 =? 4) || (n100 =? 4) then (y - 1, 12, 31)
    else let '(m, d) := month_day ((n1 =? 3) && (negb (n4 =? 24) || (n100 =? 3))) r in
         (y, m, d).
Proof.
  unfold ord2ymd, month_day. cbv zeta.
  destruct ((_ =? 4) || (_ =? 4)); [reflexivity|].
  destruct (_ <? _); reflexivity.
Qed.

(** [_ord2ymd] inverts [_ymd2ord]: the date found for an ordinal is a
    valid date with that ordinal. *)
Lemma ord2ymd_spec (n0 : Z) :
  1 <= n0 ->
  let '(y, m, d) := ord2ymd n0 in
  valid_date y m d /\ ymd2ord y m d = n0.
Proof.
  intros H. rewrite ord2ymd_eq. cbv zeta.
  set (n := n0 - 1).
  set (n400 := n / 146097). set (r400 := n mod 146097).
  set (n100 := r400 / 36524). set (r100 := r400 mod 36524).
  set (n4 := r100 / 1461). set (r4 := r100 mod 1461).
  set (n1 := r4 / 365). set (r := r4 mod 365).
  assert (B : 0 <= n400 /\ 0 <= n100 <= 4 /\ 0 <= n4 <= 24 /\ 0 <= n1 <= 4
              /\ 0 <= r < 365
              /\ n = n400 * 146097 + n100 * 36524 + n4 * 1461 + n1 * 365 + r
              /\ (n100 = 4 -> n4 = 0 /\ n1 = 0 /\ r = 0)
              /\ (n1 = 4 -> r = 0 /\ n4 <= 23)).
  { subst n400 r400 n100 r100 n4 r4 n1 r. Z.div_mod_to_equations. lia. }
  destruct B as (B400 & B100 & B4 & B1 & Br & En & X100 & X1).
  clearbody n400 r400 n100 r100 n4 r4 n1 r.
  set (y := n400 * 400 + 1 + n100 * 100 + n4 * 4 + n1).
  destruct ((n1 =? 4) || (n100 =? 4)) eqn:Ex.
  - assert (Y : 1 <= y - 1) by (apply orb_true_iff in Ex; rewrite !Z.eqb_eq in Ex; subst y; lia).
    assert (L : is_leap (y - 1) = true /\ days_before_year (y - 1) + 365 = n).
    { apply orb_true_iff in Ex. rewrite !Z.eqb_eq in Ex.
      unfold is_leap, days_before_year. cbv zeta. subst y.
      rewrite andb_true_iff, orb_true_iff, negb_true_iff, !Z.eqb_eq, Z.eqb_neq.
      destruct Ex as [Ex | Ex].
      - destruct (X1 Ex) as [-> ?]. subst n1.
        assert (n100 <= 3 \/ n100 = 4) by lia.
        Z.div_mod_to_equations. lia.
      - destruct (X100 Ex) as (-> & -> & ->). subst n100. Z.div_mod_to_equations. lia. }
    destruct L as [L D]. unfold valid_date, ymd2ord.
    change (days_in_month (y - 1) 12) with (dim (is_leap (y - 1)) 12).
    change (days_before_month (y - 1) 12) with (dbm (is_leap (y - 1)) 12).
    rewrite L. change (dim true 12) with 31. change (dbm true 12) with 335.
    subst n. lia.
  - apply orb_false_iff in Ex. rewrite !Z.eqb_neq in Ex. destruct Ex as [N1 N100].
    set (leap := (n1 =? 3) && (negb (n4 =? 24) || (n100 =? 3))).
    assert (L : is_leap y = leap /\ days_before_year y = n - r).
    { unfold is_leap, days_before_year. cbv zeta. subst y leap. split.
      - apply eq_true_iff_eq.
        rewrite !andb_true_iff, !orb_true_iff, !negb_true_iff, !Z.eqb_eq, !Z.eqb_neq.
        Z.div_mod_to_equations. lia.
      - Z.div_mod_to_equations. lia. }
    destruct L as [L D].
    pose proof (month_day_spec leap Br) as M. destruct (month_day leap r) as [m d].
    destruct M as (Mm & Md & Mo).
    unfold valid_date, ymd2ord.
    change (days_in_month y m) with (dim (is_leap y) m).
    change (days_before_month y m) with (dbm (is_leap y) m).
    rewrite L. subst y n. lia.
Qed.


(** The instants of the years 1 to 9999, in microseconds. *)
Definition in_calendar (t : Z) : Prop :=
  86400000000 <= t < 3652060 * 86400000000.

Lemma year_of_ordinal y m d :
  valid_date y m d -> ymd2ord y m d < 3652060 -> y <= 9999.
Proof.
  intros V H. pose proof (ymd2ord_bounds V) as B.
  destruct (Z_le_gt_dec y 9999) as [L | G]; [exact L|].
  pose proof (@days_before_year_mono 10000 y ltac:(lia)) as M.
  change (days_before_year 10000) with 3652059 in M. lia.
Qed.

Lemma dt_of_us_spec (t : Z) :
  in_calendar t -> valid_datetime (dt_of_us t) = true /\ dt_us (dt_of_us t) = t.
Proof.
  intros [Lo Hi]. unfold dt_of_us. cbv zeta.
  set (days := t / 86400000000). set (r := t mod 86400000000).
  assert (D : 1 <= days < 3652060 /\ 0 <= r < 86400000000 /\ t = days * 86400000000 + r).
  { subst days r. Z.div_mod_to_equations. lia. }
  destruct D as (Dd & Dr & Et).
  pose proof (ord2ymd_spec (proj1 Dd)) as O.
  destruct (ord2ymd days) as [[y m] d]. destruct O as (V & E).
  pose proof (@year_of_ordinal y m d V ltac:(lia)) as Y.
  destruct V as (Vy & Vm & Vd).
  set (secs := r / 1000000).
  assert (S : 0 <= secs < 86400 /\ r = secs * 1000000 + r mod 1000000
              /\ 0 <= r mod 1000000 < 1000000).
  { subst secs. Z.div_mod_to_equations. lia. }
  destruct S as (Ss & Er & Su).
  assert (F : 0 <= secs / 3600 <= 23 /\ 0 <= secs mod 3600 / 60 <= 59
              /\ 0 <= secs mod 60 <= 59
              /\ secs = secs / 3600 * 3600 + secs mod 3600 / 60 * 60 + secs mod 60).
  { Z.div_mod_to_equations. lia. }
  destruct F as (Fh & Fm & Fs & Es).
  split.
  - unfold valid_datetime. cbn [year month day hour minute second microsecond].
    rewrite !andb_true_iff, !Z.leb_le. lia.
  - unfold dt_us. rewrite E. lia.
Qed.

Lemma dt_us_in_calendar (d : datetime) : valid_datetime d = true -> in_calendar (dt_us d).
Proof.
  intros V. destruct (valid_datetime_bounds d V) as (Vd & Y & Hh & Hm & Hs & Hu).
  pose proof (ymd2ord_bounds Vd) as B.
  pose proof (@days_before_year_mono 1 (year d) ltac:(destruct Vd; lia)) as M1.
  pose proof (@days_before_year_mono (year d + 1) 10000 ltac:(lia)) as M2.
  rewrite days_before_year_succ in M2.
  change (days_before_year 1) with 0 in M1. change (days_before_year 10000) with 3652059 in M2.
  destruct d as [y m dd hh mi ss us]. cbn [year month day hour minute second microsecond] in *.
  unfold in_calendar, dt_us. lia.
Qed.

Lemma dt_of_us_us (d : datetime) : valid_datetime d = true -> dt_of_us (dt_us d) = d.
Proof.
  intros V. destruct (dt_of_us_spec (dt_us_in_calendar d V)) as [V' E].
  pose proof (@dt_cmp_us _ _ V' V) as C. rewrite E, Z.compare_refl in C.
  destruct (dt_of_us (dt_us d)) as [y m dd hh mi ss us] eqn:Ed.
  destruct d as [y' m' dd' hh' mi' ss' us'].
  unfold dt_cmp, dt_fields in C. cbn [lex_cmp year month day hour minute second microsecond] in C.
  repeat match type of C with
         | context [(?a ?= ?b)] =>
           let X := fresh in destruct (Z.compare_spec a b) as [X | X | X]; try discriminate; subst
         end.
  reflexivity.
Qed.

End CalendarFacts.

(** X8.  The two ways the loop relates timestamps agree: comparing two
    datetimes of the zone (lines 292 and 302) gives the order of the
    instants that subtraction (line 88) measures; [a >= b] holds exactly
    when [a - b] is not negative, and a zero difference means equal
    datetimes. *)
Theorem comparison_is_chronological (a b : datetime) :
  valid_datetime a = true -> valid_datetime b = true ->
  dt_cmp a b = (dt_us a ?= dt_us b)%Z
  /\ (dt_geb a b = true <-> (0 <= dt_sub a b)%Z)
  /\ (dt_sub a b = 0%Z -> a = b).
Proof.
  intros Va Vb. pose proof (CalendarFacts.dt_cmp_us a b Va Vb) as C.
  split; [exact C|]. split.
  - unfold dt_geb, dt_sub. rewrite C.
    destruct (Z.compare_spec (dt_us a) (dt_us b)); split; intros; try discriminate;
      try reflexivity; lia.
  - unfold dt_sub. intros E.
    rewrite <- (CalendarFacts.dt_of_us_us a Va), <- (CalendarFacts.dt_of_us_us b Vb).
    f_equal. lia.
Qed.

Lemma comparison_is_chronological_witness :
  dt_geb sample_now (mkdt 2024 2 29 23 59 59 999999) = true
  <-> (0 <= dt_sub sample_now (mkdt 2024 2 29 23 59 59 999999))%Z.
Proof.
  refine (proj1 (proj2 (@comparison_is_chronological sample_now
                          (mkdt 2024 2 29 23 59 59 999999) _ _)));
    vm_compute; reflexivity.
Defined.

(** X9.  [now() - timedelta(minutes=60)] (lines 289 and 301) is the
    datetime 60 minutes before [now], and the guard [it.ts >= cutoff]
    (lines 292 and 302) holds exactly when the item is at most 60 minutes
    old: the digest window is closed at 60 minutes, as the age window is
    at 90.  So step 4 appends the new items that are at most 60 minutes
    old at its clock reading, in their order. *)
Theorem digest_window_is_sixty_minutes (now : datetime) (delta : Z) :
  valid_datetime now = true ->
  CalendarFacts.in_calendar (dt_us now - delta) ->
  valid_datetime (dt_minus now delta) = true
  /\ dt_sub now (dt_minus now delta) = delta
  /\ (forall t, valid_datetime t = true ->
        (dt_geb t (dt_minus now delta) = true <-> (dt_sub now t <= delta)%Z))
  /\ (forall newly, Forall item_ok newly ->
        buffer_additions (dt_minus now delta) newly
        = map snapshot (filter (fun it => (dt_sub now (ts it) <=? delta)%Z) newly)).
Proof.
  intros V R. unfold dt_minus.
  destruct (CalendarFacts.dt_of_us_spec R) as [Vc Ec].
  assert (G : forall t, valid_datetime t = true ->
                (dt_geb t (dt_of_us (dt_us now - delta)) = true <-> (dt_sub now t <= delta)%Z)).
  { intros t Vt. unfold dt_geb, dt_sub. rewrite (CalendarFacts.dt_cmp_us _ _ Vt Vc), Ec.
    destruct (Z.compare_spec (dt_us t) (dt_us now - delta)); split; intros; try discriminate;
      try reflexivity; lia. }
  split; [exact Vc|]. split; [unfold dt_sub; rewrite Ec; lia|]. split; [exact G|].
  intros newly Hn. unfold buffer_additions. f_equal. apply filter_ext_in.
  intros it I. rewrite Forall_forall in Hn. specialize (G (ts it) (Hn it I)).
  destruct (dt_geb (ts it) _), (dt_sub now (ts it) <=? delta)%Z eqn:L; try reflexivity.
  - apply Z.leb_gt in L. pose proof (proj1 G eq_refl). lia.
  - apply Z.leb_le in L. pose proof (proj2 G L). discriminate.
Qed.

Lemma digest_window_is_sixty_minutes_witness :
  dt_sub sample_now (dt_minus sample_now (minutes DIGEST_INTERVAL_MIN))
  = minutes DIGEST_INTERVAL_MIN.
Proof.
  refine (proj1 (proj2 (@digest_window_is_sixty_minutes sample_now
                          (minutes DIGEST_INTERVAL_MIN) _ _))).
  - vm_compute. reflexivity.
  - vm_compute. split; [discriminate | reflexivity].
Defined.

(* ================================================================== *)
(** ** The pause between cycles (lines 316-317) *)

Definition POLL_INTERVAL_SEC : Z := 120.

(** [int(x)] for a float: the integer part, towards zero. *)
Definition trunc (x : Q) : Z := Z.quot (Qnum x) (Zpos (Qden x)).

(** [max(5, POLL_INTERVAL_SEC - int(elapsed))], with the elapsed time of
    the cycle as the rational the float stands for. *)
Definition sleep_seconds (elapsed : Q) : Z :=
  Z.max 5 (POLL_INTERVAL_SEC - trunc elapsed).

Lemma trunc_floor (x : Q) :
  (0 <= x)%Q -> (inject_Z (trunc x) <= x)%Q /\ (x < inject_Z (trunc x + 1))%Q
                /\ (0 <= trunc x)%Z.
Proof.
  destruct x as [n d]. unfold Qle, Qlt, trunc, inject_Z. cbn [Qnum Qden].
  intros H. assert (N : (0 <= n)%Z) by lia.
  rewrite Z.quot_div_nonneg by lia.
  pose proof (Z.div_mod n (Zpos d) ltac:(lia)) as E.
  pose proof (Z.mod_pos_bound n (Zpos d) ltac:(lia)) as B.
  pose proof (Z.div_pos n (Zpos d) N ltac:(lia)) as P.
  set (q := (n / Zpos d)%Z) in *. set (r := (n mod Zpos d)%Z) in *.
  clearbody q r. repeat split; try lia.
Qed.

(** X10.  The loop never sleeps less than 5 seconds.  When the cycle took
    a non-negative time, it sleeps at most 120 seconds and the cycle and
    its pause together last at least the polling interval; they last less
    than a second more when the cycle took at most 115 seconds, and from
    115 seconds on the pause is the 5-second floor. *)
Theorem sleep_bounds (elapsed : Q) :
  (5 <= sleep_seconds elapsed)%Z
  /\ ((0 <= elapsed)%Q ->
      (sleep_seconds elapsed <= POLL_INTERVAL_SEC)%Z
      /\ (inject_Z POLL_INTERVAL_SEC <= elapsed + inject_Z (sleep_seconds elapsed))%Q)
  /\ ((0 <= elapsed)%Q -> (elapsed <= inject_Z 115)%Q ->
      (elapsed + inject_Z (sleep_seconds elapsed) < inject_Z (POLL_INTERVAL_SEC + 1))%Q)
  /\ ((inject_Z 115 <= elapsed)%Q -> sleep_seconds elapsed = 5%Z).
Proof.
  unfold sleep_seconds, POLL_INTERVAL_SEC.
  split; [lia|]. split; [|split].
  - intros H. destruct (trunc_floor H) as (A & B & C). split; [lia|].
    assert (S : (inject_Z (120 - trunc elapsed) <= inject_Z (Z.max 5 (120 - trunc elapsed)))%Q)
      by (rewrite <- Zle_Qle; lia).
    apply Qle_trans with (inject_Z (trunc elapsed) + inject_Z (120 - trunc elapsed))%Q.
    + rewrite <- inject_Z_plus, <- Zle_Qle. lia.
    + apply Qplus_le_compat; assumption.
  - intros H L. destruct (trunc_floor H) as (A & B & C).
    assert (T : (trunc elapsed <= 115)%Z).
    { rewrite Zle_Qle. eapply Qle_trans; [exact A | exact L]. }
    replace (Z.max 5 (120 - trunc elapsed)) with (120 - trunc elapsed)%Z by lia.
    apply Qlt_le_trans with (inject_Z (trunc elapsed + 1) + inject_Z (120 - trunc elapsed))%Q.
    + apply Qplus_lt_le_compat; [exact B | apply Qle_refl].
    + rewrite <- inject_Z_plus, <- Zle_Qle. lia.
  - intros L.
    assert (H : (0 <= elapsed)%Q) by (eapply Qle_trans; [|exact L]; discriminate).
    destruct (trunc_floor H) as (A & B & C).
    assert (T : (115 < trunc elapsed + 1)%Z).
    { rewrite Zlt_Qlt. eapply Qle_lt_trans; [exact L | exact B]. }
    lia.
Qed.

(* ================================================================== *)
(** ** [fetch_google_news] (lines 123-135) *)

(** An entry of the parsed feed.  [published] is [pub_ts], the datetime
    that [published_parsed] converts to, or [None] when the entry has no
    usable [published_parsed]. *)
Record FeedEntry := mkFeedEntry
  { published : option datetime; fe_title : text; fe_link : text }.

Definition SOURCE_NEWS : text := Eval vm_compute in lit "news".

(** The body of the loop over [feed.entries[:30]]; each entry comes with
    the clock reading of its [minutes_ago]. *)
Definition news_item (stock_name : text) (e : FeedEntry * datetime) : list Item :=
  match published (fst e) with
  | None => []
  | Some pub_ts =>
    let it := mkItem pub_ts SOURCE_NEWS stock_name (fe_title (fst e)) (fe_link (fst e)) in
    if too_old (snd e) it then [] else [it]
  end.

Definition fetch_google_news (stock_name : text) (entries : list (FeedEntry * datetime))
  : list Item :=
  flat_map (news_item stock_name) (firstn 30 entries).

Lemma flat_map_length_le (A B : Type) (f : A -> list B) (l : list A) :
  (forall x, List.length (f x) <= 1) -> List.length (flat_map f l) <= List.length l.
Proof.
  intros H. induction l as [|x l IH]; cbn [flat_map List.length]; [lia|].
  rewrite length_app. specialize (H x). lia.
Qed.

Lemma news_item_length stock_name e : List.length (news_item stock_name e) <= 1.
Proof.
  unfold news_item. destruct (published (fst e)); [|cbn; lia].
  cbv zeta. destruct (too_old _ _); cbn; lia.
Qed.

(** X11.  [fetch_google_news] returns at most 30 items and looks at no
    entry after the 30th; every item is a news item of the stock asked
    for, made of an entry that has a publication time and was at most 90
    minutes old at its check. *)
Theorem google_news_items (stock_name : text) (entries : list (FeedEntry * datetime)) :
  List.length (fetch_google_news stock_name entries) <= 30
  /\ (forall more, List.length entries >= 30 ->
        fetch_google_news stock_name (entries ++ more) = fetch_google_news stock_name entries)
  /\ Forall (fun it =>
               source it = SOURCE_NEWS /\ stock it = stock_name
               /\ exists e now,
                    In (e, now) (firstn 30 entries)
                    /\ published e = Some (ts it) /\ title it = fe_title e
                    /\ url it = fe_link e /\ too_old now it = false)
            (fetch_google_news stock_name entries).
Proof.
  unfold fetch_google_news. split; [|split].
  - pose proof (@flat_map_length_le _ _ (news_item stock_name) (firstn 30 entries)
                  (news_item_length stock_name)) as L.
    pose proof (firstn_le_length 30 entries). rewrite length_firstn in L. lia.
  - intros more L. rewrite firstn_app.
    replace (30 - List.length entries) with 0 by lia.
    cbn [firstn]. rewrite app_nil_r. reflexivity.
  - apply Forall_forall. intros it I. apply in_flat_map in I.
    destruct I as ([e now] & Ie & Ii). unfold news_item in Ii. cbn [fst snd] in Ii.
    destruct (published e) as [p|] eqn:P; [|destruct Ii].
    cbv zeta in Ii. destruct (too_old now _) eqn:T; [destruct Ii|].
    destruct Ii as [<- | []]. cbn [source stock ts title url].
    repeat split. exists e, now. repeat split; assumption.
Qed.

(** *** The two age checks

    An entry is checked in [fetch_google_news] and, when it passes, again
    in the loop of [main], at a later clock reading. *)

Definition news_arrival (stock_name : text) (e : FeedEntry * datetime * datetime)
  : list Arrival :=
  map (fun it => mkArrival it (snd e)) (news_item stock_name (fst e)).

(** What reaches the loop: the fetched items, each with the reading of the
    loop's check. *)
Definition news_arrivals (stock_name : text) (es : list (FeedEntry * datetime * datetime))
  : list Arrival :=
  flat_map (news_arrival stock_name) (firstn 30 es).

(** The same without the check of line 132. *)
Definition unchecked_arrival (stock_name : text) (e : FeedEntry * datetime * datetime)
  : list Arrival :=
  match published (fst (fst e)) with
  | None => []
  | Some pub_ts =>
    [mkArrival (mkItem pub_ts SOURCE_NEWS stock_name (fe_title (fst (fst e)))
                       (fe_link (fst (fst e)))) (snd e)]
  end.

Definition unchecked_arrivals (stock_name : text)
    (es : list (FeedEntry * datetime * datetime)) : list Arrival :=
  flat_map (unchecked_arrival stock_name) (firstn 30 es).

Lemma news_arrivals_items stock_name es :
  map arr_item (news_arrivals stock_name es)
  = fetch_google_news stock_name (map fst es).
Proof.
  unfold news_arrivals, fetch_google_news. rewrite firstn_map.
  induction (firstn 30 es) as [|e l IH]; [reflexivity|].
  cbn [flat_map map]. rewrite map_app, IH. f_equal.
  unfold news_arrival. rewrite map_map. cbn [arr_item]. apply map_id.
Qed.

Lemma too_old_later (now now' : datetime) (it : Item) :
  too_old now it = true -> (dt_us now <= dt_us now')%Z -> too_old now' it = true.
Proof.
  rewrite !too_old_spec. unfold dt_sub. lia.
Qed.

(** X12.  When the clock does not run backwards between the check in
    [fetch_google_news] (line 132) and the one in [main] (line 252), the
    first check changes nothing: the loop leaves the same store and the
    same list of new items as it would on the unchecked entries. *)
Theorem fetch_age_check_is_redundant
    (U : UnicodeDB) (stock_name : text) (es : list (FeedEntry * datetime * datetime)) :
  Forall (fun e => (dt_us (snd (fst e)) <= dt_us (snd e))%Z) es ->
  forall acc,
    ingest (news_arrivals stock_name es) acc = ingest (unchecked_arrivals stock_name es) acc.
Proof.
  intros H. unfold news_arrivals, unchecked_arrivals.
  assert (H' : Forall (fun e => (dt_us (snd (fst e)) <= dt_us (snd e))%Z) (firstn 30 es)).
  { apply Forall_forall. intros e I. rewrite Forall_forall in H.
    apply H. rewrite <- (firstn_skipn 30 es). apply in_or_app. left. exact I. }
  clear H. induction H' as [|[[e nf] nl] l Hc _ IH]; intros acc; [reflexivity|].
  cbn [flat_map]. unfold news_arrival at 1, unchecked_arrival at 1, news_item.
  cbn [fst snd] in *.
  destruct (published e) as [p|]; [|exact (IH acc)].
  cbv zeta. set (it := mkItem p SOURCE_NEWS stock_name (fe_title e) (fe_link e)).
  destruct (too_old nf it) eqn:T.
  - cbn [map app]. rewrite (ingest_cons (mkArrival it nl)). cbn [arr_item arr_now].
    rewrite (@too_old_later nf nl it T Hc). exact (IH acc).
  - cbn [map app]. rewrite !(ingest_cons (mkArrival it nl)). cbn [arr_item arr_now].
    destruct (too_old nl it); [exact (IH acc)|].
    destruct (fp it); [|reflexivity].
    destruct (mem t (fst acc)); apply IH.
Qed.

Definition stale_feed : list (FeedEntry * datetime * datetime) :=
  [(mkFeedEntry (Some (mkdt 2024 3 1 10 20 0 0)) (lit "ACME wins order") (lit "http://a/1"),
    mkdt 2024 3 1 11 59 58 0, sample_now)].

Lemma fetch_age_check_is_redundant_witness :
  ingest (news_arrivals (lit "ACME") stale_feed) ([], [])
  = ingest (unchecked_arrivals (lit "ACME") stale_feed) ([], []).
Proof.
  apply (@fetch_age_check_is_redundant basic_db).
  repeat constructor. vm_compute. discriminate.
Defined.

(* ================================================================== *)
(** ** [fetch_dart_list_by_name] (lines 157-186) *)

(** [corp_map.get(name)] on the map in file order. *)
Fixpoint dict_get (d : list (text * text)) (k : text) : option text :=
  match d with
  | [] => None
  | (k', v) :: r => if text_eqb k' k then Some v else dict_get r k
  end.

(** Lines 159-165: the code of the company called [name], else the code
    of the first company whose name contains [name]; [None] is the early
    [return []]. *)
Definition lookup_corp_code (corp_map : list (text * text)) (name : text) : option text :=
  let corp_code := match dict_get corp_map name with Some c => c | None => [] end in
  let corp_code :=
    if truthy corp_code then corp_code
    else match find (fun nc => contains (fst nc) name) corp_map with
         | Some nc => snd nc
         | None => corp_code
         end in
  if truthy corp_code then Some corp_code else None.

Lemma dict_get_In d k v : dict_get d k = Some v -> In (k, v) d.
Proof.
  induction d as [|[k' v'] r IH]; cbn [dict_get]; [discriminate|].
  destruct (text_eqb k' k) eqn:E.
  - apply text_eqb_eq in E. intros H. injection H as <-. subst. left. reflexivity.
  - intros H. right. apply IH, H.
Qed.

(** X13.  The company code [fetch_dart_list_by_name] queries: a code that
    is found is not empty and belongs to a company whose name contains the
    watched name; an exact entry with a code wins over any other; without
    it the first company in file order whose name contains the watched
    name decides, and when no name contains it nothing is fetched. *)
Theorem corp_code_lookup (corp_map : list (text * text)) (name : text) :
  (forall c, lookup_corp_code corp_map name = Some c ->
     truthy c = true /\ exists n, In (n, c) corp_map /\ occurs_in name n)
  /\ (forall c, dict_get corp_map name = Some c -> truthy c = true ->
        lookup_corp_code corp_map name = Some c)
  /\ (forall n c pre post, corp_map = pre ++ (n, c) :: post ->
        dict_get corp_map name = None -> occurs_in name n ->
        (forall n' c', In (n', c') pre -> ~ occurs_in name n') ->
        lookup_corp_code corp_map name = if truthy c then Some c else None)
  /\ ((forall n c, In (n, c) corp_map -> ~ occurs_in name n) ->
      lookup_corp_code corp_map name = None).
Proof.
  unfold lookup_corp_code. split; [|split; [|split]].
  - intros c. cbv zeta.
    destruct (dict_get corp_map name) as [e|] eqn:G.
    + destruct (truthy e) eqn:Te.
      * rewrite Te. intros H. injection H as <-. split; [exact Te|].
        exists name. split; [apply dict_get_In, G | exists [], []; rewrite app_nil_r; reflexivity].
      * destruct (find _ corp_map) as [[n c']|] eqn:F; cbn [snd]; [|rewrite Te; discriminate].
        destruct (truthy c') eqn:Tc; [|discriminate]. intros H. injection H as <-.
        apply find_some in F. destruct F as [I C]. cbn [fst] in C.
        split; [exact Tc|]. exists n. split; [exact I | apply contains_spec, C].
    + cbn [truthy]. destruct (find _ corp_map) as [[n c']|] eqn:F; cbn [snd]; [|discriminate].
      destruct (truthy c') eqn:Tc; [|discriminate]. intros H. injection H as <-.
      apply find_some in F. destruct F as [I C]. cbn [fst] in C.
      split; [exact Tc|]. exists n. split; [exact I | apply contains_spec, C].
  - intros c G T. cbv zeta. rewrite G, T, T. reflexivity.
  - intros n c pre post -> G O N. cbv zeta. rewrite G. cbn [truthy].
    assert (F : find (fun nc => contains (fst nc) name) (pre ++ (n, c) :: post) = Some (n, c)).
    { clear G. induction pre as [|[n' c'] pre IH]; cbn [app find fst].
      - apply contains_spec in O. rewrite O. reflexivity.
      - destruct (contains n' name) eqn:C.
        + apply contains_spec in C. exfalso. apply (N n' c'); [left; reflexivity | exact C].
        + apply IH. intros a b I. apply (N a b). right. exact I. }
    rewrite F. reflexivity.
  - intros N. cbv zeta.
    destruct (dict_get corp_map name) as [e|] eqn:G.
    + exfalso. apply (N name e); [apply dict_get_In, G|].
      exists [], []. rewrite app_nil_r. reflexivity.
    + cbn [truthy]. destruct (find _ corp_map) as [[n c']|] eqn:F; [|reflexivity].
      apply find_some in F. destruct F as [I C]. cbn [fst] in C.
      exfalso. apply (N n c' I). apply contains_spec, C.
Qed.

(** A row of the list the DART API returns: each field is the string under
    the key, [None] when the key is absent. *)
Record DartRow := mkDartRow
  { rcept_no : option text; rcept_dt : option text;
    rcept_tm : option text; report_nm : option text }.

Definition DART_LINK : text :=
  Eval vm_compute in lit "https://dart.fss.or.kr/dsaf001/main.do?rcpNo=".
Definition SOURCE_DART : text := Eval vm_compute in lit "dart".
Definition MIDNIGHT : text := Eval vm_compute in lit "000000".
Definition STATUS_OK : text := Eval vm_compute in lit "000".

Definition get_or (o : option text) (default : text) : text :=
  match o with Some s => s | None => default end.

(** Fourteen decimal digits as year, month, day, hour, minute, second. *)
Definition parse14 (s : text) : option datetime :=
  match parse_dec 4 0 s with
  | Some (y, s) =>
    match parse_dec 2 0 s with
    | Some (m, s) =>
      match parse_dec 2 0 s with
      | Some (d, s) =>
        match parse_dec 2 0 s with
        | Some (hh, s) =>
          match parse_dec 2 0 s with
          | Some (mi, s) =>
            match parse_dec 2 0 s with
            | Some (ss, []) => Some (mkdt y m d hh mi ss 0)
            | _ => None
            end
          | None => None
          end
        | None => None
        end
      | None => None
      end
    | None => None
    end
  | None => None
  end.

Section Dart.

(** The digits beyond ASCII, and [strptime] on anything but fourteen ASCII
    digits: the program's data has neither. *)
Variable unicode_digit : char -> bool.
Variable strptime_other : text -> option datetime.

(** [str.isdigit] *)
Definition isdigit (s : text) : bool :=
  truthy s
  && forallb (fun c => if (c <? 128)%N then (48 <=? c) && (c <=? 57) else unicode_digit c)%N s.

(** [datetime.strptime(s, "%Y%m%d%H%M%S").replace(tzinfo=TZ)]; [None] is
    ValueError.  On fourteen digits every field takes its full width, and
    the constructor checks the ranges. *)
Definition strptime (s : text) : option datetime :=
  match parse14 s with
  | Some d => if valid_datetime d then Some d else None
  | None => strptime_other s
  end.

(** Lines 177-182: the time of the filing, or the clock when the row has no
    date that parses. *)
Definition dart_ts (row : DartRow) (now_ts : datetime) : datetime :=
  match rcept_dt row with
  | Some dt =>
    if truthy dt && isdigit dt then
      match strptime (dt ++ get_or (rcept_tm row) MIDNIGHT) with
      | Some t => t
      | None => now_ts
      end
    else now_ts
  | None => now_ts
  end.

(** The body of the loop over the rows; a row comes with the clock reading
    of line 177 and the one of its [minutes_ago]. *)
Definition dart_item (name : text) (r : DartRow * datetime * datetime) : list Item :=
  match rcept_no (fst (fst r)) with
  | None => []
  | Some rcp_no =>
    if truthy rcp_no then
      let link := DART_LINK ++ rcp_no in
      let it := mkItem (dart_ts (fst (fst r)) (snd (fst r))) SOURCE_DART name
                       (get_or (report_nm (fst (fst r))) []) link in
      if too_old (snd r) it then [] else [it]
    else []
  end.

(** The answer of the list API: its [status] and its [list]. *)
Record DartResponse := mkDartResponse
  { status : option text; rows : list (DartRow * datetime * datetime) }.

Definition fetch_dart_list_by_name
    (corp_map : list (text * text)) (name : text) (data : DartResponse) : list Item :=
  match lookup_corp_code corp_map name with
  | None => []
  | Some _ =>
    match status data with
    | Some s => if text_eqb s STATUS_OK then flat_map (dart_item name) (rows data) else []
    | None => []
    end
  end.

End Dart.

Lemma pad_dec_digits (w : nat) :
  forall n, (0 <= n < 10 ^ Z.of_nat w)%Z ->
            forallb (fun c => (48 <=? c) && (c <=? 57))%N (pad_dec w n) = true.
Proof.
  induction w as [|w IH]; intros n H; [reflexivity|].
  cbn [pad_dec forallb]. pose proof (lead_digit_range w H) as Q.
  pose proof (pow10_pos w) as P.
  rewrite IH by (apply Z.mod_pos_bound; exact P).
  rewrite andb_true_r. apply andb_true_iff. split; apply N.leb_le; lia.
Qed.

Lemma parse14_date (y m d : Z) :
  (0 <= y < 10 ^ Z.of_nat 4)%Z -> (0 <= m < 10 ^ Z.of_nat 2)%Z -> (0 <= d < 10 ^ Z.of_nat 2)%Z ->
  parse14 ((pad_dec 4 y ++ pad_dec 2 m ++ pad_dec 2 d) ++ MIDNIGHT)
  = Some (mkdt y m d 0 0 0 0).
Proof.
  intros Hy Hm Hd. unfold parse14. rewrite <- !app_assoc.
  rewrite parse_pad_dec by exact Hy. rewrite parse_pad_dec by exact Hm.
  rewrite parse_pad_dec by exact Hd. cbn [Z.mul Z.add]. reflexivity.
Qed.

(** X14.  What [fetch_dart_list_by_name] makes of a row.  An item is a
    filing of the watched name with the link of its receipt number, at
    most 90 minutes old at its check.  A row with an eight-digit date and
    no [rcept_tm] is stamped with the midnight of that date, so it is
    dropped as soon as more than 90 minutes of that day have passed; a row
    without a date is stamped with the clock. *)
Theorem dart_row_items
    (unicode_digit : char -> bool) (strptime_other : text -> option datetime)
    (name : text) :
  (forall corp_map data it,
      In it (fetch_dart_list_by_name unicode_digit strptime_other corp_map name data) ->
      lookup_corp_code corp_map name <> None /\ status data = Some STATUS_OK
      /\ exists r, In r (rows data)
                   /\ In it (dart_item unicode_digit strptime_other name r))
  /\ (forall r it,
      In it (dart_item unicode_digit strptime_other name r) ->
      source it = SOURCE_DART /\ stock it = name
      /\ too_old (snd r) it = false
      /\ exists no, rcept_no (fst (fst r)) = Some no /\ truthy no = true
                    /\ url it = DART_LINK ++ no)
  /\ (forall row y m d now_ts,
        rcept_dt row = Some (pad_dec 4 y ++ pad_dec 2 m ++ pad_dec 2 d) ->
        rcept_tm row = None ->
        valid_datetime (mkdt y m d 0 0 0 0) = true ->
        dart_ts unicode_digit strptime_other row now_ts = mkdt y m d 0 0 0 0
        /\ forall no now_check,
             rcept_no row = Some no -> truthy no = true ->
             (dart_item unicode_digit strptime_other name (row, now_ts, now_check) = []
              <-> (minutes MAX_ARTICLE_AGE_MIN < dt_sub now_check (mkdt y m d 0 0 0 0))%Z))
  /\ (forall row now_ts,
        rcept_dt row = None ->
        dart_ts unicode_digit strptime_other row now_ts = now_ts).
Proof.
  split; [|split; [|split]].
  - intros corp_map data it I. unfold fetch_dart_list_by_name in I.
    destruct (lookup_corp_code corp_map name); [|destruct I].
    destruct (status data) as [s|]; [|destruct I].
    destruct (text_eqb s STATUS_OK) eqn:E; [|destruct I].
    apply text_eqb_eq in E. subst s. apply in_flat_map in I.
    split; [discriminate|]. split; [reflexivity | exact I].
  - intros [[row now_ts] now_check] it I. unfold dart_item in I. cbn [fst snd] in *.
    destruct (rcept_no row) as [no|] eqn:R; [|destruct I].
    destruct (truthy no) eqn:T; [|destruct I].
    cbv zeta in I. destruct (too_old now_check _) eqn:O; [destruct I|].
    destruct I as [<- | []]. cbn [source stock url].
    repeat split; [exact O|]. exists no. repeat split. exact T.
  - intros row y m d now_ts Ed Et V.
    assert (R : (0 <= y < 10 ^ Z.of_nat 4)%Z /\ (0 <= m < 10 ^ Z.of_nat 2)%Z
                /\ (0 <= d < 10 ^ Z.of_nat 2)%Z).
    { destruct (valid_in_range _ V) as [A B C _ _ _ _]. cbn in A, B, C. repeat split; lia. }
    destruct R as (Ry & Rm & Rd).
    assert (D : dart_ts unicode_digit strptime_other row now_ts = mkdt y m d 0 0 0 0).
    { unfold dart_ts. rewrite Ed, Et. cbn [get_or].
      assert (Td : truthy (pad_dec 4 y ++ pad_dec 2 m ++ pad_dec 2 d) = true) by reflexivity.
      assert (Id : isdigit unicode_digit (pad_dec 4 y ++ pad_dec 2 m ++ pad_dec 2 d) = true).
      { unfold isdigit. rewrite Td. cbn [andb]. apply forallb_forall. intros c I.
        assert (A : forallb (fun c => (48 <=? c) && (c <=? 57))%N
                            (pad_dec 4 y ++ pad_dec 2 m ++ pad_dec 2 d) = true).
        { rewrite !forallb_app, !pad_dec_digits by assumption. reflexivity. }
        rewrite forallb_forall in A. specialize (A c I).
        assert (L : (c <? 128)%N = true).
        { apply andb_true_iff in A. destruct A as [_ A]. apply N.leb_le in A.
          apply N.ltb_lt. lia. }
        rewrite L. exact A. }
      rewrite Td, Id. cbn [andb]. unfold strptime.
      rewrite parse14_date by assumption. rewrite V. reflexivity. }
    split; [exact D|]. intros no now_check En Tn.
    unfold dart_item. cbn [fst snd]. rewrite En, Tn, D. cbv zeta.
    match goal with |- context [too_old now_check ?i] => set (it := i) end.
    change (mkdt y m d 0 0 0 0) with (ts it).
    rewrite <- too_old_spec.
    destruct (too_old now_check it); split; intros; try reflexivity; discriminate.
  - intros row now_ts E. unfold dart_ts. rewrite E. reflexivity.
Qed.

(* ================================================================== *)
(** ** [render_items_grouped] (lines 189-195) and the tag of an alert *)

Definition BULL_TAG : text := Eval vm_compute in lit "호재".
Definition BEAR_TAG : text := Eval vm_compute in lit "악재".
Definition NEUTRAL_TAG : text := Eval vm_compute in lit "중립".
Definition NONE_LINE : text := Eval vm_compute in lit "해당 없음".

(** [to_ts]: [strftime("%Y-%m-%d %H:%M")] of the datetime, or of the clock
    when there is none (four-digit years, as from the year 1000 on). *)
Definition to_ts (d : option datetime) (now : datetime) : text :=
  let d := match d with Some d => d | None => now end in
  pad_dec 4 (year d) ++ [45%N] ++ pad_dec 2 (month d) ++ [45%N] ++ pad_dec 2 (day d)
    ++ [32%N] ++ pad_dec 2 (hour d) ++ [58%N] ++ pad_dec 2 (minute d).

(** Line 192: the group of a title, found by substring tests on the label
    of its class. *)
Definition group_key (title : text) : text :=
  if contains (label (classify_sentiment title)) BEAR_TAG then BEAR_TAG
  else if contains (label (classify_sentiment title)) BULL_TAG then BULL_TAG
  else NEUTRAL_TAG.

(** Line 282: the tag of an immediate alert. *)
Definition alert_tag (cat : Category) : text :=
  if contains (label cat) BEAR_TAG then BEAR_TAG else BULL_TAG.

Definition SEP : text := Eval vm_compute in lit " | ".

(** Line 193 *)
Definition item_line (now : datetime) (it : Item) : text :=
  [45%N; 32%N] ++ stock it ++ SEP ++ to_ts (Some (ts it)) now ++ SEP ++ title it
    ++ SEP ++ url it.

(** The dict [groups] as its three lists: 호재, 악재, 중립. *)
Record Groups := mkGroups { g_bull : list text; g_bear : list text; g_neutral : list text }.

Definition add_line (now : datetime) (g : Groups) (it : Item) : Groups :=
  let key := group_key (title it) in
  let line := item_line now it in
  if text_eqb key BEAR_TAG then mkGroups (g_bull g) (g_bear g ++ [line]) (g_neutral g)
  else if text_eqb key BULL_TAG then mkGroups (g_bull g ++ [line]) (g_bear g) (g_neutral g)
  else mkGroups (g_bull g) (g_bear g) (g_neutral g ++ [line]).

Definition group_items (now : datetime) (items : list Item) : Groups :=
  fold_left (add_line now) items (mkGroups [] [] []).

Definition join_group (lines : list text) : text :=
  match lines with
  | [] => NONE_LINE
  | _ :: _ => Json.join [10%N] lines
  end.

Definition HEAD_BULL : text := Eval vm_compute in lit "[호재]".
Definition HEAD_BEAR : text := Eval vm_compute in lit "[악재]".
Definition HEAD_NEUTRAL : text := Eval vm_compute in lit "[중립]".

Definition render_items_grouped (now : datetime) (items : list Item) : text :=
  let g := group_items now items in
  HEAD_BULL ++ [10%N] ++ join_group (g_bull g)
    ++ [10%N; 10%N] ++ HEAD_BEAR ++ [10%N] ++ join_group (g_bear g)
    ++ [10%N; 10%N] ++ HEAD_NEUTRAL ++ [10%N] ++ join_group (g_neutral g).

(** The direction of a class. *)
Definition is_bear (c : Category) : bool :=
  match c with StrongBear | WeakBear => true | _ => false end.
Definition is_bull (c : Category) : bool :=
  match c with StrongBull | WeakBull => true | _ => false end.

Lemma group_key_class (t : text) :
  group_key t = (if is_bear (classify_sentiment t) then BEAR_TAG
                 else if is_bull (classify_sentiment t) then BULL_TAG else NEUTRAL_TAG).
Proof. unfold group_key. destruct (classify_sentiment t); vm_compute; reflexivity. Qed.

Lemma group_items_acc (now : datetime) (items : list Item) :
  forall g,
    fold_left (add_line now) items g
    = mkGroups
        (g_bull g ++ map (item_line now)
                         (filter (fun it => is_bull (classify_sentiment (title it))) items))
        (g_bear g ++ map (item_line now)
                         (filter (fun it => is_bear (classify_sentiment (title it))) items))
        (g_neutral g
         ++ map (item_line now)
                (filter (fun it => negb (is_bear (classify_sentiment (title it)))
                                   && negb (is_bull (classify_sentiment (title it)))) items)).
Proof.
  induction items as [|it items IH]; intros g.
  - cbn. rewrite !app_nil_r. destruct g; reflexivity.
  - cbn [fold_left filter]. rewrite IH. unfold add_line. rewrite group_key_class.
    destruct (classify_sentiment (title it)); cbn [is_bear is_bull negb andb];
      match goal with
      | |- context [text_eqb ?a ?b] =>
        let v := eval vm_compute in (text_eqb a b) in change (text_eqb a b) with v
      end; cbv iota;
      try match goal with
      | |- context [text_eqb ?a ?b] =>
        let v := eval vm_compute in (text_eqb a b) in change (text_eqb a b) with v
      end; cbv iota; cbn [g_bull g_bear g_neutral map]; rewrite <- ?app_assoc; reflexivity.
Qed.

(** X15.  [render_items_grouped] sorts every item into exactly one of its
    three groups, by the direction of its class (bear before bull), and
    keeps the order of the items inside each group; an alert of a strong
    class is tagged with the direction of that class. *)
Theorem groups_follow_the_class (now : datetime) (items : list Item) :
  let bull := filter (fun it => is_bull (classify_sentiment (title it))) items in
  let bear := filter (fun it => is_bear (classify_sentiment (title it))) items in
  let neutral := filter (fun it => match classify_sentiment (title it) with
                                   | Neutral => true | _ => false end) items in
  group_items now items
  = mkGroups (map (item_line now) bull) (map (item_line now) bear)
             (map (item_line now) neutral)
  /\ render_items_grouped now items
     = HEAD_BULL ++ [10%N] ++ join_group (map (item_line now) bull)
       ++ [10%N; 10%N] ++ HEAD_BEAR ++ [10%N] ++ join_group (map (item_line now) bear)
       ++ [10%N; 10%N] ++ HEAD_NEUTRAL ++ [10%N] ++ join_group (map (item_line now) neutral)
  /\ List.length bull + List.length bear + List.length neutral = List.length items
  /\ alert_tag StrongBear = BEAR_TAG /\ alert_tag StrongBull = BULL_TAG.
Proof.
  intros bull bear neutral.
  assert (G : group_items now items
              = mkGroups (map (item_line now) bull) (map (item_line now) bear)
                         (map (item_line now) neutral)).
  { unfold group_items. rewrite group_items_acc. cbn [g_bull g_bear g_neutral app].
    f_equal. f_equal. apply filter_ext. intros it.
    destruct (classify_sentiment (title it)); reflexivity. }
  split; [exact G|]. split; [|split; [|split; vm_compute; reflexivity]].
  - unfold render_items_grouped. rewrite G. reflexivity.
  - clear G. subst bull bear neutral. induction items as [|it items IH]; [reflexivity|].
    cbn [filter List.length].
    destruct (classify_sentiment (title it)); cbn [is_bull is_bear List.length]; lia.
Qed.

(* ================================================================== *)
(** ** More on the files the program keeps *)



(** *** [ensure_dart_corp_map] (lines 138-155) *)

(** The dict [mp], names to codes, as the JSON value that is dumped. *)
Definition corp_map_json (mp : list (text * text)) : json :=
  JDict (map (fun nc => (fst nc, JStr (snd nc))) mp).

(** [ensure_dart_corp_map] on the cache file ([None] when there is none)
    and the map [mp] that the download would give.  The result is the map
    returned and the cache file afterwards; [None] is an exception. *)
Definition ensure_dart_corp_map (file : option text) (mp : list (text * text))
  : option (json * text) :=
  match file with
  | Some content =>
    match Json.loads (universal_newlines content) with
    | Some v => Some (v, content)
    | None => None
    end
  | None =>
    let out := Json.dumps 0 (corp_map_json mp) in
    match utf8_encode out with
    | Some _ => Some (corp_map_json mp, out)
    | None => None
    end
  end.

Lemma corp_map_plain (mp : list (text * text)) :
  Json.distinct (map fst mp) = true -> Json.plain (corp_map_json mp) = true.
Proof.
  intros D. unfold corp_map_json. cbn [Json.plain].
  assert (K : map fst (map (fun nc : text * text => (fst nc, JStr (snd nc))) mp) = map fst mp)
    by (rewrite map_map; apply map_ext; reflexivity).
  rewrite K, D. cbn [andb]. apply forallb_forall. intros x I.
  apply in_map_iff in I. destruct I as (y & <- & _). reflexivity.
Qed.

(** X17.  The company map is downloaded once: when there is no cache
    file, [ensure_dart_corp_map] returns the downloaded map and writes it;
    on every later call it returns that same map from the file, whatever a
    new download would give. *)
Theorem corp_map_cache_is_sticky (mp later : list (text * text)) (v : json) (file : text) :
  Json.distinct (map fst mp) = true ->
  ensure_dart_corp_map None mp = Some (v, file) ->
  v = corp_map_json mp
  /\ ensure_dart_corp_map (Some file) later = Some (v, file).
Proof.
  intros D E. unfold ensure_dart_corp_map in *. cbv zeta in E.
  destruct (utf8_encode _); [|discriminate].
  assert (Ev : v = corp_map_json mp) by congruence.
  assert (Ef : file = Json.dumps 0 (corp_map_json mp)) by congruence.
  clear E. subst v file. split; [reflexivity|].
  rewrite universal_newlines_id by (apply dumps_no_cr, corp_map_plain, D).
  rewrite JsonFacts.loads_dumps by (apply corp_map_plain, D). reflexivity.
Qed.

Definition sample_corp_map : list (text * text) :=
  Eval vm_compute in [(lit "삼성전자", lit "00126380"); (lit "삼성전자우", lit "00126381")].

Lemma corp_map_cache_is_sticky_witness :
  ensure_dart_corp_map (Some (Json.dumps 0 (corp_map_json sample_corp_map))) []
  = Some (corp_map_json sample_corp_map, Json.dumps 0 (corp_map_json sample_corp_map)).
Proof.
  refine (proj2 (@corp_map_cache_is_sticky sample_corp_map [] _ _ _ _)).
  - vm_compute. reflexivity.
  - vm_compute. reflexivity.
Defined.

(** *** What utf-8 refuses *)

(** The character has a utf-8 encoding: it is no surrogate and lies in
    the code space. *)
Definition encodable (c : char) : bool :=
  match utf8_char c with Some _ => true | None => false end.

Lemma encodable_spec (c : char) :
  encodable c = false <-> ((0xD800 <= c <= 0xDFFF)%N \/ (0x110000 <= c)%N).
Proof.
  unfold encodable, utf8_char.
  destruct (c <? 128)%N eqn:A; [apply N.ltb_lt in A; split; [discriminate | lia]|].
  destruct (c <? 2048)%N eqn:B; [apply N.ltb_lt in B; split; [discriminate | lia]|].
  apply N.ltb_ge in A, B.
  destruct ((55296 <=? c) && (c <=? 57343))%N eqn:S.
  - apply andb_true_iff in S. rewrite !N.leb_le in S. split; [left; exact S | reflexivity].
  - apply andb_false_iff in S. rewrite !N.leb_gt in S.
    destruct (c <? 65536)%N eqn:C; [apply N.ltb_lt in C; split; [discriminate | lia]|].
    destruct (c <? 1114112)%N eqn:D; [apply N.ltb_lt in D; split; [discriminate | lia]|].
    apply N.ltb_ge in C, D. split; [right; exact D | reflexivity].
Qed.

Lemma utf8_encode_none (s : text) :
  utf8_encode s = None <-> exists c, In c s /\ encodable c = false.
Proof.
  induction s as [|c r IH]; cbn [utf8_encode].
  - split; [discriminate | intros (c & [] & _)].
  - unfold encodable in *. destruct (utf8_char c) eqn:E.
    + destruct (utf8_encode r).
      * split; [discriminate|]. intros (x & [<- | I] & H); [rewrite E in H; discriminate|].
        assert (N : Some l0 = None) by (apply IH; exists x; tauto). discriminate.
      * split; [|reflexivity]. intros _. destruct (proj1 IH eq_refl) as (x & I & H).
        exists x. split; [right; exact I | exact H].
    + split; [|reflexivity]. intros _. exists c. split; [left; reflexivity|]. rewrite E. reflexivity.
Qed.

(** X18.  [make_hash] raises (UnicodeEncodeError, from [base.encode])
    exactly when the normalized title or the url holds a lone surrogate or
    a code above U+10FFFF; an item that is not too old and whose hash
    raises ends the loop over its feed, and what the loop had recorded
    before stays. *)
Theorem make_hash_raises_on_surrogates (U : UnicodeDB) :
  (forall (t : text) (u : option text),
      make_hash t u = None
      <-> exists c, In c (normalize_title t ++ or_empty u)
                    /\ ((0xD800 <= c <= 0xDFFF)%N \/ (0x110000 <= c)%N))
  /\ (forall a rest acc,
        too_old (arr_now a) (arr_item a) = false ->
        fp (arr_item a) = None ->
        ingest (a :: rest) acc = acc).
Proof.
  split.
  - intros t u. unfold make_hash.
    destruct (utf8_encode (hash_base t u)) eqn:E.
    + split; [discriminate|]. intros (c & I & S).
      assert (N : utf8_encode (hash_base t u) = None).
      { apply utf8_encode_none. exists c. split; [|apply encodable_spec, S].
        unfold hash_base. apply in_app_or in I. apply in_or_app.
        destruct I as [I | I]; [left; exact I | right; apply in_or_app; right; exact I]. }
      congruence.
    + split; [|reflexivity]. intros _. apply utf8_encode_none in E.
      destruct E as (c & I & S). exists c. apply encodable_spec in S. split; [|exact S].
      unfold hash_base in I. apply in_app_or in I. apply in_or_app.
      destruct I as [I | I]; [left; exact I|]. apply in_app_or in I.
      destruct I as [[<- | []] | I]; [|right; exact I]. lia.
  - intros a rest acc T F. rewrite ingest_cons, T, F. reflexivity.
Qed.

Section EncoderOutput.
Import Json JsonFacts.
Variable q : char -> bool.

Lemma join_chars_inv (sep : text) (parts : list text) :
  forallb q (join sep parts) = true -> Forall (fun p => forallb q p = true) parts.
Proof.
  induction parts as [|p l IH]; intros H; [constructor|].
  destruct l as [|p' l'].
  - cbn [join] in H. repeat constructor. exact H.
  - rewrite join_cons, (forallb_app q p), (forallb_app q sep) in H.
    apply andb_true_iff in H. destruct H as [Hp H].
    apply andb_true_iff in H. destruct H as [_ H].
    constructor; [exact Hp | apply IH, H].
Qed.

Lemma quote_chars_inv (s : text) :
  forallb q (quote s) = true -> forallb (fun c => negb (raw c) || q c) s = true.
Proof.
  unfold quote. cbn [forallb]. rewrite forallb_app. intros H.
  apply andb_true_iff in H. destruct H as [_ H].
  apply andb_true_iff in H. destruct H as [H _].
  induction s as [|c s IH]; [reflexivity|].
  cbn [flat_map forallb] in *. rewrite forallb_app in H.
  apply andb_true_iff in H. destruct H as [Hc Hs].
  rewrite (IH Hs), andb_true_r.
  destruct (raw c) eqn:R; [|reflexivity]. cbn [negb orb].
  unfold raw in R. apply negb_true_iff in R. unfold escape_char in Hc.
  apply orb_false_iff in R. destruct R as [R R92].
  apply orb_false_iff in R. destruct R as [R32 R34].
  rewrite R34, R92 in Hc.
  assert (N : forall k, (k <? 32)%N = true -> (c =? k)%N = false).
  { intros k K. apply N.eqb_neq. intros ->. rewrite K in R32. discriminate. }
  rewrite !N in Hc by reflexivity. rewrite R32 in Hc. cbn [forallb] in Hc.
  rewrite andb_true_r in Hc. exact Hc.
Qed.

(** Every raw character of every string of the value is written. *)
Lemma dumps_chars_inv (v : json) :
  plain v = true ->
  forall m, forallb q (dumps m v) = true ->
            all_text (fun c => negb (raw c) || q c) v = true.
Proof.
  induction v as [|b|z|lx|s|l IH|kvs IH] using json_nested_ind; intros Pv m H;
    cbn [all_text]; try reflexivity.
  - apply quote_chars_inv, H.
  - destruct l as [|x l']; [reflexivity|].
    cbn [dumps] in H. rewrite !forallb_app in H.
    apply andb_true_iff in H. destruct H as [_ H].
    apply andb_true_iff in H. destruct H as [_ H].
    apply andb_true_iff in H. destruct H as [H _].
    apply join_chars_inv in H. cbn [plain] in Pv.
    apply forallb_forall. intros y I. rewrite Forall_forall in IH, H.
    rewrite forallb_forall in Pv.
    apply (IH y I (Pv y I) (S m)). apply H. apply in_map. exact I.
  - destruct kvs as [|x l']; [reflexivity|].
    cbn [dumps] in H. rewrite !forallb_app in H.
    apply andb_true_iff in H. destruct H as [_ H].
    apply andb_true_iff in H. destruct H as [_ H].
    apply andb_true_iff in H. destruct H as [H _].
    apply join_chars_inv in H. cbn [plain] in Pv.
    apply andb_true_iff in Pv. destruct Pv as [_ Pv].
    apply forallb_forall. intros y I. rewrite Forall_forall in IH, H.
    rewrite forallb_forall in Pv.
    specialize (H _ (in_map (fun kv => quote (fst kv) ++ [58%N; 32%N] ++ dumps (S m) (snd kv))
                            _ _ I)).
    cbv beta in H. rewrite !forallb_app in H.
    apply andb_true_iff in H. destruct H as [Hk H].
    apply andb_true_iff in H. destruct H as [_ Hv].
    apply andb_true_iff. split; [exact (quote_chars_inv _ Hk) | exact (IH y I (Pv y I) (S m) Hv)].
Qed.

End EncoderOutput.

(** The strings a state holds. *)
Definition state_texts (st : State) : list text :=
  seen_hashes st
  ++ flat_map (fun d => [e_ts d; e_src d; e_stock d; e_title d; e_url d]) (digest_buffer st).

Definition written_ok (c : char) : bool := negb (JsonFacts.raw c) || encodable c.

Lemma written_ok_encodable (c : char) : written_ok c = encodable c.
Proof.
  unfold written_ok. destruct (JsonFacts.raw c) eqn:R; [reflexivity|]. cbn [negb orb].
  unfold JsonFacts.raw in R. apply negb_false_iff in R.
  assert (L : (c < 128)%N).
  { apply orb_true_iff in R. destruct R as [R | R].
    - apply orb_true_iff in R. destruct R as [R | R].
      + apply N.ltb_lt in R. lia.
      + apply N.eqb_eq in R. lia.
    - apply N.eqb_eq in R. lia. }
  unfold encodable, utf8_char. apply N.ltb_lt in L. rewrite L. reflexivity.
Qed.

Lemma state_all_text (st : State) :
  JsonFacts.all_text written_ok (state_json st) = forallb (forallb written_ok) (state_texts st).
Proof.
  unfold state_json, state_texts. cbn [JsonFacts.all_text forallb fst snd].
  change (forallb written_ok KEY_SEEN_HASHES) with true.
  change (forallb written_ok KEY_DIGEST_BUFFER) with true.
  change (forallb written_ok KEY_LAST_DIGEST_UNIX) with true.
  cbn [andb]. rewrite !andb_true_r, forallb_app. f_equal.
  - induction (seen_hashes st) as [|h l IH]; [reflexivity|].
    cbn [map forallb JsonFacts.all_text]. rewrite IH. reflexivity.
  - induction (digest_buffer st) as [|d l IH]; [reflexivity|].
    cbn [map forallb flat_map app]. rewrite IH. unfold entry_json at 1.
    cbn [JsonFacts.all_text forallb fst snd].
    change (forallb written_ok KEY_TS) with true.
    change (forallb written_ok KEY_SRC) with true.
    change (forallb written_ok KEY_STOCK) with true.
    change (forallb written_ok KEY_TITLE) with true.
    change (forallb written_ok KEY_URL) with true.
    cbn [andb]. rewrite !andb_true_r, <- !andb_assoc. reflexivity.
Qed.

(** X19.  [save_state] raises (UnicodeEncodeError, from the utf-8 file)
    exactly when a fingerprint or a field of a buffer entry holds a lone
    surrogate or a code above U+10FFFF; every other state is written. *)
Theorem save_state_raises_on_surrogates (st : State) :
  save_state (state_json st) = None
  <-> exists t c, In t (state_texts st) /\ In c t
                  /\ ((0xD800 <= c <= 0xDFFF)%N \/ (0x110000 <= c)%N).
Proof.
  pose proof (plain_state st) as P.
  assert (A : forallb encodable (Json.dumps 0 (state_json st))
              = forallb (forallb written_ok) (state_texts st)).
  { rewrite <- state_all_text.
    destruct (JsonFacts.all_text written_ok (state_json st)) eqn:T.
    - apply JsonFacts.dumps_chars; [vm_compute; reflexivity | exact P | exact T].
    - destruct (forallb encodable (Json.dumps 0 (state_json st))) eqn:F; [|reflexivity].
      pose proof (@dumps_chars_inv encodable _ P 0 F) as T'.
      change (JsonFacts.all_text written_ok (state_json st) = true) in T'. congruence. }
  unfold save_state. cbv zeta. split.
  - intros H.
    assert (N : utf8_encode (Json.dumps 0 (state_json st)) = None)
      by (destruct (utf8_encode _); [discriminate | reflexivity]).
    apply utf8_encode_none in N. destruct N as (c & I & E).
    assert (F : forallb encodable (Json.dumps 0 (state_json st)) = false).
    { apply not_true_is_false. intros T. rewrite forallb_forall in T.
      rewrite (T c I) in E. discriminate. }
    rewrite A in F.
    assert (X : exists t, In t (state_texts st) /\ forallb written_ok t = false).
    { clear - F. induction (state_texts st) as [|t l IH]; [discriminate|].
      cbn [forallb] in F. destruct (forallb written_ok t) eqn:T.
      - destruct (IH F) as (t' & I & E). exists t'. split; [right; exact I | exact E].
      - exists t. split; [left; reflexivity | exact T]. }
    destruct X as (t & It & Ft). exists t.
    assert (Y : exists c, In c t /\ written_ok c = false).
    { clear - Ft. induction t as [|c r IH]; [discriminate|].
      cbn [forallb] in Ft. destruct (written_ok c) eqn:W.
      - destruct (IH Ft) as (c' & I & E). exists c'. split; [right; exact I | exact E].
      - exists c. split; [left; reflexivity | exact W]. }
    destruct Y as (c' & Ic & Wc). exists c'. split; [exact It|]. split; [exact Ic|].
    rewrite written_ok_encodable in Wc. apply encodable_spec, Wc.
  - intros (t & c & It & Ic & S).
    assert (F : forallb encodable (Json.dumps 0 (state_json st)) = false).
    { rewrite A. apply not_true_is_false. intros T. rewrite forallb_forall in T.
      specialize (T t It). rewrite forallb_forall in T. specialize (T c Ic).
      rewrite written_ok_encodable in T. apply encodable_spec in S. congruence. }
    destruct (utf8_encode (Json.dumps 0 (state_json st))) eqn:E; [|reflexivity].
    exfalso. assert (T : forallb encodable (Json.dumps 0 (state_json st)) = true).
    { apply forallb_forall. intros x I. destruct (encodable x) eqn:X; [reflexivity|].
      assert (N : utf8_encode (Json.dumps 0 (state_json st)) = None)
        by (apply utf8_encode_none; exists x; tauto).
      congruence. }
    congruence.
Qed.

(* ================================================================== *)
(** ** More on titles *)

Section TitleShape.
Context {U : UnicodeDB}.

Lemma collapse_ws_spaces (s : text) :
  forall b c, In c (collapse_ws b s) -> isspace c = true -> c = 32%N.
Proof.
  induction s as [|x s IH]; intros b c I W; [destruct I|].
  cbn [collapse_ws] in I. destruct (isspace x) eqn:X.
  - destruct b; [exact (IH _ _ I W)|].
    destruct I as [<- | I]; [reflexivity | exact (IH _ _ I W)].
  - destruct I as [<- | I]; [congruence | exact (IH _ _ I W)].
Qed.

Lemma lstrip_suffix (s : text) : exists p, s = p ++ lstrip s.
Proof.
  induction s as [|c r (p & E)]; [exists []; reflexivity|].
  cbn [lstrip]. destruct (isspace c).
  - exists (c :: p). cbn [app]. f_equal. exact E.
  - exists []. reflexivity.
Qed.

Lemma lstrip_head (s : text) (c : char) :
  hd_error (lstrip s) = Some c -> isspace c = false.
Proof.
  induction s as [|x r IH]; cbn [lstrip]; [discriminate|].
  destruct (isspace x) eqn:X; [exact IH|].
  cbn [hd_error]. intros E. injection E as <-. exact X.
Qed.

Lemma strip_ends (s : text) (c : char) :
  (hd_error (strip s) = Some c -> isspace c = false)
  /\ (hd_error (rev (strip s)) = Some c -> isspace c = false).
Proof.
  unfold strip. rewrite rev_involutive. split; [|apply lstrip_head].
  destruct (lstrip_suffix (rev (lstrip s))) as (p & E).
  set (y := lstrip (rev (lstrip s))) in *.
  assert (X : lstrip s = rev y ++ rev p).
  { rewrite <- (rev_involutive (lstrip s)), E, rev_app_distr. reflexivity. }
  intros H. apply (lstrip_head s).
  rewrite X. destruct (rev y) as [|a r]; [discriminate|]. exact H.
Qed.

End TitleShape.

(** X20.  A normalized title (lines 76-80) holds only characters the
    pattern of line 79 lets through, its only whitespace character is the
    plain space, and it neither starts nor ends with one. *)
Theorem normalized_title_shape (U : UnicodeDB) (t : text) :
  (forall c, In c (normalize_title t) ->
             allowed c = true /\ (isspace c = true -> c = 32%N))
  /\ (forall c, hd_error (normalize_title t) = Some c -> isspace c = false)
  /\ (forall c, hd_error (rev (normalize_title t)) = Some c -> isspace c = false).
Proof.
  split; [|split].
  - intros c I. split; [exact (normalize_title_allowed _ _ I)|].
    unfold normalize_title in I. cbv zeta in I. apply strip_incl in I.
    apply filter_In in I. destruct I as [I _]. exact (collapse_ws_spaces _ _ _ I).
  - intros c. apply strip_ends.
  - intros c. apply strip_ends.
Qed.

(** *** Keywords in context *)

Lemma occurs_in_context (k t pre post : text) :
  occurs_in k t -> occurs_in k (pre ++ t ++ post).
Proof.
  intros (a & b & ->). exists (pre ++ a), (b ++ post). rewrite <- !app_assoc. reflexivity.
Qed.

Lemma contains_any_context (t pre post : text) (keys : list text) :
  contains_any t keys = true -> contains_any (pre ++ t ++ post) keys = true.
Proof.
  rewrite !contains_any_spec. intros (k & I & O). exists k.
  split; [exact I | apply occurs_in_context, O].
Qed.

(** X21.  Text around a headline cannot hide its keywords: if a title is
    classed strong-bear, so is every text that contains it; a strong title
    stays strong and a title that is not neutral stays not neutral,
    whatever is put before or after it. *)
Theorem class_survives_context (t pre post : text) :
  (classify_sentiment t = StrongBear -> classify_sentiment (pre ++ t ++ post) = StrongBear)
  /\ (is_strong (classify_sentiment t) = true ->
      is_strong (classify_sentiment (pre ++ t ++ post)) = true)
  /\ (classify_sentiment t <> Neutral -> classify_sentiment (pre ++ t ++ post) <> Neutral).
Proof.
  pose proof (@contains_any_context t pre post BEAR_KEYS_STRONG) as A.
  pose proof (@contains_any_context t pre post BULL_KEYS_STRONG) as B.
  pose proof (@contains_any_context t pre post BEAR_KEYS) as C.
  pose proof (@contains_any_context t pre post BULL_KEYS) as D.
  unfold classify_sentiment. cbv zeta.
  destruct (contains_any t BEAR_KEYS_STRONG);
    [rewrite (A eq_refl); repeat split; auto; discriminate|].
  destruct (contains_any t BULL_KEYS_STRONG).
  - rewrite (B eq_refl). destruct (contains_any (pre ++ t ++ post) BEAR_KEYS_STRONG);
      repeat split; auto; discriminate.
  - destruct (contains_any t BEAR_KEYS).
    + rewrite (C eq_refl).
      destruct (contains_any (pre ++ t ++ post) BEAR_KEYS_STRONG),
               (contains_any (pre ++ t ++ post) BULL_KEYS_STRONG);
        repeat split; auto; discriminate.
    + destruct (contains_any t BULL_KEYS).
      * rewrite (D eq_refl).
        destruct (contains_any (pre ++ t ++ post) BEAR_KEYS_STRONG),
                 (contains_any (pre ++ t ++ post) BULL_KEYS_STRONG),
                 (contains_any (pre ++ t ++ post) BEAR_KEYS);
          repeat split; auto; discriminate.
      * repeat split; try discriminate. intros N. exfalso. apply N. reflexivity.
Qed.

(* ================================================================== *)
(** ** The spacing of digests *)

Section DigestSpacing.
Context {U : UnicodeDB}.

(** What the digest branch does to [last_digest_unix]. *)
Lemma cycle_last_digest (st st' : State) (inp : CycleInput) (out : Output) :
  cycle st inp = Some (st', out) ->
  if out_fired out
  then (DIGEST_INTERVAL_MIN * 60 <= now_unix inp - last_digest_unix st)%Z
       /\ last_digest_unix st' = now_unix inp
  else last_digest_unix st' = last_digest_unix st.
Proof.
  unfold cycle. destruct (poll (dart inp) _) as [seen newly].
  unfold digest_step. cbn [digest_buffer last_digest_unix seen_hashes].
  destruct (need_digest _ _ _) eqn:N.
  - destruct (entry_items _); [|discriminate]. intros E. injection E as <- <-.
    cbn [out_fired last_digest_unix]. apply need_digest_spec in N. tauto.
  - intros E. injection E as <- <-. reflexivity.
Qed.

Lemma run_app (a b : list CycleInput) :
  forall st st' outs,
    run st (a ++ b) = Some (st', outs) ->
    exists mid oa ob,
      run st a = Some (mid, oa) /\ run mid b = Some (st', ob) /\ outs = oa ++ ob.
Proof.
  induction a as [|x a IH]; intros st st' outs R.
  - exists st, [], outs. repeat split. exact R.
  - cbn [app run] in R. destruct (cycle st x) as [[s1 o1]|] eqn:C; [|discriminate].
    destruct (run s1 (a ++ b)) as [[s2 os]|] eqn:R2; [|discriminate].
    injection R as <- <-. destruct (IH _ _ _ R2) as (mid & oa & ob & Ra & Rb & ->).
    exists mid, (o1 :: oa), ob. cbn [run]. rewrite C, Ra. repeat split. exact Rb.
Qed.

(** Every digest of a run comes at least an interval after the
    [last_digest_unix] the run started from. *)
Lemma run_fires_late (inps : list CycleInput) :
  forall st st' outs,
    run st inps = Some (st', outs) ->
    (last_digest_unix st <= last_digest_unix st')%Z
    /\ forall inp out, In (inp, out) (combine inps outs) -> out_fired out = true ->
                       (DIGEST_INTERVAL_MIN * 60 <= now_unix inp - last_digest_unix st)%Z.
Proof.
  induction inps as [|x inps IH]; intros st st' outs R.
  - cbn in R. injection R as <- <-. split; [lia | intros ? ? []].
  - cbn [run] in R. destruct (cycle st x) as [[s1 o1]|] eqn:C; [|discriminate].
    destruct (run s1 inps) as [[s2 os]|] eqn:R2; [|discriminate].
    injection R as <- <-. destruct (IH _ _ _ R2) as (M & F).
    pose proof (cycle_last_digest _ _ C) as L.
    assert (D : (0 <= DIGEST_INTERVAL_MIN * 60)%Z) by (vm_compute; discriminate).
    assert (S1 : (last_digest_unix st <= last_digest_unix s1)%Z)
      by (destruct (out_fired o1); [destruct L; lia | lia]).
    split; [lia|].
    intros inp out [E | I] Fi.
    + injection E as <- <-. rewrite Fi in L. tauto.
    + specialize (F _ _ I Fi). lia.
Qed.

Lemma combine_app_In (A B : Type) (a a' : list A) (b b' : list B) (x : A * B) :
  List.length a = List.length b -> In x (combine a' b') -> In x (combine (a ++ a') (b ++ b')).
Proof.
  revert b. induction a as [|y a IH]; intros [|z b] L I; try discriminate; [exact I|].
  cbn [app combine]. right. apply IH; [cbn in L; lia | exact I].
Qed.

End DigestSpacing.

(** X22.  Two digests of one process are at least 60 minutes of the
    wall clock apart: when a cycle takes the digest branch at [now_unix]
    [u] and a later cycle takes it at [u'], then [u' - u >= 3600], whatever
    happened in the cycles between and whether the summary was sent. *)
Theorem digests_are_an_hour_apart
    (U : UnicodeDB) (st st' : State)
    (before between after : list CycleInput) (first second : CycleInput)
    (outs : list Output) :
  run st (before ++ first :: between ++ second :: after) = Some (st', outs) ->
  forall o1 o2,
    nth_error outs (List.length before) = Some o1 ->
    nth_error outs (List.length before + S (List.length between)) = Some o2 ->
    out_fired o1 = true -> out_fired o2 = true ->
    (DIGEST_INTERVAL_MIN * 60 <= now_unix second - now_unix first)%Z.
Proof.
  intros R o1 o2 N1 N2 F1 F2.
  destruct (run_app _ _ _ R) as (m1 & oa & ob & Ra & Rb & ->).
  assert (La : List.length oa = List.length before) by (apply (run_shape _ _ Ra)).
  rewrite nth_error_app2 in N1, N2 by lia.
  replace (List.length before - List.length oa) with 0 in N1 by lia.
  replace (List.length before + S (List.length between) - List.length oa)
    with (S (List.length between)) in N2 by lia.
  cbn [run] in Rb. destruct (cycle m1 first) as [[m2 of1]|] eqn:C1; [|discriminate].
  destruct (run m2 (between ++ second :: after)) as [[m3 orest]|] eqn:R3; [|discriminate].
  injection Rb as <- <-. cbn [nth_error] in N1, N2. injection N1 as ->.
  pose proof (cycle_last_digest _ _ C1) as L. rewrite F1 in L. destruct L as [_ L].
  destruct (run_fires_late _ _ R3) as (_ & F).
  rewrite <- L. apply (F second o2); [|exact F2].
  destruct (run_app _ _ _ R3) as (m4 & ox & oy & Rx & Ry & ->).
  assert (Lx : List.length ox = List.length between) by (apply (run_shape _ _ Rx)).
  rewrite nth_error_app2 in N2 by lia.
  replace (List.length between - List.length ox) with 0 in N2 by lia.
  apply combine_app_In; [symmetry; exact Lx|].
  cbn [run] in Ry. destruct (cycle m4 second) as [[m5 o2']|] eqn:C2; [|discriminate].
  destruct (run m5 after) as [[m6 oz]|]; [|discriminate].
  injection Ry as <- <-. cbn [nth_error] in N2. injection N2 as ->.
  left. reflexivity.
Qed.

Definition later_cycle : CycleInput :=
  mkInput [Fetched [mkArrival scenario_news sample_now]] [] (fun _ => true)
          sample_now (1709260000 + 61 * 60 + 3600) sample_now (fun _ => true).

Definition two_digests_end : State * list Output := Eval vm_compute in
  match run (mkState [] [sample_old_entry] 1709260000)
            [quiet_cycle (1709260000 + 61 * 60); later_cycle] with
  | Some r => r
  | None => (mkState [] [] 0, [])
  end.

Lemma digests_are_an_hour_apart_witness :
  (DIGEST_INTERVAL_MIN * 60
   <= now_unix later_cycle - now_unix (quiet_cycle (1709260000 + 61 * 60)))%Z.
Proof.
  refine (@digests_are_an_hour_apart basic_db (mkState [] [sample_old_entry] 1709260000)
            (fst two_digests_end) [] [] [] (quiet_cycle (1709260000 + 61 * 60)) later_cycle
            (snd two_digests_end) _
            (nth 0 (snd two_digests_end) (mkOutput [] [] [] false None))
            (nth 1 (snd two_digests_end) (mkOutput [] [] [] false None)) _ _ _ _);
    vm_compute; reflexivity.
Defined.

(* ================================================================== *)
(** ** A state file cut short *)

Module Truncation.
Import Json JsonFacts.

(** More text after a string, a literal or a closing bracket does not
    change what was decoded before it. *)

Lemma skip_ws_ext (s t : text) : skip_ws s <> [] -> skip_ws (s ++ t) = skip_ws s ++ t.
Proof.
  induction s as [|c r IH]; intros H; [cbn in H; congruence|].
  cbn [skip_ws app] in *. destruct (is_ws c); [apply IH, H | reflexivity].
Qed.

Lemma next_is_ext (c : char) (s t r : text) :
  next_is c s = Some r -> next_is c (s ++ t) = Some (r ++ t).
Proof.
  destruct s as [|x s]; cbn [next_is app]; [discriminate|].
  destruct (x =? c)%N; [|discriminate]. intros E. injection E as <-. reflexivity.
Qed.

Lemma next_is_miss_ext (c : char) (s t : text) :
  next_is c s = None -> s <> [] -> next_is c (s ++ t) = None.
Proof.
  destruct s as [|x s]; cbn [next_is app]; [congruence|].
  destruct (x =? c)%N; [discriminate | reflexivity].
Qed.

Lemma next_is_nonempty (c : char) (s r : text) : next_is c s = Some r -> s <> [].
Proof. destruct s; [discriminate | discriminate]. Qed.

Lemma starts_with_ext (p s t : text) :
  starts_with p s = true -> starts_with p (s ++ t) = true.
Proof.
  revert s. induction p as [|x p IH]; intros [|y s]; cbn [starts_with app]; try reflexivity;
    try discriminate.
  intros H. apply andb_true_iff in H. destruct H as [A B]. rewrite A, (IH _ B). reflexivity.
Qed.

Lemma starts_with_length (p s : text) :
  starts_with p s = true -> (List.length p <= List.length s)%nat.
Proof.
  revert s. induction p as [|x p IH]; intros [|y s]; cbn [starts_with List.length]; try lia;
    try discriminate.
  intros H. apply andb_true_iff in H. destruct H as [_ B]. specialize (IH _ B). lia.
Qed.

Lemma starts_ext (p s t r : text) :
  starts p s = Some r -> starts p (s ++ t) = Some (r ++ t).
Proof.
  unfold starts. destruct (starts_with p s) eqn:E; [|discriminate].
  rewrite (starts_with_ext _ _ t E). intros H. injection H as <-.
  rewrite skipn_app. pose proof (starts_with_length _ _ E).
  replace (List.length p - List.length s)%nat with 0%nat by lia. reflexivity.
Qed.


Lemma pair_match (A : Type) (l : text) (X : text -> A) (B : A) :
  match l with
  | 92%N :: 117%N :: r7 => X r7
  | _ => B
  end
  = match l with
    | a :: b :: r7 => if ((a =? 92) && (b =? 117))%N then X r7 else B
    | _ => B
    end.
Proof.
  assert (M : forall (a : N) (Y Z : A), a <> 92%N ->
                match a with 92%N => Y | _ => Z end = Z).
  { intros a Y Z H. destruct a as [|p]; [reflexivity|].
    do 7 (destruct p as [p|p|]; try reflexivity). congruence. }
  assert (M' : forall (a : N) (Y Z : A), a <> 117%N ->
                 match a with 117%N => Y | _ => Z end = Z).
  { intros a Y Z H. destruct a as [|p]; [reflexivity|].
    do 7 (destruct p as [p|p|]; try reflexivity). congruence. }
  destruct l as [|a [|b r7]]; [reflexivity | |].
  - destruct (N.eqb_spec a 92) as [-> | Ne]; [reflexivity|].
    exact (M a _ _ Ne).
  - destruct (N.eqb_spec a 92) as [-> | Ne].
    + destruct (N.eqb_spec b 117) as [-> | Nb]; [reflexivity|]. cbn [andb].
      exact (M' b _ _ Nb).
    + cbn [andb]. exact (M a _ _ Ne).
Qed.


Lemma cons_fst_some (c : char) (o : option (text * text)) (x r : text) :
  cons_fst c o = Some (x, r) -> exists x', o = Some (x', r) /\ x = c :: x'.
Proof.
  destruct o as [[x' r']|]; cbn [cons_fst]; [|discriminate].
  intros E. injection E as <- <-. exists x'. split; reflexivity.
Qed.

Definition extends (s : text) : Prop :=
  forall x r t, scanstring s = Some (x, r) -> scanstring (s ++ t) = Some (x, r ++ t).

Lemma cons_fst_ext (c : char) (s s' : text) (x r t : text) :
  extends s ->
  cons_fst c (scanstring s) = Some (x, r) ->
  s' = s ++ t ->
  cons_fst c (scanstring s') = Some (x, r ++ t).
Proof.
  intros E H ->. destruct (cons_fst_some _ _ H) as (x' & S & ->).
  rewrite (E _ _ t S). reflexivity.
Qed.

Lemma scanstring_ext_bounded (n : nat) :
  forall s, (List.length s <= n)%nat -> extends s.
Proof.
  induction n as [|n IH]; intros s L.
  - destruct s; [|cbn in L; lia]. intros x r t H. discriminate.
  - intros x r t H. destruct s as [|c r0]; [discriminate|].
    cbn [List.length] in L. cbn [app scanstring] in *.
    destruct (c =? 34)%N; [injection H as <- <-; reflexivity|].
    destruct (c =? 92)%N.
    + destruct r0 as [|e r1]; [discriminate|]. cbn [app List.length] in *.
      destruct (e =? 117)%N.
      * destruct r1 as [|h1 [|h2 [|h3 [|h4 r5]]]]; try discriminate.
        cbn [app List.length] in *.
        destruct (hex4 h1 h2 h3 h4) as [uni|]; [|discriminate].
        destruct ((55296 <=? uni) && (uni <=? 56319))%N.
        -- rewrite pair_match in H. rewrite pair_match.
           destruct r5 as [|a [|b r7]].
           ++ cbn in H. discriminate.
           ++ cbn [app]. destruct (cons_fst_some _ _ H) as (x' & S & ->).
              cbn [scanstring] in S.
              destruct (a =? 34)%N eqn:A34.
              ** injection S as <- <-. apply N.eqb_eq in A34. subst a.
                 destruct t as [|t0 t']; [reflexivity|]. cbn [andb N.eqb Pos.eqb].
                 reflexivity.
              ** destruct (a =? 92)%N eqn:A92; [discriminate|].
                 destruct (a <? 32)%N eqn:A32; [discriminate|]. discriminate.
           ++ cbn [app List.length] in *.
              destruct ((a =? 92) && (b =? 117))%N.
              ** destruct r7 as [|g1 [|g2 [|g3 [|g4 r11]]]]; try discriminate.
                 cbn [app List.length] in *.
                 destruct (hex4 g1 g2 g3 g4) as [uni2|]; [|discriminate].
                 destruct ((56320 <=? uni2) && (uni2 <=? 57343))%N.
                 --- eapply cons_fst_ext; [apply IH | exact H | reflexivity]. lia.
                 --- eapply (@cons_fst_ext _ (a :: b :: g1 :: g2 :: g3 :: g4 :: r11));
                       [apply IH | exact H | reflexivity]. cbn [List.length]. lia.
              ** eapply (@cons_fst_ext _ (a :: b :: r7)); [apply IH | exact H | reflexivity].
                 cbn [List.length]. lia.
        -- eapply cons_fst_ext; [apply IH | exact H | reflexivity]. lia.
      * destruct (unescape e); [|discriminate].
        eapply cons_fst_ext; [apply IH | exact H | reflexivity]. lia.
    + destruct (c <? 32)%N; [discriminate|].
      eapply cons_fst_ext; [apply IH | exact H | reflexivity]. lia.
Qed.

(** More text after the closing quote leaves the string as it was read. *)
Lemma scanstring_ext (s x r t : text) :
  scanstring s = Some (x, r) -> scanstring (s ++ t) = Some (x, r ++ t).
Proof. apply (@scanstring_ext_bounded (List.length s) s (le_n _)). Qed.


(** What may follow a number for it to be read the same with more text
    behind: a character that continues no number. *)
Definition safe_tail (r : text) : bool :=
  match r with
  | c :: _ => negb (is_digit c || (c =? 46) || (c =? 101) || (c =? 69))%N
  | [] => false
  end.

Lemma span_digits_ext (s : text) :
  forall d r t, span_digits s = (d, r) -> r <> [] -> span_digits (s ++ t) = (d, r ++ t).
Proof.
  induction s as [|c s IH]; intros d r t H N.
  - cbn in H. injection H as <- <-. congruence.
  - cbn [span_digits app] in *. destruct (is_digit c).
    + destruct (span_digits s) as [d' r'] eqn:E. injection H as <- <-.
      rewrite (IH _ _ t eq_refl N). reflexivity.
    + injection H as <- <-. reflexivity.
Qed.

Lemma span_digits_nil (s : text) : s = [] -> span_digits s = ([], []).
Proof. intros ->. reflexivity. Qed.

Lemma scan_frac_eq (s : text) :
  scan_frac s
  = match s with
    | c :: r =>
      if (c =? 46)%N then
        match span_digits r with
        | ([], _) => ([], s)
        | (d, rest) => (46%N :: d, rest)
        end
      else ([], s)
    | [] => ([], s)
    end.
Proof.
  destruct s as [|c r]; [reflexivity|]. unfold scan_frac.
  destruct (N.eqb_spec c 46) as [-> | Ne]; [reflexivity|].
  destruct c as [|p]; [reflexivity|].
  do 6 (destruct p as [p|p|]; try reflexivity). congruence.
Qed.

Lemma safe_tail_exp (e : char) (x : text) :
  ((e =? 101) || (e =? 69))%N = true -> safe_tail (e :: x) = false.
Proof.
  intros E. cbn [safe_tail]. apply negb_false_iff.
  destruct (is_digit e), (e =? 46)%N, (e =? 101)%N, (e =? 69)%N; try reflexivity; discriminate.
Qed.

Lemma scan_exp_ext (s ex r t : text) :
  scan_exp s = (ex, r) -> safe_tail r = true ->
  scan_exp (s ++ t) = (ex, r ++ t)
  /\ match s with c :: _ => (c =? 46)%N = false | [] => False end.
Proof.
  intros H S. destruct s as [|e r0].
  - cbn in H. injection H as <- <-. discriminate.
  - cbn [scan_exp app] in *.
    destruct ((e =? 101) || (e =? 69))%N eqn:E.
    + assert (Ne : (e =? 46)%N = false).
      { apply orb_true_iff in E. destruct E as [E | E]; apply N.eqb_eq in E; subst; reflexivity. }
      split; [|exact Ne].
      destruct r0 as [|c r']; cbn [app] in *.
      * cbn in H. injection H as <- <-. rewrite (@safe_tail_exp e _ E) in S. discriminate.
      * destruct ((c =? 43) || (c =? 45))%N.
        -- destruct (span_digits r') as [d rest] eqn:D. destruct d as [|d0 d'].
           ++ injection H as <- <-. rewrite (@safe_tail_exp e _ E) in S. discriminate.
           ++ injection H as <- <-.
              assert (N : rest <> []) by (intros ->; discriminate).
              rewrite (span_digits_ext _ t D N). reflexivity.
        -- destruct (span_digits (c :: r')) as [d rest] eqn:D. destruct d as [|d0 d'].
           ++ injection H as <- <-. rewrite (@safe_tail_exp e _ E) in S. discriminate.
           ++ injection H as <- <-.
              assert (N : rest <> []) by (intros ->; discriminate).
              pose proof (span_digits_ext (c :: r') t D N) as X. cbn [app] in X.
              rewrite X. reflexivity.
    + injection H as <- <-. split; [reflexivity|].
      cbn [safe_tail] in S. apply negb_true_iff in S.
      rewrite !orb_false_iff in S. tauto.
Qed.

Lemma scan_frac_ext (s f r t : text) :
  scan_frac s = (f, r) ->
  match r with c :: _ => (c =? 46)%N = false | [] => False end ->
  scan_frac (s ++ t) = (f, r ++ t).
Proof.
  rewrite !scan_frac_eq. intros H S. destruct s as [|c r0].
  - injection H as <- <-. destruct S.
  - cbn [app]. destruct (c =? 46)%N eqn:C.
    + destruct (span_digits r0) as [d rest] eqn:D. destruct d as [|d0 d'].
      * injection H as <- <-. rewrite C in S. discriminate.
      * injection H as <- <-.
        assert (N : rest <> []) by (intros ->; destruct S).
        rewrite (span_digits_ext _ t D N). reflexivity.
    + injection H as <- <-. reflexivity.
Qed.

Lemma scan_unsigned_ext (neg : bool) (s : text) (v : json) (r t : text) :
  scan_unsigned neg s = Some (v, r) -> safe_tail r = true ->
  scan_unsigned neg (s ++ t) = Some (v, r ++ t).
Proof.
  unfold scan_unsigned. destruct s as [|c r0]; [discriminate|]. cbn [app].
  destruct (is_digit c) eqn:Dg; [|discriminate].
  intros H S.
  destruct (if (c =? 48)%N then ([c], r0) else span_digits (c :: r0)) as [ipart r1] eqn:I.
  destruct (scan_frac r1) as [frac r2] eqn:F.
  destruct (scan_exp r2) as [ex r3] eqn:X.
  assert (R : r3 = r).
  { destruct frac, ex; injection H as _ <-; reflexivity. }
  subst r3. destruct (scan_exp_ext _ t X S) as [X' D2].
  assert (F' : scan_frac (r1 ++ t) = (frac, r2 ++ t)).
  { apply scan_frac_ext; [exact F|]. destruct r2; [destruct D2 | exact D2]. }
  assert (N1 : r1 <> []).
  { intros ->. cbn in F. injection F as <- <-. destruct D2. }
  assert (I' : (if (c =? 48)%N then ([c], r0 ++ t) else span_digits (c :: r0 ++ t))
               = (ipart, r1 ++ t)).
  { destruct (c =? 48)%N.
    - injection I as <- <-. reflexivity.
    - exact (span_digits_ext (c :: r0) t I N1). }
  rewrite I', F', X'. destruct frac, ex; cbv zeta in H |- *; inversion H; reflexivity.
Qed.

Lemma scan_number_ext (s : text) (v : json) (r t : text) :
  scan_number s = Some (v, r) -> safe_tail r = true ->
  scan_number (s ++ t) = Some (v, r ++ t).
Proof.
  unfold scan_number. destruct s as [|c r0]; [discriminate|]. cbn [app].
  destruct (c =? 45)%N; intros H S.
  - exact (scan_unsigned_ext _ _ t H S).
  - exact (scan_unsigned_ext _ (c :: r0) t H S).
Qed.


Definition is_number (v : json) : bool :=
  match v with JInt _ | JFloat _ => true | _ => false end.

Definition safe_char (c : char) : bool :=
  negb (is_digit c || (c =? 46) || (c =? 101) || (c =? 69))%N.

Lemma is_ws_safe (c : char) : is_ws c = true -> safe_char c = true.
Proof.
  unfold is_ws. rewrite !orb_true_iff, !N.eqb_eq.
  intros [[[-> | ->] | ->] | ->]; reflexivity.
Qed.

Lemma safe_tail_skip (c : char) (r0 rest : text) :
  next_is c (skip_ws r0) = Some rest -> safe_char c = true -> safe_tail r0 = true.
Proof.
  destruct r0 as [|x r]; [discriminate|]. cbn [skip_ws safe_tail].
  destruct (is_ws x) eqn:W.
  - intros _ _. exact (@is_ws_safe _ W).
  - cbn [next_is]. destruct (x =? c)%N eqn:E; [|discriminate].
    apply N.eqb_eq in E. subst. intros _ S. exact S.
Qed.

Lemma scan_items_nil (f : nat) : scan_items f [] = None.
Proof. destruct f as [|f]; [reflexivity|]. cbn [scan_items]. rewrite scan_once_nil. reflexivity. Qed.

Lemma scan_number_is_number (s : text) (v : json) (r : text) :
  scan_number s = Some (v, r) -> is_number v = true.
Proof.
  unfold scan_number, scan_unsigned. destruct s as [|c r0]; [discriminate|].
  destruct (c =? 45)%N.
  - destruct r0 as [|c' r1]; [discriminate|]. destruct (is_digit c'); [|discriminate].
    destruct (if (c' =? 48)%N then _ else _) as [ipart r1'].
    destruct (scan_frac r1') as [frac r2]. destruct (scan_exp r2) as [ex r3].
    destruct frac, ex; cbv zeta; intros H; inversion H; reflexivity.
  - destruct (is_digit c); [|discriminate].
    destruct (if (c =? 48)%N then _ else _) as [ipart r1'].
    destruct (scan_frac r1') as [frac r2]. destruct (scan_exp r2) as [ex r3].
    destruct frac, ex; cbv zeta; intros H; inversion H; reflexivity.
Qed.

(** The three literals that start no number. *)
Lemma scan_number_literal (s t : text) :
  starts NAN s <> None \/ starts INFINITY s <> None \/ starts NEG_INFINITY s <> None ->
  scan_number (s ++ t) = None.
Proof.
  unfold starts.
  assert (H1 : forall p, starts_with p s = true ->
                         (match (if starts_with p s then Some (skipn (List.length p) s) else None)
                          with Some _ => True | None => False end)) by (intros p ->; exact I).
  intros H.
  assert (C : starts_with NAN s = true \/ starts_with INFINITY s = true
              \/ starts_with NEG_INFINITY s = true).
  { destruct (starts_with NAN s); [left; reflexivity|].
    destruct (starts_with INFINITY s); [right; left; reflexivity|].
    destruct (starts_with NEG_INFINITY s); [right; right; reflexivity|].
    destruct H as [H | [H | H]]; congruence. }
  clear H H1. destruct s as [|c r0]; [destruct C as [C | [C | C]]; discriminate|].
  destruct C as [C | [C | C]]; unfold NAN, INFINITY, NEG_INFINITY in C;
    cbn [starts_with] in C; apply andb_true_iff in C; destruct C as [C C'];
    apply N.eqb_eq in C; subst c.
  - reflexivity.
  - reflexivity.
  - destruct r0 as [|c' r1]; [discriminate|]. cbn [starts_with] in C'.
    apply andb_true_iff in C'. destruct C' as [C' _]. apply N.eqb_eq in C'. subst c'.
    reflexivity.
Qed.

Definition ext_once (f : nat) : Prop :=
  forall s v r t,
    scan_once f s = Some (v, r) -> is_number v = false \/ safe_tail r = true ->
    scan_once f (s ++ t) = Some (v, r ++ t).

Definition ext_items (f : nat) : Prop :=
  forall s vs r t,
    scan_items f s = Some (vs, r) -> scan_items f (s ++ t) = Some (vs, r ++ t).

Definition ext_members (f : nat) : Prop :=
  forall s kvs r t,
    scan_members f s = Some (kvs, r) -> scan_members f (s ++ t) = Some (kvs, r ++ t).

Lemma skip_ws_ext_next (c : char) (s t rest : text) :
  next_is c (skip_ws s) = Some rest ->
  skip_ws (s ++ t) = skip_ws s ++ t.
Proof. intros H. apply skip_ws_ext. exact (@next_is_nonempty _ _ _ H). Qed.

Lemma ext_once_step (f : nat) : ext_items f -> ext_members f -> ext_once (S f).
Proof.
  intros EI EM s v r t H N. destruct s as [|c r0]; [discriminate|].
  cbn [scan_once app] in *.
  destruct (c =? 34)%N.
  { destruct (scanstring r0) as [[str rest]|] eqn:S; [|discriminate].
    injection H as <- <-. rewrite (@scanstring_ext _ _ _ t S). reflexivity. }
  destruct (c =? 123)%N.
  { cbv zeta in *. destruct (next_is 125%N (skip_ws r0)) as [rest|] eqn:A.
    - injection H as <- <-. rewrite (@skip_ws_ext_next _ _ t _ A), (@next_is_ext _ _ t _ A).
      reflexivity.
    - destruct (next_is 34%N (skip_ws r0)) as [rest|] eqn:B; [|discriminate].
      destruct (scan_members f rest) as [[pairs rest']|] eqn:M; [|discriminate].
      injection H as <- <-.
      rewrite (@skip_ws_ext_next _ _ t _ B).
      rewrite (@next_is_miss_ext _ _ t A (@next_is_nonempty _ _ _ B)).
      rewrite (@next_is_ext _ _ t _ B), (EM _ _ _ t M). reflexivity. }
  destruct (c =? 91)%N.
  { cbv zeta in *. destruct (next_is 93%N (skip_ws r0)) as [rest|] eqn:A.
    - injection H as <- <-. rewrite (@skip_ws_ext_next _ _ t _ A), (@next_is_ext _ _ t _ A).
      reflexivity.
    - destruct (scan_items f (skip_ws r0)) as [[vs rest']|] eqn:M; [|discriminate].
      injection H as <- <-.
      assert (Ne : skip_ws r0 <> []) by (intros E; rewrite E, scan_items_nil in M; discriminate).
      rewrite (@skip_ws_ext _ t Ne), (@next_is_miss_ext _ _ t A Ne), (EI _ _ _ t M). reflexivity. }
  destruct (c =? 110)%N.
  { destruct (starts NULL (c :: r0)) as [rest|] eqn:S; [|discriminate].
    injection H as <- <-. pose proof (@starts_ext _ _ t _ S) as X. cbn [app] in X.
    rewrite X. reflexivity. }
  destruct (c =? 116)%N.
  { destruct (starts TRUE (c :: r0)) as [rest|] eqn:S; [|discriminate].
    injection H as <- <-. pose proof (@starts_ext _ _ t _ S) as X. cbn [app] in X.
    rewrite X. reflexivity. }
  destruct (c =? 102)%N.
  { destruct (starts FALSE (c :: r0)) as [rest|] eqn:S; [|discriminate].
    injection H as <- <-. pose proof (@starts_ext _ _ t _ S) as X. cbn [app] in X.
    rewrite X. reflexivity. }
  destruct (scan_number (c :: r0)) as [[v' r']|] eqn:Nm.
  { injection H as <- <-. pose proof (@scan_number_is_number _ _ _ Nm) as Is.
    destruct N as [N | N]; [congruence|].
    pose proof (@scan_number_ext _ _ _ t Nm N) as X. cbn [app] in X. rewrite X. reflexivity. }
  assert (L : scan_number ((c :: r0) ++ t) = None).
  { apply scan_number_literal.
    destruct (starts NAN (c :: r0)); [left; discriminate|].
    destruct (starts INFINITY (c :: r0)); [right; left; discriminate|].
    destruct (starts NEG_INFINITY (c :: r0)); [right; right; discriminate|]. discriminate. }
  cbn [app] in L. rewrite L.
  destruct (starts NAN (c :: r0)) as [rest|] eqn:S1.
  { injection H as <- <-. pose proof (@starts_ext _ _ t _ S1) as X. cbn [app] in X.
    rewrite X. reflexivity. }
  destruct (starts INFINITY (c :: r0)) as [rest|] eqn:S2.
  { injection H as <- <-. pose proof (@starts_ext _ _ t _ S2) as X. cbn [app] in X.
    assert (Y : starts NAN (c :: r0 ++ t) = None).
    { unfold starts in *. destruct (starts_with INFINITY (c :: r0)) eqn:W; [|discriminate].
      unfold INFINITY in W. cbn [starts_with] in W. apply andb_true_iff in W.
      destruct W as [W _]. apply N.eqb_eq in W. subst c. reflexivity. }
    rewrite Y, X. reflexivity. }
  destruct (starts NEG_INFINITY (c :: r0)) as [rest|] eqn:S3; [|discriminate].
  injection H as <- <-. pose proof (@starts_ext _ _ t _ S3) as X. cbn [app] in X.
  assert (Y : starts NAN (c :: r0 ++ t) = None /\ starts INFINITY (c :: r0 ++ t) = None).
  { unfold starts in *. destruct (starts_with NEG_INFINITY (c :: r0)) eqn:W; [|discriminate].
    unfold NEG_INFINITY in W. cbn [starts_with] in W. apply andb_true_iff in W.
    destruct W as [W _]. apply N.eqb_eq in W. subst c. split; reflexivity. }
  destruct Y as [Y1 Y2]. rewrite Y1, Y2, X. reflexivity.
Qed.

Lemma ext_items_step (f : nat) : ext_once f -> ext_items f -> ext_items (S f).
Proof.
  intros EO EI s vs r t H. cbn [scan_items] in *.
  destruct (scan_once f s) as [[v r0]|] eqn:O; [|discriminate]. cbv zeta in *.
  destruct (next_is 93%N (skip_ws r0)) as [rest|] eqn:A.
  - injection H as <- <-.
    rewrite (EO _ _ _ t O (or_intror (@safe_tail_skip _ _ _ A eq_refl))).
    rewrite (@skip_ws_ext_next _ _ t _ A), (@next_is_ext _ _ t _ A). reflexivity.
  - destruct (next_is 44%N (skip_ws r0)) as [r1|] eqn:B; [|discriminate].
    destruct (scan_items f (skip_ws r1)) as [[vs' rest]|] eqn:M; [|discriminate].
    injection H as <- <-.
    rewrite (EO _ _ _ t O (or_intror (@safe_tail_skip _ _ _ B eq_refl))).
    rewrite (@skip_ws_ext_next _ _ t _ B).
    rewrite (@next_is_miss_ext _ _ t A (@next_is_nonempty _ _ _ B)).
    rewrite (@next_is_ext _ _ t _ B).
    assert (Ne : skip_ws r1 <> []) by (intros E; rewrite E, scan_items_nil in M; discriminate).
    rewrite (@skip_ws_ext _ t Ne), (EI _ _ _ t M). reflexivity.
Qed.

Lemma ext_members_step (f : nat) : ext_once f -> ext_members f -> ext_members (S f).
Proof.
  intros EO EM s kvs r t H. cbn [scan_members] in *.
  destruct (scanstring s) as [[key r0]|] eqn:K; [|discriminate].
  rewrite (@scanstring_ext _ _ _ t K).
  destruct (next_is 58%N (skip_ws r0)) as [r1|] eqn:C; [|discriminate].
  rewrite (@skip_ws_ext_next _ _ t _ C), (@next_is_ext _ _ t _ C).
  destruct (scan_once f (skip_ws r1)) as [[v r2]|] eqn:O; [|discriminate].
  assert (Ne : skip_ws r1 <> []) by (intros E; rewrite E, scan_once_nil in O; discriminate).
  rewrite (@skip_ws_ext _ t Ne). cbv zeta in *.
  destruct (next_is 125%N (skip_ws r2)) as [rest|] eqn:A.
  - injection H as <- <-.
    rewrite (EO _ _ _ t O (or_intror (@safe_tail_skip _ _ _ A eq_refl))).
    rewrite (@skip_ws_ext_next _ _ t _ A), (@next_is_ext _ _ t _ A). reflexivity.
  - destruct (next_is 44%N (skip_ws r2)) as [r3|] eqn:B; [|discriminate].
    destruct (next_is 34%N (skip_ws r3)) as [r4|] eqn:Q; [|discriminate].
    destruct (scan_members f r4) as [[kvs' rest]|] eqn:M; [|discriminate].
    injection H as <- <-.
    rewrite (EO _ _ _ t O (or_intror (@safe_tail_skip _ _ _ B eq_refl))).
    rewrite (@skip_ws_ext_next _ _ t _ B).
    rewrite (@next_is_miss_ext _ _ t A (@next_is_nonempty _ _ _ B)).
    rewrite (@next_is_ext _ _ t _ B).
    rewrite (@skip_ws_ext_next _ _ t _ Q), (@next_is_ext _ _ t _ Q).
    rewrite (EM _ _ _ t M). reflexivity.
Qed.

(** Text after a decoded value does not change how the value before it
    is read, unless it continues a number. *)
Lemma scan_ext (f : nat) : ext_once f /\ ext_items f /\ ext_members f.
Proof.
  induction f as [|f (EO & EI & EM)].
  - repeat split; intros s v r t H; discriminate.
  - repeat split.
    + apply ext_once_step; assumption.
    + apply ext_items_step; assumption.
    + apply ext_members_step; assumption.
Qed.

Lemma mono_once_step (f g : nat) :
  (forall s x, scan_items f s = Some x -> scan_items g s = Some x) ->
  (forall s x, scan_members f s = Some x -> scan_members g s = Some x) ->
  forall s x, scan_once (S f) s = Some x -> scan_once (S g) s = Some x.
Proof.
  intros HI HM s x. destruct s as [|c r]; [discriminate|]. cbn [scan_once].
  destruct (c =? 34)%N; [trivial|].
  destruct (c =? 123)%N.
  { cbv zeta. destruct (next_is 125%N (skip_ws r)); [trivial|].
    destruct (next_is 34%N (skip_ws r)) as [rest|]; [|discriminate].
    destruct (scan_members f rest) as [y|] eqn:M; [|discriminate].
    rewrite (HM _ _ M). trivial. }
  destruct (c =? 91)%N; [|trivial].
  cbv zeta. destruct (next_is 93%N (skip_ws r)); [trivial|].
  destruct (scan_items f (skip_ws r)) as [y|] eqn:M; [|discriminate].
  rewrite (HI _ _ M). trivial.
Qed.

Lemma mono_items_step (f g : nat) :
  (forall s x, scan_once f s = Some x -> scan_once g s = Some x) ->
  (forall s x, scan_items f s = Some x -> scan_items g s = Some x) ->
  forall s x, scan_items (S f) s = Some x -> scan_items (S g) s = Some x.
Proof.
  intros HO HI s x. cbn [scan_items].
  destruct (scan_once f s) as [[v r]|] eqn:O; [|discriminate].
  rewrite (HO _ _ O). cbv zeta.
  destruct (next_is 93%N (skip_ws r)); [trivial|].
  destruct (next_is 44%N (skip_ws r)) as [r1|]; [|discriminate].
  destruct (scan_items f (skip_ws r1)) as [y|] eqn:M; [|discriminate].
  rewrite (HI _ _ M). trivial.
Qed.

Lemma mono_members_step (f g : nat) :
  (forall s x, scan_once f s = Some x -> scan_once g s = Some x) ->
  (forall s x, scan_members f s = Some x -> scan_members g s = Some x) ->
  forall s x, scan_members (S f) s = Some x -> scan_members (S g) s = Some x.
Proof.
  intros HO HM s x. cbn [scan_members].
  destruct (scanstring s) as [[key r]|]; [|discriminate].
  destruct (next_is 58%N (skip_ws r)) as [r1|]; [|discriminate].
  destruct (scan_once f (skip_ws r1)) as [[v r2]|] eqn:O; [|discriminate].
  rewrite (HO _ _ O). cbv zeta.
  destruct (next_is 125%N (skip_ws r2)); [trivial|].
  destruct (next_is 44%N (skip_ws r2)) as [r3|]; [|discriminate].
  destruct (next_is 34%N (skip_ws r3)) as [r4|]; [|discriminate].
  destruct (scan_members f r4) as [y|] eqn:M; [|discriminate].
  rewrite (HM _ _ M). trivial.
Qed.

(** More fuel never changes a result. *)
Lemma scan_mono (f : nat) :
  forall g, (f <= g)%nat ->
    (forall s x, scan_once f s = Some x -> scan_once g s = Some x)
    /\ (forall s x, scan_items f s = Some x -> scan_items g s = Some x)
    /\ (forall s x, scan_members f s = Some x -> scan_members g s = Some x).
Proof.
  induction f as [|f IH]; intros g L.
  - repeat split; intros s x H; discriminate.
  - destruct g as [|g]; [lia|].
    destruct (IH g ltac:(lia)) as (HO & HI & HM). repeat split.
    + apply mono_once_step; assumption.
    + apply mono_items_step; assumption.
    + apply mono_members_step; assumption.
Qed.

(** What starts with a brace is read as a dict or not at all. *)
Lemma scan_once_brace (f : nat) (r : text) (v : json) (rest : text) :
  scan_once f (123%N :: r) = Some (v, rest) -> is_number v = false.
Proof.
  destruct f as [|f]; [discriminate|]. cbn [scan_once].
  change (123 =? 34)%N with false. change (123 =? 123)%N with true. cbv iota zeta.
  destruct (next_is 125%N (skip_ws r)); [intros H; injection H as <- _; reflexivity|].
  destruct (next_is 34%N (skip_ws r)) as [r1|]; [|discriminate].
  destruct (scan_members f r1) as [[pairs r2]|]; [|discriminate].
  intros H. injection H as <- _. reflexivity.
Qed.

Lemma state_file_head (st : State) :
  exists tl, dumps 0 (state_json st) = 123%N :: tl.
Proof. unfold state_json. cbn [dumps]. eexists. reflexivity. Qed.

End Truncation.

(** X23.  A state file cut short, at any character before its end, is
    not read as a state: [load_state] raises, whatever the state that was
    being written. *)
Theorem truncated_state_file_is_rejected (st : State) (file : text) (n : nat) :
  save_state (state_json st) = Some file ->
  (n < List.length file)%nat ->
  load_state (Some (firstn n file)) = None.
Proof.
  intros Sv Lt. pose proof (plain_state st) as Pv.
  assert (F : file = Json.dumps 0 (state_json st)).
  { unfold save_state in Sv. cbv zeta in Sv.
    destruct (utf8_encode (Json.dumps 0 (state_json st))); congruence. }
  pose proof (firstn_skipn n file) as Sp.
  assert (Tn : skipn n file <> []).
  { intros E. pose proof (length_skipn n file) as L. rewrite E in L. cbn in L. lia. }
  assert (Cr : forallb not_cr (firstn n file) = true).
  { pose proof (@dumps_no_cr _ 0%nat Pv) as C. rewrite <- F, <- Sp, forallb_app in C.
    apply andb_true_iff in C. apply C. }
  unfold load_state. rewrite (@universal_newlines_id _ Cr). unfold Json.loads.
  destruct (Json.scan_once _ (Json.skip_ws (firstn n file))) as [[v' rest]|] eqn:E;
    [|reflexivity].
  exfalso. destruct (Truncation.state_file_head st) as [tl Hd]. rewrite <- F in Hd.
  destruct n as [|m].
  { cbn [firstn Json.skip_ws] in E. rewrite scan_once_nil in E. discriminate. }
  assert (Hp : firstn (S m) file = 123%N :: firstn m tl) by (rewrite Hd; reflexivity).
  rewrite Hp in E. cbn [Json.skip_ws] in E.
  change (Json.is_ws 123%N) with false in E. cbv iota in E.
  pose proof (@Truncation.scan_once_brace _ _ _ _ E) as Nn.
  destruct (Truncation.scan_ext (2 * List.length (123%N :: firstn m tl) + 2)) as (EO & _).
  pose proof (EO _ _ _ (skipn (S m) file) E (or_introl Nn)) as X.
  rewrite <- Hp in X. rewrite Sp in X.
  assert (Lf : (2 * List.length (firstn (S m) file) + 2 <= 2 * List.length file + 2)%nat).
  { rewrite length_firstn. lia. }
  destruct (@Truncation.scan_mono _ _ Lf) as (HO & _).
  apply HO in X.
  pose proof (@JsonFacts.scan_once_dumps _ Pv 0%nat [] (2 * List.length file + 2)%nat I) as R.
  rewrite List.app_nil_r, <- F in R.
  rewrite R in X.
  - injection X as _ X. symmetry in X. apply app_eq_nil in X. destruct X as [_ X].
    apply Tn. exact X.
  - rewrite F. pose proof (@JsonFacts.weight_le_length _ Pv 0%nat). lia.
Qed.

Lemma truncated_state_file_is_rejected_witness :
  save_state (state_json sample_state) = Some (Json.dumps 0 (state_json sample_state))
  /\ load_state (Some (firstn 40 (Json.dumps 0 (state_json sample_state)))) = None.
Proof.
  assert (S : save_state (state_json sample_state)
              = Some (Json.dumps 0 (state_json sample_state))) by (vm_compute; reflexivity).
  split; [exact S|].
  apply (@truncated_state_file_is_rejected sample_state _ 40 S).
  apply Nat.ltb_lt. vm_compute. reflexivity.
Defined.
